(** * Canary front end: session storage, API client and chat state

    A shallow embedding of the client-side session code of the Canary
    single-page application:

    - [auth-service.js]  (registerUser, loginUser, getUserProfile,
      logoutUser, getAuthToken, getStoredUser, isAuthenticated),
    - [AuthContext.jsx]  (initializeAuth, login, logout),
    - [news-api.js]      (fetchWithTimeout and the news operations),
    - [MainChatArea-api.js] (the chat operations),
    - [AIModal.jsx]      (handleCreateNewChat, handleSendMessage, and the
      effect that reloads the current chat),
    - [LoginPage.jsx]    (handleSubmit), [NewsFeed.jsx] (the handlers, the
      filters and the groups), [App.jsx] (AppContent).

    [localStorage] is a finite map from keys to strings.  The browser
    functions the code calls ([atob], the reader of [JSON.parse],
    [JSON.stringify], the number/string coercions) are the fields of the class
    [Platform]; every theorem holds for all platforms, and a reference
    instance is given to evaluate the code on concrete tokens.  A request is
    answered by a network oracle that says when, and how, the request
    settles, or that the body of its response never arrives.  Numbers are
    doubles, held as the rationals they are: [Date.now() / 1000] is rounded to
    the nearest double, and [JSON.parse] reads number literals as doubles.
    The operations are first defined over a storage that accepts every write;
    [Quota] defines the two operations that write over a storage that may
    refuse a write.  An event handler is first defined by itself;
    [handleSendMessage_with_effect] runs the send handler together with the
    effect of the component that reloads the messages between its steps. *)

From Stdlib Require Import ZArith QArith Qround Qpower Lqa String Ascii List Bool Sorted.
From stdpp Require Import base gmap strings list pretty.

Local Open Scope string_scope.
Local Open Scope Z_scope.
Set Warnings "-register-all,-notation-for-abbreviation".

(** ** JavaScript values *)

(** The values [JSON.parse] and [response.json()] produce.  [undefined] is
    [None] in [option json]. *)
Inductive json : Type :=
| JNull
| JBool (b : bool)
| JNum (q : Q)
| JStr (s : string)
| JArr (items : list json)
| JObj (fields : list (string * json)).

Notation jsval := (option json).
Notation undefined := (@None json).

Record error : Type := mkError { err_name : string; err_message : string }.

(** [new Error(msg)], and the errors the runtime raises by itself. *)
Definition Error_ (msg : string) : error := mkError "Error" msg.
Definition TypeError_ (msg : string) : error := mkError "TypeError" msg.
Definition SyntaxError_ (msg : string) : error := mkError "SyntaxError" msg.
Definition InvalidCharacterError_ : error :=
  mkError "InvalidCharacterError" "The string to be decoded is not correctly encoded.".
Definition AbortError_ : error :=
  mkError "AbortError" "The operation was aborted.".

(** Synchronous code either returns or throws. *)
Inductive completion (A : Type) : Type :=
| Return (a : A)
| Throw (e : error).
Arguments Return {A} a.
Arguments Throw {A} e.

Definition cbind {A B} (c : completion A) (k : A -> completion B) : completion B :=
  match c with
  | Return a => k a
  | Throw e => Throw e
  end.

Declare Scope completion_scope.
Delimit Scope completion_scope with comp.
Notation "x <- c ;; k" := (cbind c (fun x => k))
  (at level 100, c at next level, right associativity) : completion_scope.

(** Results of the numeric coercion. *)
Inductive jsnum : Type :=
| NaN
| Fin (q : Q)
| PosInf
| NegInf.

(** [a < b] on numbers: false as soon as one side is NaN. *)
Definition num_lt (a b : jsnum) : bool :=
  match a, b with
  | NaN, _ | _, NaN => false
  | Fin x, Fin y => match Qcompare x y with Lt => true | _ => false end
  | Fin _, PosInf => true
  | Fin _, NegInf => false
  | PosInf, _ => false
  | NegInf, NegInf => false
  | NegInf, _ => true
  end.

(** *** Doubles

    A JavaScript number is an IEEE 754 double.  [binary64 q] is the double
    nearest to the rational [q], ties going to the even mantissa: the result
    of an arithmetic operation whose exact result is [q], and the number a
    literal of value [q] denotes.  The mantissa has 53 bits; the exponent is
    not bounded here, which leaves out overflow to [Infinity] and the
    subnormal numbers below [2^-1022], out of reach for [Date.now() / 1000]. *)
Definition pow2 (k : Z) : Q := Qpower 2 k.

(** The integer part of the binary logarithm of a positive rational. *)
Definition ilog2 (q : Q) : Z :=
  let k := Z.log2 (Qnum q) - Z.log2 (Z.pos (Qden q)) in
  if Qle_bool (pow2 k) q then k else k - 1.

(** The nearest integer, a tie going to the even one. *)
Definition round_half_even (q : Q) : Z :=
  let f := Qfloor q in
  match Qcompare (q - inject_Z f) (1 # 2) with
  | Lt => f
  | Gt => f + 1
  | Eq => if Z.even f then f else f + 1
  end.

Definition binary64_pos (q : Q) : Q :=
  let e := ilog2 q - 52 in
  Qred (inject_Z (round_half_even (q * pow2 (- e))) * pow2 e).

Definition binary64 (q : Q) : Q :=
  match Qcompare q 0 with
  | Eq => 0%Q
  | Gt => binary64_pos q
  | Lt => Qopp (binary64_pos (Qopp q))
  end.

(** Every number of a value read as a double. *)
Fixpoint to_doubles (v : json) : json :=
  match v with
  | JNum q => JNum (binary64 q)
  | JArr items => JArr (map to_doubles items)
  | JObj fields => JObj (map (fun kv => (fst kv, to_doubles (snd kv))) fields)
  | other => other
  end.

(** The browser functions the sources call. *)
Class Platform : Type := {
  (** [atob]: [None] when it throws InvalidCharacterError. *)
  atob : string -> option string;
  (** The reader of the JSON grammar behind [JSON.parse]: the value a text
      denotes, each number literal with its exact decimal value; [None] when
      the text is not JSON. *)
  JSON_read : string -> option json;
  (** [JSON.stringify] on a defined value. *)
  JSON_stringify : json -> string;
  (** Number to string. *)
  Number_toString : Q -> string;
  (** Conversion of an array or object to a primitive ([toString]);
      [None] when it throws TypeError. *)
  Object_toString : json -> option string;
  (** String to number. *)
  StringToNumber : string -> jsnum;
  (** [encodeURIComponent]. *)
  encodeURIComponent : string -> string;
}.

(** [JSON.parse]: [None] when it throws SyntaxError; the numbers of the
    value it returns are doubles. *)
Definition JSON_parse `{Platform} (s : string) : option json :=
  option_map to_doubles (JSON_read s).
Arguments JSON_parse : simpl never.

(** Own property of a parsed object; for a repeated key the last entry is
    the one [JSON.parse] keeps. *)
Fixpoint lookup_field (k : string) (fs : list (string * json)) : jsval :=
  match fs with
  | [] => undefined
  | (k', v) :: rest =>
      match lookup_field k rest with
      | Some w => Some w
      | None => if String.eqb k k' then Some v else undefined
      end
  end.

(** The own property [k] of a value, [undefined] when it has none: only the
    objects have such properties. *)
Definition field (v : json) (k : string) : jsval :=
  match v with
  | JObj fs => lookup_field k fs
  | _ => undefined
  end.

(** [v.k] for the property names the sources read ([exp], [token], [user],
    [error], [chatId], [id], [messages]): none of them is inherited from a
    prototype, so the read gives the own property; reading a property of
    [null] throws. *)
Definition get_prop (v : json) (k : string) : completion jsval :=
  match v with
  | JNull => Throw (TypeError_ "Cannot read properties of null")
  | _ => Return (field v k)
  end.

(** Truthiness ([if (v)], [!v], [a || b]). *)
Definition truthy (v : jsval) : bool :=
  match v with
  | None => false
  | Some JNull => false
  | Some (JBool b) => b
  | Some (JNum q) => negb (Qeq_bool q 0)
  | Some (JStr s) => negb (String.eqb s "")
  | Some (JArr _) | Some (JObj _) => true
  end.

Definition truthy_string (s : string) : bool := negb (String.eqb s "").

Section JS.
Context `{Platform}.

Definition ToNumber (v : jsval) : completion jsnum :=
  match v with
  | None => Return NaN
  | Some JNull => Return (Fin 0)
  | Some (JBool b) => Return (Fin (if b then 1 else 0))
  | Some (JNum q) => Return (Fin q)
  | Some (JStr s) => Return (StringToNumber s)
  | Some o =>
      match Object_toString o with
      | Some s => Return (StringToNumber s)
      | None => Throw (TypeError_ "Cannot convert object to primitive value")
      end
  end.

Definition ToString (v : jsval) : completion string :=
  match v with
  | None => Return "undefined"
  | Some JNull => Return "null"
  | Some (JBool b) => Return (if b then "true" else "false")
  | Some (JNum q) => Return (Number_toString q)
  | Some (JStr s) => Return s
  | Some o =>
      match Object_toString o with
      | Some s => Return s
      | None => Throw (TypeError_ "Cannot convert object to primitive value")
      end
  end.

(** [v < n] with a number on the right: the left side is coerced. *)
Definition js_lt (v : jsval) (n : jsnum) : completion bool :=
  (x <- ToNumber v ;; Return (num_lt x n))%comp.

Definition js_atob (s : string) : completion string :=
  match atob s with
  | Some d => Return d
  | None => Throw InvalidCharacterError_
  end.

Definition js_JSON_parse (s : string) : completion json :=
  match JSON_parse s with
  | Some v => Return v
  | None => Throw (SyntaxError_ "Unexpected token in JSON")
  end.

(** [JSON.stringify(v)] passed where a string is expected:
    [JSON.stringify(undefined)] is [undefined], which becomes the text
    "undefined". *)
Definition js_JSON_stringify (v : jsval) : string :=
  match v with
  | Some j => JSON_stringify j
  | None => "undefined"
  end.
End JS.

(** [s.split(c)] for a one-character separator. *)
Fixpoint split (c : ascii) (s : string) : list string :=
  match s with
  | EmptyString => [EmptyString]
  | String a rest =>
      if Ascii.eqb a c then EmptyString :: split c rest
      else match split c rest with
           | [] => [String a EmptyString]
           | hd :: tl => String a hd :: tl
           end
  end.

(** An array element used as a string argument: a missing element is
    [undefined], which is converted to the text "undefined". *)
Definition index_as_string (l : list string) (i : nat) : string :=
  match l !! i with
  | Some s => s
  | None => "undefined"
  end.

(** ** localStorage *)

Notation Storage := (gmap string string).

Definition getItem (k : string) (st : Storage) : option string := st !! k.
Definition setItem (k v : string) (st : Storage) : Storage := <[k := v]> st.
Definition removeItem (k : string) (st : Storage) : Storage := delete k st.

(** ** Requests, the network and promises *)

Record request : Type := mkRequest {
  req_url : string;
  req_method : string;
  req_headers : list (string * string);
  req_body : option string;
  (** the fetch was given an AbortController signal *)
  req_signal : bool;
}.

(** A settled HTTP exchange: a response (status and body text), or the
    rejection of [fetch] itself (no connection, ...). *)
Inductive fetch_result : Type :=
| Response (status : Z) (body : string)
| NetworkError (e : error).

(** What the network does with a request: settle [t] milliseconds after it
    was issued, or never; or deliver the head of a response (the status)
    after [t] milliseconds and never complete its body. *)
Inductive network : Type :=
| Settles (t : Z) (r : fetch_result)
| NeverSettles
| Stalls (t : Z) (status : Z).

(** The [Response] object [fetch] resolves to: [fetch] resolves as soon as
    the status is there, and the body is read by [response.json()].  The body
    of [mkStalled] never arrives. *)
Inductive response : Type :=
| mkResponse (status : Z) (body : string)
| mkStalled (status : Z).

Definition status (r : response) : Z :=
  match r with
  | mkResponse st _ | mkStalled st => st
  end.

(** [response.ok] *)
Definition ok (r : response) : bool := (200 <=? status r) && (status r <=? 299).

Inductive promise (A : Type) : Type :=
| Fulfilled (a : A)
| Rejected (e : error)
| Pending.
Arguments Fulfilled {A} a.
Arguments Rejected {A} e.
Arguments Pending {A}.

(** The state an operation of the API client can touch: the storage, the
    requests issued so far (oldest first) and the requests aborted by a
    client-side timer. *)
Record world : Type := mkWorld {
  storage : Storage;
  issued : list request;
  aborted : list request;
}.

Definition M (A : Type) : Type := world -> promise A * world.

Definition mret {A} (a : A) : M A := fun w => (Fulfilled a, w).
Definition mthrow {A} (e : error) : M A := fun w => (Rejected e, w).
(** An [await] on a promise that is never settled. *)
Definition never {A} : M A := fun w => (Pending, w).
Definition mbind {A B} (m : M A) (k : A -> M B) : M B :=
  fun w =>
    match m w with
    | (Fulfilled a, w') => k a w'
    | (Rejected e, w') => (Rejected e, w')
    | (Pending, w') => (Pending, w')
    end.
(** [try { m } catch (error) { h error }] *)
Definition try_catch {A} (m : M A) (h : error -> M A) : M A :=
  fun w =>
    match m w with
    | (Rejected e, w') => h e w'
    | r => r
    end.
Definition lift {A} (c : completion A) : M A :=
  match c with
  | Return a => mret a
  | Throw e => mthrow e
  end.
Definition read_storage : M Storage := fun w => (Fulfilled (storage w), w).
Definition update_storage (f : Storage -> Storage) : M unit :=
  fun w => (Fulfilled tt, mkWorld (f (storage w)) (issued w) (aborted w)).

Declare Scope M_scope.
Delimit Scope M_scope with M.
Notation "x <- c ;; k" := (mbind c (fun x => k))
  (at level 100, c at next level, right associativity) : M_scope.
Notation "c ;;; k" := (mbind c (fun _ => k))
  (at level 100, k at level 200, right associativity) : M_scope.

Section Client.
Context `{Platform}.
(** The network oracle. *)
Variable net : request -> network.

(** [await fetch(url, options)] without a signal. *)
Definition fetch (rq : request) : M response :=
  fun w =>
    let w' := mkWorld (storage w) (issued w ++ [rq]) (aborted w) in
    match net rq with
    | Settles _ (Response st b) => (Fulfilled (mkResponse st b), w')
    | Settles _ (NetworkError e) => (Rejected e, w')
    | NeverSettles => (Pending, w')
    | Stalls _ st => (Fulfilled (mkStalled st), w')
    end.

(** [await response.json()]: the body is read to its end, then parsed; no
    timer of the code covers this wait. *)
Definition response_json (r : response) : M json :=
  match r with
  | mkResponse _ body => lift (js_JSON_parse body)
  | mkStalled _ => never
  end.
End Client.

(** ** auth-service.js *)

Definition both_removed (st : Storage) : Storage :=
  removeItem "user" (removeItem "authToken" st).

Section AuthService.
Context `{Platform}.
(** [import.meta.env.PROD] *)
Variable PROD : bool.
Variable net : request -> network.

Definition AUTH_API_BASE_URL : string :=
  if PROD then "https://j1qbha86t1.execute-api.us-east-1.amazonaws.com/dev"
  else "/api".

Definition json_headers : list (string * string) :=
  [("Content-Type", "application/json")].

(** [throw new Error(error.error || fallback)] *)
Definition throw_server_error {A} (error : json) (fallback : string) : M A :=
  (e <- lift (get_prop error "error") ;;
   msg <- (if truthy e then lift (ToString e) else mret fallback) ;;
   mthrow (Error_ msg))%M.

(** The tail shared by [registerUser] and [loginUser]: store the token and
    the user when the response carries a token. *)
Definition store_credentials (data : json) : M unit :=
  (token <- lift (get_prop data "token") ;;
   if truthy token then
     t <- lift (ToString token) ;;
     update_storage (setItem "authToken" t) ;;;
     user <- lift (get_prop data "user") ;;
     update_storage (setItem "user" (js_JSON_stringify user))
   else mret tt)%M.

(** The request of [registerUser]. *)
Definition register_request (email password username : string) : request :=
  mkRequest (AUTH_API_BASE_URL +:+ "/auth/register") "POST" json_headers
    (Some (JSON_stringify (JObj [("email", JStr email);
                                 ("password", JStr password);
                                 ("username", JStr username)])))
    false.

Definition registerUser (email password username : string) : M json :=
  (response <- fetch net (register_request email password username) ;;
   (if negb (ok response) then
      error <- response_json response ;;
      throw_server_error error "Registration failed"
    else mret tt) ;;;
   data <- response_json response ;;
   store_credentials data ;;;
   mret data)%M.

(** The request of [loginUser]. *)
Definition login_request (email password : string) : request :=
  mkRequest (AUTH_API_BASE_URL +:+ "/auth/login") "POST" json_headers
    (Some (JSON_stringify (JObj [("email", JStr email);
                                 ("password", JStr password)])))
    false.

Definition loginUser (email password : string) : M json :=
  (response <- fetch net (login_request email password) ;;
   (if negb (ok response) then
      error <- response_json response ;;
      throw_server_error error "Login failed"
    else mret tt) ;;;
   data <- response_json response ;;
   store_credentials data ;;;
   mret data)%M.

(** The request of [getUserProfile]. *)
Definition profile_request (token : string) : request :=
  mkRequest (AUTH_API_BASE_URL +:+ "/auth/profile") "GET"
    [("Authorization", "Bearer " +:+ token)] None false.

Definition getUserProfile : M json :=
  (st <- read_storage ;;
   match getItem "authToken" st with
   | None => mthrow (Error_ "No authentication token")
   | Some token =>
       if negb (truthy_string token) then mthrow (Error_ "No authentication token")
       else
         response <- fetch net (profile_request token) ;;
         (if negb (ok response) then
            if status response =? 401 then
              update_storage (removeItem "authToken") ;;;
              update_storage (removeItem "user") ;;;
              mthrow (Error_ "Session expired")
            else mthrow (Error_ "Failed to fetch profile")
          else mret tt) ;;;
         data <- response_json response ;;
         mret data
   end)%M.

Definition logoutUser (st : Storage) : Storage :=
  removeItem "user" (removeItem "authToken" st).

Definition getAuthToken (st : Storage) : option string :=
  getItem "authToken" st.

(** [user ? JSON.parse(user) : null] *)
Definition getStoredUser (st : Storage) : completion json :=
  match getItem "user" st with
  | None => Return JNull
  | Some user => if truthy_string user then js_JSON_parse user else Return JNull
  end.

(** The body of the [try] block of [isAuthenticated]: [Return true] when
    the expiry test [payload.exp < currentTime] holds. *)
Definition token_expired (token : string) (now_ms : Z) : completion bool :=
  (decoded <- js_atob (index_as_string (split "." token) 1) ;;
   payload <- js_JSON_parse decoded ;;
   let currentTime := Fin (binary64 (now_ms # 1000)) in
   exp <- get_prop payload "exp" ;;
   js_lt exp currentTime)%comp.

(** [now_ms] is the value of [Date.now()]. *)
Definition isAuthenticated (now_ms : Z) (st : Storage) : bool * Storage :=
  match getItem "authToken" st with
  | None => (false, st)
  | Some token =>
      if negb (truthy_string token) then (false, st)
      else
        match token_expired token now_ms with
        | Return true =>
            (false, removeItem "user" (removeItem "authToken" st))
        | Return false => (true, st)
        | Throw _ =>
            (false, removeItem "user" (removeItem "authToken" st))
        end
  end.
End AuthService.

(** *** A storage that refuses writes

    [localStorage.setItem] throws a [QuotaExceededError] when the browser
    refuses the write (the quota of the origin is exceeded, or the storage is
    disabled).  The definitions above are those of a storage that accepts
    every write.  Here [accepts k v st] is the browser's decision on the write
    of [v] under [k] in the storage [st]; the two writes of [registerUser] and
    of [loginUser] are two statements, and nothing undoes the first when the
    second throws. *)
Definition QuotaExceededError_ : error :=
  mkError "QuotaExceededError" "The quota has been exceeded.".

Module Quota.
Section Quota.
Context `{Platform}.
Variable accepts : string -> string -> Storage -> bool.
Variable PROD : bool.
Variable net : request -> network.

(** [localStorage.setItem(k, v)] *)
Definition setItem (k v : string) : M unit :=
  fun w =>
    if accepts k v (storage w) then update_storage (setItem k v) w
    else (Rejected QuotaExceededError_, w).

Definition store_credentials (data : json) : M unit :=
  (token <- lift (get_prop data "token") ;;
   if truthy token then
     t <- lift (ToString token) ;;
     setItem "authToken" t ;;;
     user <- lift (get_prop data "user") ;;
     setItem "user" (js_JSON_stringify user)
   else mret tt)%M.

Definition registerUser (email password username : string) : M json :=
  (response <- fetch net (register_request PROD email password username) ;;
   (if negb (ok response) then
      error <- response_json response ;;
      throw_server_error error "Registration failed"
    else mret tt) ;;;
   data <- response_json response ;;
   store_credentials data ;;;
   mret data)%M.

Definition loginUser (email password : string) : M json :=
  (response <- fetch net (login_request PROD email password) ;;
   (if negb (ok response) then
      error <- response_json response ;;
      throw_server_error error "Login failed"
    else mret tt) ;;;
   data <- response_json response ;;
   store_credentials data ;;;
   mret data)%M.
End Quota.
End Quota.

(** ** AuthContext.jsx *)

(** The two [useState] cells of [AuthProvider]. *)
Record auth_state : Type := mkAuth { user : jsval; loading : bool }.

(** [useState(null)], [useState(true)] *)
Definition auth_initial : auth_state := mkAuth (Some JNull) true.

Definition setUser (u : jsval) (a : auth_state) : auth_state := mkAuth u (loading a).
Definition setLoading (b : bool) (a : auth_state) : auth_state := mkAuth (user a) b.
Definition with_storage (st : Storage) (w : world) : world :=
  mkWorld st (issued w) (aborted w).

(** [isAuthenticated: !!user] of the context value. *)
Definition ctx_isAuthenticated (a : auth_state) : bool := truthy (user a).

Section AuthContext.
Context `{Platform}.
Variable PROD : bool.
Variable net : request -> network.

Definition logout (a : auth_state) (w : world) : auth_state * world :=
  (setUser (Some JNull) a, with_storage (logoutUser (storage w)) w).

(** [login(userData)]: [setUser(userData.user)]. *)
Definition login (userData : json) (a : auth_state) : completion auth_state :=
  (u <- get_prop userData "user" ;; Return (setUser u a))%comp.

(** One run of [initializeAuth].  [Pending] is the run whose verification
    never settles: it is still suspended at an [await] of [getUserProfile]. *)
Definition initializeAuth (now_ms : Z) (a : auth_state) (w : world)
  : promise unit * auth_state * world :=
  let '(authed, st1) := isAuthenticated now_ms (storage w) in
  let w1 := with_storage st1 w in
  if authed then
    match getStoredUser st1 with
    | Throw _ => (Fulfilled tt, setLoading false a, w1)
    | Return storedUser =>
        if truthy (Some storedUser) then
          let a1 := setUser (Some storedUser) a in
          match getUserProfile PROD net w1 with
          | (Fulfilled profile, w2) =>
              (Fulfilled tt, setLoading false (setUser (Some profile) a1), w2)
          | (Rejected _, w2) =>
              let '(a2, w3) := logout a1 w2 in
              (Fulfilled tt, setLoading false a2, w3)
          | (Pending, w2) => (Pending, a1, w2)
          end
        else (Fulfilled tt, setLoading false a, w1)
    end
  else (Fulfilled tt, setLoading false a, w1).
End AuthContext.

(** ** news-api.js *)

Definition timeout_message : string := "Request timed out. Please try again.".

Section NewsApi.
Context `{Platform}.
Variable PROD : bool.
(** [import.meta.env.VITE_API_URL], [None] when it is not set. *)
Variable VITE_API_URL : option string.
Variable net : request -> network.
(** Which callback runs first when the response and the timer fall on the
    same millisecond. *)
Variable timer_wins_tie : bool.

Definition NEWS_API_BASE_URL : string :=
  if PROD then
    match VITE_API_URL with
    | Some u =>
        if truthy_string u then u
        else "https://j1qbha86t1.execute-api.us-east-1.amazonaws.com/dev"
    | None => "https://j1qbha86t1.execute-api.us-east-1.amazonaws.com/dev"
    end
  else "/api".

Definition getAuthHeaders (st : Storage) : list (string * string) :=
  ("Content-Type", "application/json") ::
  match getItem "authToken" st with
  | Some token =>
      if truthy_string token then [("Authorization", "Bearer " +:+ token)] else []
  | None => []
  end.

(** [{...options, signal: controller.signal}] *)
Definition with_signal (rq : request) : request :=
  mkRequest (req_url rq) (req_method rq) (req_headers rq) (req_body rq) true.

(** [fetch(url, {...options, signal})] raced against
    [setTimeout(() => controller.abort(), timeoutMs)]: when the timer fires
    first the request is aborted and the fetch rejects with an AbortError.
    The race is over when [fetch] resolves, that is when the status is
    there. *)
Definition fetch_with_signal (rq : request) (timeoutMs : Z) : M response :=
  fun w =>
    let rq' := with_signal rq in
    let w' := mkWorld (storage w) (issued w ++ [rq']) (aborted w) in
    let abort := (Rejected AbortError_,
                  mkWorld (storage w) (issued w ++ [rq']) (aborted w ++ [rq'])) in
    let in_time (t : Z) :=
      (t <? timeoutMs) || ((t =? timeoutMs) && negb timer_wins_tie) in
    match net rq' with
    | Settles t r =>
        if in_time t then
          match r with
          | Response st b => (Fulfilled (mkResponse st b), w')
          | NetworkError e => (Rejected e, w')
          end
        else abort
    | NeverSettles => abort
    | Stalls t st => if in_time t then (Fulfilled (mkStalled st), w') else abort
    end.

(** [fetchWithTimeout(url, options = {}, timeoutMs = 30000)]; both branches
    clear the timer, so nothing of the call is left behind once [fetch]
    settles: the timer no longer runs while the body is read. *)
Definition fetchWithTimeout (rq : request) (timeoutMs : option Z) : M response :=
  let timeoutMs := default 30000 timeoutMs in
  try_catch (fetch_with_signal rq timeoutMs)
    (fun error =>
       if String.eqb (err_name error) "AbortError"
       then mthrow (Error_ timeout_message)
       else mthrow error).

(** The common shape of the operations: fail on a non-success status with
    the operation's message, else parse the body. *)
Definition json_or_throw (response : response) (msg : string) : M json :=
  (if negb (ok response) then mthrow (Error_ msg)
   else data <- response_json response ;; mret data)%M.

(** The url and options [getNewsFeed] passes to [fetchWithTimeout]. *)
Definition news_feed_request (st : Storage) : request :=
  mkRequest (NEWS_API_BASE_URL +:+ "/news/feed") "GET" (getAuthHeaders st)
    None false.

Definition getNewsFeed : M json :=
  (st <- read_storage ;;
   response <- fetchWithTimeout (news_feed_request st) (Some 35000) ;;
   json_or_throw response "Failed to fetch news feed")%M.

(** The url and options of the preferences and monitoring-topic
    operations; none of them passes a [timeoutMs]. *)
Definition preferences_request (st : Storage) : request :=
  mkRequest (NEWS_API_BASE_URL +:+ "/news/preferences") "GET"
    (getAuthHeaders st) None false.

Definition update_preferences_request (st : Storage) (preferences : json) : request :=
  mkRequest (NEWS_API_BASE_URL +:+ "/news/preferences") "POST"
    (getAuthHeaders st) (Some (JSON_stringify preferences)) false.

Definition add_topic_request (st : Storage) (topic : string) : request :=
  mkRequest (NEWS_API_BASE_URL +:+ "/news/monitor") "POST"
    (getAuthHeaders st)
    (Some (JSON_stringify (JObj [("topic", JStr topic)]))) false.

Definition remove_topic_request (st : Storage) (topic : string) : request :=
  mkRequest (NEWS_API_BASE_URL +:+ "/news/monitor/" +:+ encodeURIComponent topic)
    "DELETE" (getAuthHeaders st) None false.

Definition getUserPreferences : M json :=
  (st <- read_storage ;;
   response <- fetchWithTimeout (preferences_request st) None ;;
   json_or_throw response "Failed to fetch user preferences")%M.

Definition updateUserPreferences (preferences : json) : M json :=
  (st <- read_storage ;;
   response <- fetchWithTimeout (update_preferences_request st preferences) None ;;
   json_or_throw response "Failed to update user preferences")%M.

Definition addMonitoringTopic (topic : string) : M json :=
  (st <- read_storage ;;
   response <- fetchWithTimeout (add_topic_request st topic) None ;;
   json_or_throw response "Failed to add monitoring topic")%M.

Definition removeMonitoringTopic (topic : string) : M json :=
  (st <- read_storage ;;
   response <- fetchWithTimeout (remove_topic_request st topic) None ;;
   json_or_throw response "Failed to remove monitoring topic")%M.

Definition getUrgentNews : M json :=
  (st <- read_storage ;;
   response <- fetchWithTimeout
     (mkRequest (NEWS_API_BASE_URL +:+ "/news/urgent") "GET" (getAuthHeaders st)
        None false) (Some 35000) ;;
   json_or_throw response "Failed to fetch urgent news")%M.
End NewsApi.

(** ** MainChatArea-api.js *)

Section ChatApi.
Context `{Platform}.
Variable PROD : bool.
Variable VITE_API_URL : option string.
Variable net : request -> network.

(** [API_BASE_URL] and [getAuthHeaders] of this file are written exactly
    as in news-api.js. *)
Notation BASE := (NEWS_API_BASE_URL PROD VITE_API_URL).

Definition getAIMemory : M json :=
  (st <- read_storage ;;
   response <- fetch net
     (mkRequest (BASE +:+ "/ai/memory") "GET" (getAuthHeaders st) None false) ;;
   json_or_throw response "Failed to fetch AI memory")%M.

(** [createNewChat(title = 'New Chat')] *)
Definition createNewChat (title : option string) : M json :=
  (let title := default "New Chat" title in
   st <- read_storage ;;
   response <- fetch net
     (mkRequest (BASE +:+ "/chats") "POST" (getAuthHeaders st)
        (Some (JSON_stringify (JObj [("title", JStr title)]))) false) ;;
   json_or_throw response "Failed to create new chat")%M.

Definition getAllChats : M json :=
  (st <- read_storage ;;
   response <- fetch net
     (mkRequest (BASE +:+ "/chats") "GET" (getAuthHeaders st) None false) ;;
   json_or_throw response "Failed to fetch chats")%M.

(** The requests of [getChatById] and [saveMessage]. *)
Definition chat_request (st : Storage) (id : string) : request :=
  mkRequest (BASE +:+ "/chats/" +:+ id) "GET" (getAuthHeaders st) None false.

Definition message_request (st : Storage) (content id : string) : request :=
  mkRequest (BASE +:+ "/chats/" +:+ id +:+ "/messages") "POST"
    (getAuthHeaders st)
    (Some (JSON_stringify (JObj [("content", JStr content)]))) false.

(** The chat id is spliced into the URL, hence converted to a string. *)
Definition getChatById (chatId : jsval) : M json :=
  (id <- lift (ToString chatId) ;;
   st <- read_storage ;;
   response <- fetch net (chat_request st id) ;;
   json_or_throw response "Failed to fetch chat")%M.

Definition saveMessage (chatId : jsval) (content : string) : M json :=
  (id <- lift (ToString chatId) ;;
   st <- read_storage ;;
   response <- fetch net (message_request st content id) ;;
   json_or_throw response "Failed to save message or get AI response")%M.


End ChatApi.

(** ** AIModal.jsx *)

(** The [useState] cells of the modal; [loading] is spread over three
    fields.  The handlers are first defined by themselves;
    [handleSendMessage_with_effect] then runs the send handler together with
    the effect that reloads the messages when [currentChatId] changes. *)
Record modal_state : Type := mkModal {
  activeView : string;
  chats : list json;
  currentChatId : jsval;
  messages : list json;
  aiMemory : jsval;
  loading_chats : bool;
  loading_messages : bool;
  loading_memory : bool;
  isNewChat : bool;
}.

Definition modal_initial : modal_state :=
  mkModal "chat" [] (Some JNull) [] (Some JNull) false false false true.

Definition setActiveView (v : string) (m : modal_state) : modal_state :=
  mkModal v (chats m) (currentChatId m) (messages m) (aiMemory m)
    (loading_chats m) (loading_messages m) (loading_memory m) (isNewChat m).
Definition setChats (c : list json) (m : modal_state) : modal_state :=
  mkModal (activeView m) c (currentChatId m) (messages m) (aiMemory m)
    (loading_chats m) (loading_messages m) (loading_memory m) (isNewChat m).
Definition setCurrentChatId (c : jsval) (m : modal_state) : modal_state :=
  mkModal (activeView m) (chats m) c (messages m) (aiMemory m)
    (loading_chats m) (loading_messages m) (loading_memory m) (isNewChat m).
Definition setMessages (ms : list json) (m : modal_state) : modal_state :=
  mkModal (activeView m) (chats m) (currentChatId m) ms (aiMemory m)
    (loading_chats m) (loading_messages m) (loading_memory m) (isNewChat m).
Definition setAiMemory (v : jsval) (m : modal_state) : modal_state :=
  mkModal (activeView m) (chats m) (currentChatId m) (messages m) v
    (loading_chats m) (loading_messages m) (loading_memory m) (isNewChat m).
Definition setLoadingMessages (b : bool) (m : modal_state) : modal_state :=
  mkModal (activeView m) (chats m) (currentChatId m) (messages m) (aiMemory m)
    (loading_chats m) b (loading_memory m) (isNewChat m).
Definition setLoadingMemory (b : bool) (m : modal_state) : modal_state :=
  mkModal (activeView m) (chats m) (currentChatId m) (messages m) (aiMemory m)
    (loading_chats m) (loading_messages m) b (isNewChat m).
Definition setIsNewChat (b : bool) (m : modal_state) : modal_state :=
  mkModal (activeView m) (chats m) (currentChatId m) (messages m) (aiMemory m)
    (loading_chats m) (loading_messages m) (loading_memory m) b.

(** [a === b].  Two arrays or objects that come from different responses are
    different references, hence never identical. *)
Definition strict_eq (a b : jsval) : bool :=
  match a, b with
  | None, None => true
  | Some JNull, Some JNull => true
  | Some (JBool x), Some (JBool y) => Bool.eqb x y
  | Some (JNum x), Some (JNum y) => Qeq_bool x y
  | Some (JStr x), Some (JStr y) => String.eqb x y
  | _, _ => false
  end.

(** [prev.filter(x => x.k !== other)]; [other] is evaluated inside the
    callback, so it is not evaluated on an empty list. *)
Fixpoint filter_prop_neq (k : string) (other : completion jsval) (prev : list json)
  : completion (list json) :=
  match prev with
  | [] => Return []
  | x :: rest =>
      (a <- get_prop x k ;;
       b <- other ;;
       rest' <- filter_prop_neq k other rest ;;
       Return (if strict_eq a b then rest' else x :: rest'))%comp
  end.

(** How a run of an event handler ends: it completes, it stays suspended at
    an [await] that never settles, or a state updater throws while the
    component renders. *)
Inductive outcome (A : Type) : Type :=
| Done (a : A)
| Suspended
| RenderError (e : error).
Arguments Done {A} a.
Arguments Suspended {A}.
Arguments RenderError {A} e.

Section AIModal.
Context `{Platform}.
Variable PROD : bool.
Variable VITE_API_URL : option string.
Variable net : request -> network.

(** [loadAIMemory]; the handler below starts it without awaiting it, and
    nothing follows the call, so its steps are run in sequence here. *)
Definition loadAIMemory (m : modal_state) (w : world) : modal_state * world :=
  let m1 := setLoadingMemory true m in
  match getAIMemory PROD VITE_API_URL net w with
  | (Fulfilled memory, w1) =>
      (setLoadingMemory false (setAiMemory (Some memory) m1), w1)
  | (Rejected _, w1) => (setLoadingMemory false m1, w1)
  | (Pending, w1) => (m1, w1)
  end.

(** Returns the id of the new chat, or [null]. *)
Definition handleCreateNewChat (m : modal_state) (w : world)
  : outcome jsval * modal_state * world :=
  let m1 := setLoadingMessages true m in
  match createNewChat PROD VITE_API_URL net None w with
  | (Fulfilled newChat, w1) =>
      match filter_prop_neq "chatId" (get_prop newChat "chatId") (chats m1) with
      | Throw e => (RenderError e, m1, w1)
      | Return others =>
          let m2 := setChats (newChat :: others) m1 in
          match get_prop newChat "chatId" with
          | Throw _ => (Done (Some JNull), setLoadingMessages false m2, w1)
          | Return chatId =>
              let m3 := setCurrentChatId chatId m2 in
              let m4 := setMessages [] m3 in
              let m5 := setIsNewChat true m4 in
              let m6 := setActiveView "chat" m5 in
              (Done chatId, setLoadingMessages false m6, w1)
          end
      end
  | (Rejected _, w1) => (Done (Some JNull), setLoadingMessages false m1, w1)
  | (Pending, w1) => (Suspended, m1, w1)
  end.

(** The optimistic message built by [handleSendMessage]: [now_ms] is
    [Date.now()] and [iso] is [new Date().toISOString()]. *)
Definition userMessage (text : string) (now_ms : Z) (iso : string) : json :=
  JObj [("id", JStr (pretty now_ms));
        ("content", JStr text);
        ("role", JStr "user");
        ("timestamp", JStr iso);
        ("message_type", JStr "text")].

(** The part of [handleSendMessage] after the chat id is known. *)
Definition send_in_chat (chatId : jsval) (text : string) (now_ms : Z) (iso : string)
    (m : modal_state) (w : world) : outcome unit * modal_state * world :=
  let msg := userMessage text now_ms iso in
  let m1 := setMessages (messages m ++ [msg]) m in
  let m2 := setIsNewChat false m1 in
  match saveMessage PROD VITE_API_URL net chatId text w with
  | (Fulfilled aiResponse, w1) =>
      if truthy (Some aiResponse) then
        let m3 := setMessages (messages m2 ++ [aiResponse]) m2 in
        let '(m4, w2) := loadAIMemory m3 w1 in
        (Done tt, m4, w2)
      else (Done tt, m2, w1)
  | (Rejected _, w1) =>
      match filter_prop_neq "id" (get_prop msg "id") (messages m2) with
      | Return ms => (Done tt, setMessages ms m2, w1)
      | Throw e => (RenderError e, m2, w1)
      end
  | (Pending, w1) => (Suspended, m2, w1)
  end.

Definition handleSendMessage (text : string) (now_ms : Z) (iso : string)
    (m : modal_state) (w : world) : outcome unit * modal_state * world :=
  let chatId := currentChatId m in
  if negb (truthy chatId) then
    match handleCreateNewChat m w with
    | (Done newChatId, m', w') =>
        if negb (truthy newChatId) then (Done tt, m', w')
        else send_in_chat newChatId text now_ms iso m' w'
    | (Suspended, m', w') => (Suspended, m', w')
    | (RenderError e, m', w') => (RenderError e, m', w')
    end
  else send_in_chat chatId text now_ms iso m w.

(** *** The handler and the effect it triggers

    [setCurrentChatId] in [handleCreateNewChat] changes a dependency of the
    effect on [currentChatId, isOpen], whose [loadChat] replaces the message
    list when its request is answered.  The updates made after an [await] are
    batched: the handler runs on to its next [await] (the optimistic message
    is appended and the save request leaves), then React renders and runs the
    effect.  The save request and the reload request are then both in flight,
    and the network decides which is answered first. *)

(** The prop [isOpen] of the modal, which does not change during the run. *)
Variable isOpen : bool.
(** The time React takes to render and to run the effect: the milliseconds
    between the start of [saveMessage] and the start of [loadChat]. *)
Variable effect_delay : Z.
(** Which continuation runs first when both calls settle in the same
    millisecond. *)
Variable reload_wins_tie : bool.

(** What [handleSendMessage] does once [saveMessage] has settled with [r]. *)
Definition send_settled (msg : json) (r : promise json) (m : modal_state) (w : world)
  : outcome unit * modal_state * world :=
  match r with
  | Fulfilled aiResponse =>
      if truthy (Some aiResponse) then
        let m1 := setMessages (messages m ++ [aiResponse]) m in
        let '(m2, w1) := loadAIMemory m1 w in
        (Done tt, m2, w1)
      else (Done tt, m, w)
  | Rejected _ =>
      match filter_prop_neq "id" (get_prop msg "id") (messages m) with
      | Return ms => (Done tt, setMessages ms m, w)
      | Throw e => (RenderError e, m, w)
      end
  | Pending => (Suspended, m, w)
  end.





End AIModal.


(** ** A reference platform

    Executable versions of the browser functions, on strings of one-byte
    characters, used to run the code above on concrete tokens and bodies.
    They follow the standards on that fragment: forgiving base64 decoding
    for [atob], the JSON grammar for the reader of [JSON.parse] (a [\u]
    escape above [00FF] has no one-byte character and is refused), and for
    the output of numbers the decimal expansion of the double cut after twenty
    fraction digits, without exponent form (JavaScript prints the shortest
    decimal that reads back as the same double: the two agree on the integers
    and the short binary fractions used below). *)
Module Ref.

Definition codes (s : string) : list N := map N_of_ascii (list_ascii_of_string s).
Definition of_codes (cs : list N) : string :=
  string_of_list_ascii (map ascii_of_N cs).

(** *** atob *)

Definition is_b64_space (c : N) : bool :=
  ((c =? 9) || (c =? 10) || (c =? 12) || (c =? 13) || (c =? 32))%N.

Definition sextet (c : N) : option N :=
  (if (65 <=? c) && (c <=? 90) then Some (c - 65)
   else if (97 <=? c) && (c <=? 122) then Some (c - 71)
   else if (48 <=? c) && (c <=? 57) then Some (c + 4)
   else if c =? 43 then Some 62
   else if c =? 47 then Some 63
   else None)%N.

Fixpoint sextets (cs : list N) : option (list N) :=
  match cs with
  | [] => Some []
  | c :: rest =>
      match sextet c, sextets rest with
      | Some v, Some vs => Some (v :: vs)
      | _, _ => None
      end
  end.

(** Drop one or two trailing [=] of a text whose length is a multiple of
    four. *)
Definition strip_padding (cs : list N) : list N :=
  if (length cs mod 4 =? 0)%nat then
    match rev cs with
    | 61%N :: 61%N :: r => rev r
    | 61%N :: r => rev r
    | _ => cs
    end
  else cs.

Fixpoint decode_groups (vs : list N) : list N :=
  match vs with
  | a :: b :: c :: d :: rest =>
      (a * 4 + b / 16)%N :: ((b mod 16) * 16 + c / 4)%N
        :: ((c mod 4) * 64 + d)%N :: decode_groups rest
  | [a; b; c] => [(a * 4 + b / 16)%N; ((b mod 16) * 16 + c / 4)%N]
  | [a; b] => [(a * 4 + b / 16)%N]
  | _ => []
  end.

Definition atob (s : string) : option string :=
  let cs := filter (fun c => negb (is_b64_space c)) (codes s) in
  let cs := strip_padding cs in
  if (length cs mod 4 =? 1)%nat then None
  else
    match sextets cs with
    | Some vs => Some (of_codes (decode_groups vs))
    | None => None
    end.

(** *** The reader of JSON.parse *)

Definition is_ws (c : N) : bool :=
  ((c =? 32) || (c =? 9) || (c =? 10) || (c =? 13))%N.

Fixpoint skip_ws (cs : list N) : list N :=
  match cs with
  | c :: rest => if is_ws c then skip_ws rest else cs
  | [] => []
  end.

Definition is_digit (c : N) : bool := ((48 <=? c) && (c <=? 57))%N.

Fixpoint take_digits (cs : list N) : list N * list N :=
  match cs with
  | c :: rest =>
      if is_digit c then
        let '(ds, r) := take_digits rest in (c :: ds, r)
      else ([], cs)
  | [] => ([], [])
  end.

Definition digits_value (ds : list N) : Z :=
  fold_left (fun acc d => acc * 10 + Z.of_N (d - 48)) ds 0.

(** [m * 10^k] as a rational. *)
Definition scale10 (m k : Z) : Q :=
  if 0 <=? k then inject_Z (m * 10 ^ k)
  else Qred (Qmake m (Z.to_pos (10 ^ (- k)))).

Definition parse_exponent (cs : list N) : option (Z * list N) :=
  match cs with
  | (101%N | 69%N) :: rest =>
      let '(neg, rest1) :=
        match rest with
        | 45%N :: r => (true, r)
        | 43%N :: r => (false, r)
        | _ => (false, rest)
        end in
      match take_digits rest1 with
      | ([], _) => None
      | (ds, r) => Some (if neg : bool then - digits_value ds else digits_value ds, r)
      end
  | _ => Some (0, cs)
  end.

Definition parse_number (cs : list N) : option (Q * list N) :=
  let '(neg, cs1) :=
    match cs with
    | 45%N :: r => (true, r)
    | _ => (false, cs)
    end in
  match take_digits cs1 with
  | ([], _) => None
  | (48%N :: _ :: _, _) => None
  | (ip, cs2) =>
      let frac :=
        match cs2 with
        | 46%N :: r =>
            match take_digits r with
            | ([], _) => None
            | (fp, r') => Some (fp, r')
            end
        | _ => Some ([], cs2)
        end in
      match frac with
      | None => None
      | Some (fp, cs3) =>
          match parse_exponent cs3 with
          | None => None
          | Some (e, cs4) =>
              let m := digits_value (ip ++ fp) in
              let m := if neg : bool then - m else m in
              Some (scale10 m (e - Z.of_nat (length fp)), cs4)
          end
      end
  end.

Definition hex_digit (c : N) : option N :=
  (if (48 <=? c) && (c <=? 57) then Some (c - 48)
   else if (65 <=? c) && (c <=? 70) then Some (c - 55)
   else if (97 <=? c) && (c <=? 102) then Some (c - 87)
   else None)%N.

(** The characters of a string literal after its opening quote. *)
Fixpoint parse_string_body (cs : list N) : option (list N * list N) :=
  match cs with
  | [] => None
  | 34%N :: rest => Some ([], rest)
  | 92%N :: e :: rest =>
      match e with
      | 117%N =>
          match rest with
          | h1 :: h2 :: h3 :: h4 :: rest' =>
              match hex_digit h1, hex_digit h2, hex_digit h3, hex_digit h4 with
              | Some 0%N, Some 0%N, Some a, Some b =>
                  match parse_string_body rest' with
                  | Some (str, r) => Some ((a * 16 + b)%N :: str, r)
                  | None => None
                  end
              | _, _, _, _ => None
              end
          | _ => None
          end
      | _ =>
          let ch :=
            match e with
            | 34%N => Some 34%N
            | 92%N => Some 92%N
            | 47%N => Some 47%N
            | 98%N => Some 8%N
            | 102%N => Some 12%N
            | 110%N => Some 10%N
            | 114%N => Some 13%N
            | 116%N => Some 9%N
            | _ => None
            end in
          match ch, parse_string_body rest with
          | Some c, Some (str, r) => Some (c :: str, r)
          | _, _ => None
          end
      end
  | c :: rest =>
      if (c <? 32)%N then None
      else match parse_string_body rest with
           | Some (str, r) => Some (c :: str, r)
           | None => None
           end
  end.

Definition expect (word : list N) (cs : list N) : option (list N) :=
  if decide (take (length word) cs = word) then Some (drop (length word) cs)
  else None.

(** One value, the elements of an array after its bracket, the members of
    an object after its brace.  The fuel bounds the depth of the calls. *)
Fixpoint parse_value (fuel : nat) (cs : list N) : option (json * list N) :=
  match fuel with
  | O => None
  | S fuel' =>
      match skip_ws cs with
      | 110%N :: _ =>
          match expect (codes "null") (skip_ws cs) with
          | Some r => Some (JNull, r)
          | None => None
          end
      | 116%N :: _ =>
          match expect (codes "true") (skip_ws cs) with
          | Some r => Some (JBool true, r)
          | None => None
          end
      | 102%N :: _ =>
          match expect (codes "false") (skip_ws cs) with
          | Some r => Some (JBool false, r)
          | None => None
          end
      | 34%N :: rest =>
          match parse_string_body rest with
          | Some (str, r) => Some (JStr (of_codes str), r)
          | None => None
          end
      | 91%N :: rest =>
          match skip_ws rest with
          | 93%N :: r => Some (JArr [], r)
          | _ =>
              match parse_elements fuel' rest with
              | Some (vs, r) => Some (JArr vs, r)
              | None => None
              end
          end
      | 123%N :: rest =>
          match skip_ws rest with
          | 125%N :: r => Some (JObj [], r)
          | _ =>
              match parse_members fuel' rest with
              | Some (fs, r) => Some (JObj fs, r)
              | None => None
              end
          end
      | other =>
          match parse_number other with
          | Some (q, r) => Some (JNum q, r)
          | None => None
          end
      end
  end
with parse_elements (fuel : nat) (cs : list N) : option (list json * list N) :=
  match fuel with
  | O => None
  | S fuel' =>
      match parse_value fuel' cs with
      | Some (v, r) =>
          match skip_ws r with
          | 44%N :: r' =>
              match parse_elements fuel' r' with
              | Some (vs, r'') => Some (v :: vs, r'')
              | None => None
              end
          | 93%N :: r' => Some ([v], r')
          | _ => None
          end
      | None => None
      end
  end
with parse_members (fuel : nat) (cs : list N)
  : option (list (string * json) * list N) :=
  match fuel with
  | O => None
  | S fuel' =>
      match skip_ws cs with
      | 34%N :: rest =>
          match parse_string_body rest with
          | Some (key, r) =>
              match skip_ws r with
              | 58%N :: r1 =>
                  match parse_value fuel' r1 with
                  | Some (v, r2) =>
                      match skip_ws r2 with
                      | 44%N :: r3 =>
                          match parse_members fuel' r3 with
                          | Some (fs, r4) => Some ((of_codes key, v) :: fs, r4)
                          | None => None
                          end
                      | 125%N :: r3 => Some ([(of_codes key, v)], r3)
                      | _ => None
                      end
                  | None => None
                  end
              | _ => None
              end
          | None => None
          end
      | _ => None
      end
  end.

Definition JSON_read (s : string) : option json :=
  let cs := codes s in
  match parse_value (2 * length cs + 2) cs with
  | Some (v, r) =>
      match skip_ws r with
      | [] => Some v
      | _ => None
      end
  | None => None
  end.

(** *** Number and string conversions *)

Fixpoint fraction_digits (fuel : nat) (num : Z) (den : Z) : list N :=
  match fuel with
  | O => []
  | S fuel' =>
      if num =? 0 then []
      else Z.to_N (48 + (num * 10) / den) :: fraction_digits fuel' ((num * 10) mod den) den
  end.

Definition Number_toString (q : Q) : string :=
  let n := Qnum q in
  let d := Z.pos (Qden q) in
  let ip := Z.abs n / d in
  let fr := Z.abs n mod d in
  (if (n <? 0) then "-" else "")
    +:+ pretty ip
    +:+ (if fr =? 0 then "" else "." +:+ of_codes (fraction_digits 20 fr d)).

Definition has_own_toString (fs : list (string * json)) : bool :=
  existsb (fun kv => String.eqb (fst kv) "toString") fs.

Definition join_comma (parts : list string) : string :=
  match parts with
  | [] => ""
  | p :: ps => fold_left (fun acc x => acc +:+ "," +:+ x) ps p
  end.

(** [toString] of an array (its elements joined by commas, [null] giving
    the empty text) or of an object; an own property named [toString]
    hides the callable one, and the conversion throws. *)
Fixpoint Object_toString (v : json) : option string :=
  match v with
  | JArr items =>
      let element (x : json) : option string :=
        match x with
        | JNull => Some ""
        | JBool b => Some (if b then "true" else "false")
        | JNum q => Some (Number_toString q)
        | JStr s => Some s
        | other => Object_toString other
        end in
      (fix go (l : list json) : option (list string) :=
         match l with
         | [] => Some []
         | x :: rest =>
             match element x, go rest with
             | Some s, Some ss => Some (s :: ss)
             | _, _ => None
             end
         end) items
      ≫= fun parts => Some (join_comma parts)
  | JObj fs => if has_own_toString fs then None else Some "[object Object]"
  | JNull => Some "null"
  | JBool b => Some (if b then "true" else "false")
  | JNum q => Some (Number_toString q)
  | JStr s => Some s
  end.

Definition is_js_space (c : N) : bool :=
  ((c =? 9) || (c =? 10) || (c =? 11) || (c =? 12) || (c =? 13) || (c =? 32)
   || (c =? 160))%N.

Fixpoint drop_space (cs : list N) : list N :=
  match cs with
  | c :: rest => if is_js_space c then drop_space rest else cs
  | [] => []
  end.

Definition trim (cs : list N) : list N := rev (drop_space (rev (drop_space cs))).

(** The value of a digit in a radix up to 16. *)
Definition radix_digit (radix : N) (c : N) : option N :=
  match hex_digit c with
  | Some v => if (v <? radix)%N then Some v else None
  | None => None
  end.

Fixpoint radix_value (radix : N) (acc : Z) (cs : list N) : option Z :=
  match cs with
  | [] => Some acc
  | c :: rest =>
      match radix_digit radix c with
      | Some v => radix_value radix (acc * Z.of_N radix + Z.of_N v) rest
      | None => None
      end
  end.

Definition radix_literal (radix : N) (ds : list N) : jsnum :=
  match ds with
  | [] => NaN
  | _ => match radix_value radix 0 ds with
         | Some z => Fin (binary64 (inject_Z z))
         | None => NaN
         end
  end.

Definition decimal_literal (cs : list N) : jsnum :=
  let '(neg, cs1) :=
    match cs with
    | 45%N :: r => (true, r)
    | 43%N :: r => (false, r)
    | _ => (false, cs)
    end in
  if decide (cs1 = codes "Infinity") then (if neg : bool then NegInf else PosInf)
  else
    let '(ip, cs2) := take_digits cs1 in
    let '(fp, cs3) :=
      match cs2 with
      | 46%N :: r => take_digits r
      | _ => ([], cs2)
      end in
    match (ip ++ fp)%list with
    | [] => NaN
    | ds =>
        match parse_exponent cs3 with
        | Some (e, []) =>
            let m := digits_value ds in
            Fin (binary64
                   (scale10 (if neg : bool then - m else m) (e - Z.of_nat (length fp))))
        | _ => NaN
        end
    end.

Definition StringToNumber (s : string) : jsnum :=
  match trim (codes s) with
  | [] => Fin 0
  | 48%N :: (120%N | 88%N) :: ds => radix_literal 16 ds
  | 48%N :: (111%N | 79%N) :: ds => radix_literal 8 ds
  | 48%N :: (98%N | 66%N) :: ds => radix_literal 2 ds
  | cs => decimal_literal cs
  end.

(** *** JSON.stringify *)

Definition hex_char (v : N) : N := (if v <? 10 then 48 + v else 87 + v)%N.

Definition escape_char (c : N) : list N :=
  match c with
  | 34%N => [92; 34]%N
  | 92%N => [92; 92]%N
  | 8%N => [92; 98]%N
  | 12%N => [92; 102]%N
  | 10%N => [92; 110]%N
  | 13%N => [92; 114]%N
  | 9%N => [92; 116]%N
  | _ => if (c <? 32)%N
         then [92; 117; 48; 48; hex_char (c / 16); hex_char (c mod 16)]%N
         else [c]
  end.

Definition quote (s : string) : string :=
  of_codes (34%N :: concat (map escape_char (codes s)) ++ [34%N]).

(** The fields are written in the order of the list. *)
Fixpoint JSON_stringify (v : json) : string :=
  match v with
  | JNull => "null"
  | JBool b => if b then "true" else "false"
  | JNum q => Number_toString q
  | JStr s => quote s
  | JArr items => "[" +:+ join_comma (map JSON_stringify items) +:+ "]"
  | JObj fs =>
      "{" +:+ join_comma (map (fun '(k, x) => quote k +:+ ":" +:+ JSON_stringify x) fs)
          +:+ "}"
  end.

(** *** encodeURIComponent *)

Definition is_unreserved (c : N) : bool :=
  ((48 <=? c) && (c <=? 57) || (65 <=? c) && (c <=? 90) || (97 <=? c) && (c <=? 122)
   || (c =? 45) || (c =? 95) || (c =? 46) || (c =? 33) || (c =? 126) || (c =? 42)
   || (c =? 39) || (c =? 40) || (c =? 41))%N.

Definition upper_hex_char (v : N) : N := (if v <? 10 then 48 + v else 55 + v)%N.

Definition encodeURIComponent (s : string) : string :=
  of_codes (concat (map (fun c =>
    if is_unreserved c then [c]
    else [37%N; upper_hex_char (c / 16); upper_hex_char (c mod 16)]) (codes s))).

End Ref.

#[export] Instance reference_platform : Platform := {|
  atob := Ref.atob;
  JSON_read := Ref.JSON_read;
  JSON_stringify := Ref.JSON_stringify;
  Number_toString := Ref.Number_toString;
  Object_toString := Ref.Object_toString;
  StringToNumber := Ref.StringToNumber;
  encodeURIComponent := Ref.encodeURIComponent;
|}.


(** ** App.jsx *)

(** What [AppContent] renders. *)
Inductive screen : Type :=
| LoadingSpinner
| LoginPage
| MainChatArea.

Definition AppContent (a : auth_state) : screen :=
  if loading a then LoadingSpinner
  else if negb (ctx_isAuthenticated a) then LoginPage
  else MainChatArea.

(** ** LoginPage.jsx *)

Record form_data : Type := mkFormData {
  form_email : string;
  form_password : string;
  form_username : string;
}.

(** The [useState] cells of [CanaryLogin]. *)
Record login_page : Type := mkLoginPage {
  isLoginView : bool;
  formData : form_data;
  page_loading : bool;
  page_error : string;
}.

Definition login_page_initial : login_page :=
  mkLoginPage true (mkFormData "" "" "") false "".

Definition setPageLoading (b : bool) (p : login_page) : login_page :=
  mkLoginPage (isLoginView p) (formData p) b (page_error p).
Definition setPageError (e : string) (p : login_page) : login_page :=
  mkLoginPage (isLoginView p) (formData p) (page_loading p) e.

(** [setFormData({ ...formData, [e.target.name]: e.target.value })]; the
    three inputs are named [email], [password] and [username], and a key of
    another name is never read. *)
Definition handleChange (name value : string) (p : login_page) : login_page :=
  let f := formData p in
  let f' :=
    if String.eqb name "email" then mkFormData value (form_password f) (form_username f)
    else if String.eqb name "password" then mkFormData (form_email f) value (form_username f)
    else if String.eqb name "username" then mkFormData (form_email f) (form_password f) value
    else f in
  mkLoginPage (isLoginView p) f' (page_loading p) (page_error p).

Definition toggleView (p : login_page) : login_page :=
  mkLoginPage (negb (isLoginView p)) (mkFormData "" "" "") (page_loading p) "".

(** [err.message || fallback] *)
Definition message_or (err : error) (fallback : string) : string :=
  if truthy_string (err_message err) then err_message err else fallback.

Section LoginPage.
Context `{Platform}.
Variable PROD : bool.
Variable net : request -> network.

(** One run of [handleSubmit]; [a] is the state of the [AuthProvider], which
    [login] updates. *)
Definition handleSubmit (p : login_page) (a : auth_state) (w : world)
  : outcome unit * login_page * auth_state * world :=
  let p1 := setPageLoading true p in
  let call :=
    if isLoginView p
    then loginUser PROD net (form_email (formData p)) (form_password (formData p))
    else registerUser PROD net (form_email (formData p)) (form_password (formData p))
           (form_username (formData p)) in
  match call w with
  | (Fulfilled res, w1) =>
      match login res a with
      | Return a1 => (Done tt, setPageLoading false p1, a1, w1)
      | Throw err =>
          (Done tt,
           setPageLoading false (setPageError (message_or err "Something went wrong.") p1),
           a, w1)
      end
  | (Rejected err, w1) =>
      (Done tt,
       setPageLoading false (setPageError (message_or err "Something went wrong.") p1),
       a, w1)
  | (Pending, w1) => (Suspended, p1, a, w1)
  end.
End LoginPage.

(** The result of a failed exchange, as a function of the body. *)
Definition failure_result `{Platform} (fallback : string) (b : string) (w : world)
  : promise json * world :=
  match JSON_parse b with
  | None => (Rejected (SyntaxError_ "Unexpected token in JSON"), w)
  | Some JNull => (Rejected (TypeError_ "Cannot read properties of null"), w)
  | Some error =>
      if truthy (field error "error") then
        match ToString (field error "error") with
        | Return msg => (Rejected (Error_ msg), w)
        | Throw e => (Rejected e, w)
        end
      else (Rejected (Error_ fallback), w)
  end.

(** ** NewsFeed.jsx *)

(** The [useState] cells of [NewsFeed]; the articles are whatever the
    server sent, the error is [null] ([None]) or a message. *)
Record feed_state : Type := mkFeed {
  articles : json;
  feed_loading : bool;
  feed_filter : string;
  refreshing : bool;
  feed_error : option string;
}.

Definition feed_initial : feed_state := mkFeed (JArr []) true "all" false None.

Definition setArticles (v : json) (f : feed_state) : feed_state :=
  mkFeed v (feed_loading f) (feed_filter f) (refreshing f) (feed_error f).
Definition setFeedLoading (b : bool) (f : feed_state) : feed_state :=
  mkFeed (articles f) b (feed_filter f) (refreshing f) (feed_error f).
Definition setFilter (v : string) (f : feed_state) : feed_state :=
  mkFeed (articles f) (feed_loading f) v (refreshing f) (feed_error f).
Definition setRefreshing (b : bool) (f : feed_state) : feed_state :=
  mkFeed (articles f) (feed_loading f) (feed_filter f) b (feed_error f).
Definition setFeedError (e : option string) (f : feed_state) : feed_state :=
  mkFeed (articles f) (feed_loading f) (feed_filter f) (refreshing f) e.

(** [a >= b] on numbers: false as soon as one side is NaN. *)
Definition num_ge (a b : jsnum) : bool :=
  match a, b with
  | NaN, _ | _, NaN => false
  | _, _ => negb (num_lt a b)
  end.

(** The receiver of [.map] and [.filter]: only an array has these methods
    among the values a response can hold. *)
Definition as_array (v : json) : completion (list json) :=
  match v with
  | JArr items => Return items
  | JNull => Throw (TypeError_ "Cannot read properties of null")
  | _ => Throw (TypeError_ "articles.map is not a function")
  end.

Fixpoint cmapM {A B} (f : A -> completion B) (l : list A) : completion (list B) :=
  match l with
  | [] => Return []
  | x :: rest =>
      (y <- f x ;; ys <- cmapM f rest ;; Return (y :: ys))%comp
  end.

(** [[...new Set(values)]]: the first occurrence of each value is kept; two
    values are the same when they are identical. *)
Fixpoint set_of (seen : list jsval) (values : list jsval) : list jsval :=
  match values with
  | [] => []
  | v :: rest =>
      if existsb (strict_eq v) seen then set_of seen rest
      else v :: set_of (v :: seen) rest
  end.

(** Insertion of an element by its key after the elements whose key is not
    greater, which makes the sort stable. *)
Fixpoint insert_by_key (k : string) (v : json) (l : list (string * json))
  : list (string * json) :=
  match l with
  | [] => [(k, v)]
  | (k', v') :: rest =>
      if String.ltb k k' then (k, v) :: (k', v') :: rest
      else (k', v') :: insert_by_key k v rest
  end.

Definition sort_by_key (l : list (string * json)) : list (string * json) :=
  fold_left (fun acc kv => insert_by_key (fst kv) (snd kv) acc) l [].

(** One article of a group of four: [hero] is [filtered[i]]. *)
Record group : Type := mkGroup { hero : jsval; compact : list json }.

(** [l.slice(a, b)] for [a <= b]. *)
Definition slice {A} (a b : nat) (l : list A) : list A := take (b - a) (drop a l).

(** The [for] loop that fills [groupedArticles], from index [i]; the fuel
    bounds the number of iterations. *)
Fixpoint group_loop (fuel i : nat) (filtered : list json) : list group :=
  match fuel with
  | O => []
  | S fuel' =>
      if (i <? length filtered)%nat then
        mkGroup (filtered !! i) (slice (i + 1) (i + 4) filtered)
          :: group_loop fuel' (i + 4) filtered
      else []
  end.

Definition groupedArticles (filtered : list json) : list group :=
  group_loop (length filtered) 0 filtered.

Record filter_option : Type := mkFilterOption {
  filter_label : string;
  filter_value : string;
}.

Definition baseFilters : list filter_option :=
  [mkFilterOption "All" "all";
   mkFilterOption "Urgent" "urgent";
   mkFilterOption "High Relevance" "relevant"].

Section NewsFeed.
Context `{Platform}.
Variables (PROD : bool) (VITE_API_URL : option string).
Variables (net : request -> network) (timer_wins_tie : bool).
(** [String.prototype.toLowerCase] and [String.prototype.trim]. *)
Variables (toLowerCase trim : string -> string).

Definition loadArticles (f : feed_state) (w : world)
  : outcome unit * feed_state * world :=
  let f1 := setFeedLoading true f in
  let f2 := setFeedError None f1 in
  match getNewsFeed PROD VITE_API_URL net timer_wins_tie w with
  | (Fulfilled data, w1) => (Done tt, setFeedLoading false (setArticles data f2), w1)
  | (Rejected _, w1) =>
      (Done tt, setFeedLoading false (setFeedError (Some "Failed to load news.") f2), w1)
  | (Pending, w1) => (Suspended, f2, w1)
  end.

Definition handleRefresh (f : feed_state) (w : world)
  : outcome unit * feed_state * world :=
  let f1 := setRefreshing true f in
  match getNewsFeed PROD VITE_API_URL net timer_wins_tie w with
  | (Fulfilled data, w1) => (Done tt, setRefreshing false (setArticles data f1), w1)
  | (Rejected _, w1) =>
      (Done tt, setRefreshing false (setFeedError (Some "Refresh failed.") f1), w1)
  | (Pending, w1) => (Suspended, f1, w1)
  end.

Definition handleFilterChange (value : string) (f : feed_state) (w : world)
  : outcome unit * feed_state * world :=
  let f1 := setFilter value f in
  if String.eqb value "urgent" then
    let f2 := setFeedLoading true f1 in
    match getUrgentNews PROD VITE_API_URL net timer_wins_tie w with
    | (Fulfilled data, w1) => (Done tt, setFeedLoading false (setArticles data f2), w1)
    | (Rejected _, w1) =>
        (Done tt,
         setFeedLoading false (setFeedError (Some "Failed to load urgent news.") f2), w1)
    | (Pending, w1) => (Suspended, f2, w1)
    end
  else loadArticles f1 w.

(** [v >= n] with a number on the right. *)
Definition js_ge (v : jsval) (n : jsnum) : completion bool :=
  (x <- ToNumber v ;; Return (num_ge x n))%comp.

(** [v.toLowerCase()]: only a string has the method. *)
Definition js_toLowerCase (v : jsval) : completion string :=
  match v with
  | Some (JStr s) => Return (toLowerCase s)
  | Some JNull => Throw (TypeError_ "Cannot read properties of null")
  | None => Throw (TypeError_ "Cannot read properties of undefined")
  | _ => Throw (TypeError_ "toLowerCase is not a function")
  end.

(** The callback of [articles.filter]. *)
Definition matches_filter (filter : string) (article : json) : completion bool :=
  if String.eqb filter "all" then Return true
  else if String.eqb filter "urgent" then
    (urgency <- get_prop article "urgency" ;;
     Return (strict_eq urgency (Some (JStr "high"))))%comp
  else if String.eqb filter "relevant" then
    (score <- get_prop article "relevanceScore" ;; js_ge score (Fin 80))%comp
  else
    (category <- get_prop article "category" ;;
     lowered <- js_toLowerCase (if truthy category then category else Some (JStr "")) ;;
     let articleCategory := trim lowered in
     let filterValue := toLowerCase filter in
     Return (String.eqb articleCategory filterValue))%comp.

Fixpoint filter_articles (filter : string) (items : list json)
  : completion (list json) :=
  match items with
  | [] => Return []
  | article :: rest =>
      (keep <- matches_filter filter article ;;
       rest' <- filter_articles filter rest ;;
       Return (if keep : bool then article :: rest' else rest'))%comp
  end.

Definition filtered (f : feed_state) : completion (list json) :=
  (items <- as_array (articles f) ;; filter_articles (feed_filter f) items)%comp.

(** [values.sort()] with the default comparison: the [undefined] elements go
    last, the others are ordered by their string form; nothing is compared,
    hence converted, when there are less than two of them. *)
Definition js_sort (values : list jsval) : completion (list jsval) :=
  let defined : list json := omap id values in
  let undefineds := List.filter (fun v : jsval => negb (bool_decide (is_Some v))) values in
  match defined with
  | [] | [_] => Return (map Some defined ++ undefineds)%list
  | _ =>
      (keyed <- cmapM (fun v => k <- ToString (Some v) ;; Return (k, v)) defined ;;
       Return (map (fun kv => Some (snd kv)) (sort_by_key keyed) ++ undefineds)%list)%comp
  end.

(** The callback that turns a category into a filter. *)
Definition category_filter (category : jsval) : completion filter_option :=
  (value <- js_toLowerCase category ;;
   match category with
   | Some (JStr label) => Return (mkFilterOption label value)
   | _ => Throw (TypeError_ "toLowerCase is not a function")
   end)%comp.

Definition getAvailableFilters (f : feed_state) : completion (list filter_option) :=
  (items <- as_array (articles f) ;;
   all <- cmapM (fun article => get_prop article "category") items ;;
   categories <- js_sort (set_of [] all) ;;
   categoryFilters <- cmapM category_filter categories ;;
   Return (baseFilters ++ categoryFilters)%list)%comp.
End NewsFeed.

(** Reference versions of [toLowerCase] and [trim] on strings of one-byte
    characters (the letters A-Z and the capital letters of Latin-1). *)
Definition lower_code (c : N) : N :=
  (if (65 <=? c) && (c <=? 90) || (192 <=? c) && (c <=? 222) && negb (c =? 215)
   then c + 32 else c)%N.

Definition toLowerCase_ref (s : string) : string :=
  Ref.of_codes (map lower_code (Ref.codes s)).

Definition trim_ref (s : string) : string := Ref.of_codes (Ref.trim (Ref.codes s)).

(** Articles for the examples. *)
Definition article (id category urgency : string) (score : Z) : json :=
  JObj [("id", JStr id); ("category", JStr category); ("urgency", JStr urgency);
        ("relevanceScore", JNum (inject_Z score))].

Definition sample_articles : list json :=
  [article "a1" "Tech" "high" 90; article "a2" "Business" "low" 75;
   article "a3" "Tech" "low" 80; article "a4" "Science" "high" 40;
   article "a5" "Business" "medium" 85].

(** The elements of a group, in the order of the list it was cut from. *)
Definition group_items (g : group) : list json :=
  match hero g with
  | Some h => h :: compact g
  | None => compact g
  end.

(** The relevance test on an article whose score is a number or absent. *)
Definition score_at_least_80 (x : json) : bool :=
  match field x "relevanceScore" with
  | Some (JNum q) => Qle_bool 80 q
  | _ => false
  end.

(** The order of the default sort on strings. *)
Definition string_le (a b : string) : Prop := String.leb a b = true.

(** A value that is not a string. *)
Definition non_string (v : jsval) : Prop := forall s, v <> Some (JStr s).

(** The request a submission of the form issues. *)
Definition submit_request (PROD : bool) `{Platform} (p : login_page) : request :=
  if isLoginView p
  then login_request PROD (form_email (formData p)) (form_password (formData p))
  else register_request PROD (form_email (formData p)) (form_password (formData p))
         (form_username (formData p)).

(** A computation that does not wait for the network. *)
Definition settles {A} (m : M A) : Prop := forall w, fst (m w) <> Pending.

(** A computation that issues no request, and one that issues at most one
    request and aborts no other request than that one. *)
Definition quiet {A} (m : M A) : Prop :=
  forall w, issued (snd (m w)) = issued w /\ aborted (snd (m w)) = aborted w.

Definition single_request {A} (m : M A) : Prop :=
  forall w,
    (issued (snd (m w)) = issued w /\ aborted (snd (m w)) = aborted w)
    \/ exists rq,
         issued (snd (m w)) = (issued w ++ [rq])%list
         /\ (aborted (snd (m w)) = aborted w
             \/ (aborted (snd (m w)) = (aborted w ++ [rq])%list
                 /\ req_signal rq = true)).

(** The url and options [getUrgentNews] passes to [fetchWithTimeout]. *)
Definition urgent_news_request (PROD : bool) (VITE_API_URL : option string)
    (st : Storage) : request :=
  mkRequest (NEWS_API_BASE_URL PROD VITE_API_URL +:+ "/news/urgent") "GET"
    (getAuthHeaders st) None false.

(** ** The operations on the stored credential as a transition system *)

(** The operations of the repository that write or remove the storage keys
    [authToken] and [user]. *)
Inductive storage_op : Type :=
| OpRegister (email password username : string)
| OpLogin (email password : string)
| OpGetUserProfile
| OpLogout
| OpIsAuthenticated (now_ms : Z)
| OpInitializeAuth (now_ms : Z) (a : auth_state).

Definition run_op `{Platform} (PROD : bool) (net : request -> network)
    (op : storage_op) (w : world) : world :=
  match op with
  | OpRegister e p u => snd (registerUser PROD net e p u w)
  | OpLogin e p => snd (loginUser PROD net e p w)
  | OpGetUserProfile => snd (getUserProfile PROD net w)
  | OpLogout => with_storage (logoutUser (storage w)) w
  | OpIsAuthenticated now_ms => with_storage (snd (isAuthenticated now_ms (storage w))) w
  | OpInitializeAuth now_ms a => snd (initializeAuth PROD net now_ms a w)
  end.

(** The worlds reached from [w0] by running operations, each against an
    arbitrary network and build. *)
Inductive reachable_from `{Platform} (w0 : world) : world -> Prop :=
| reach_refl : reachable_from w0 w0
| reach_step PROD net op w :
    reachable_from w0 w -> reachable_from w0 (run_op PROD net op w).

(** Both keys are present, or both are absent. *)
Definition paired (st : Storage) : Prop :=
  is_Some (st !! "authToken") <-> is_Some (st !! "user").

(** The same transition system over a storage that may refuse writes: the
    two operations that write are the ones of [Quota]; the others only read
    and remove, which the storage never refuses. *)
Definition run_op_quota `{Platform} (accepts : string -> string -> Storage -> bool)
    (PROD : bool) (net : request -> network) (op : storage_op) (w : world) : world :=
  match op with
  | OpRegister e p u => snd (Quota.registerUser accepts PROD net e p u w)
  | OpLogin e p => snd (Quota.loginUser accepts PROD net e p w)
  | other => run_op PROD net other w
  end.

Inductive reachable_quota `{Platform} (accepts : string -> string -> Storage -> bool)
    (w0 : world) : world -> Prop :=
| reach_quota_refl : reachable_quota accepts w0 w0
| reach_quota_step PROD net op w :
    reachable_quota accepts w0 w ->
    reachable_quota accepts w0 (run_op_quota accepts PROD net op w).

(** A browser with room for the token and none left for the user. *)
Definition accepts_token_only : string -> string -> Storage -> bool :=
  fun k _ _ => String.eqb k "authToken".

(** ** Sample data *)

Definition empty_world : world := mkWorld ∅ [] [].

(** A token whose payload segment is the base64 text of an object with
    [exp] 1700000000, and one whose payload has a [sub] field only. *)
Definition token_exp_1700000000 : string :=
  "eyJhbGciOiJIUzI1NiJ9.eyJleHAiOjE3MDAwMDAwMDB9.c2ln".
Definition token_without_exp : string :=
  "eyJhbGciOiJIUzI1NiJ9.eyJzdWIiOiJ1MSJ9.c2ln".
(** A token whose [exp] is 1700000000.000999927520751953125, the double that
    [1700000000001 / 1000] is rounded to. *)
Definition token_exp_rounded_clock : string :=
  "eyJhbGciOiJIUzI1NiJ9.eyJleHAiOjE3MDAwMDAwMDAuMDAwOTk5OTI3NTIwNzUxOTUzMTI1fQ==.c2ln".
(** A token whose payload segment is the base64 text of [null]. *)
Definition token_null_payload : string :=
  "eyJhbGciOiJIUzI1NiJ9.bnVsbA==.c2ln".
(** A token whose payload segment is not base64 text. *)
Definition token_not_base64 : string := "header.%%%.c2ln".

Definition sample_user : json :=
  JObj [("id", JStr "u1"); ("email", JStr "a@b.com")].

Definition stored (token : string) : Storage :=
  <["user" := Ref.JSON_stringify sample_user]> (<["authToken" := token]> ∅).

(** A network that answers every request after [t] ms with the given status
    and body. *)
Definition always (t status : Z) (body : string) : request -> network :=
  fun _ => Settles t (Response status body).
Definition silent : request -> network := fun _ => NeverSettles.
(** A network that delivers the head of every response after [t] ms, with the
    given status, and never its body. *)
Definition stalling (t status : Z) : request -> network :=
  fun _ => Stalls t status.


(** The ways a profile verification fails: the fetch itself is rejected, the
    status is not a success status (401 included), or the body of a success
    response is not JSON. *)
Definition verification_fails `{Platform} (r : fetch_result) : Prop :=
  match r with
  | NetworkError _ => True
  | Response st b => ~ (200 <= st <= 299) \/ JSON_parse b = None
  end.

(** The body of a registration response carrying a token and a user. *)
Definition register_body (token : string) : string :=
  Ref.JSON_stringify (JObj [("token", JStr token); ("user", sample_user)]).

(** A server for the chat panel: it answers the creation of a chat with a
    chat whose id is [c1], answers the message sent to that chat with [save],
    and does not answer anything else. *)
Definition chat_body : string :=
  Ref.JSON_stringify (JObj [("chatId", JStr "c1"); ("title", JStr "New Chat")]).

Definition chat_net (save : fetch_result) : request -> network :=
  fun rq =>
    if String.eqb (req_url rq) "/api/chats" then Settles 50 (Response 201 chat_body)
    else if String.eqb (req_url rq) "/api/chats/c1/messages" then Settles 900 save
    else NeverSettles.


Definition reply_body : string :=
  Ref.JSON_stringify (JObj [("id", JStr "m2"); ("content", JStr "Hi");
                            ("role", JStr "assistant")]).

(** An operation that never aborts a request: it leaves the list of the
    requests aborted by a client-side timer as it found it. *)
Definition keeps_aborted {A} (m : M A) : Prop :=
  forall w, aborted (snd (m w)) = aborted w.

(** The request is not answered within [limit] milliseconds. *)
Definition late (net : request -> network) (rq : request) (limit : Z) : Prop :=
  net rq = NeverSettles
  \/ (exists t r, net rq = Settles t r /\ limit < t)
  \/ (exists t st, net rq = Stalls t st /\ limit < t).

(** The head of a success response arrives before the timer of [limit]
    milliseconds fires, and its body never arrives. *)
Definition body_stalls (net : request -> network) (timer_wins_tie : bool)
    (rq : request) (limit : Z) : Prop :=
  exists t st, net rq = Stalls t st
               /\ 200 <= st <= 299
               /\ (t < limit \/ (t = limit /\ timer_wins_tie = false)).

(** The result of a call started in [w] whose request [rq] was cut by the
    timer: the call fails with the timeout error, and what it leaves in the
    world is the request, issued and aborted. *)
Definition timed_out {A} (r : promise A * world) (rq : request) (w : world) : Prop :=
  r = (Rejected (Error_ timeout_message),
       mkWorld (storage w) (issued w ++ [rq]) (aborted w ++ [rq])).

(** What one operation may do to the stored credential: nothing or write
    both keys; nothing or remove both keys. *)
Definition kept_or_written (st st' : Storage) : Prop :=
  st' = st \/ exists t u, st' = setItem "user" u (setItem "authToken" t st).

Definition kept_or_removed (st st' : Storage) : Prop :=
  st' = st \/ st' = removeItem "user" (removeItem "authToken" st).

Definition keeps_storage {A} (m : M A) : Prop :=
  forall w, storage (snd (m w)) = storage w.

Definition changes_by {A} (R : Storage -> Storage -> Prop) (m : M A) : Prop :=
  forall w, R (storage w) (storage (snd (m w))).

(** * Properties *)

(** ** Doubles *)

Section Doubles.
Local Open Scope Q_scope.

Lemma pow2_pos (k : Z) : 0 < pow2 k.
Proof. apply Qpower_0_lt. reflexivity. Qed.

Lemma pow2_add (a b : Z) : pow2 (a + b) == pow2 a * pow2 b.
Proof. apply Qpower_plus. discriminate. Qed.

Lemma pow2_le (a b : Z) : (a <= b)%Z -> pow2 a <= pow2 b.
Proof. intros Hab. apply Qpower_le_compat_l; [assumption | discriminate]. Qed.

Lemma pow2_lt (a b : Z) : (a < b)%Z -> pow2 a < pow2 b.
Proof. intros Hab. apply Qpower_lt_compat_l; [assumption | reflexivity]. Qed.

Lemma pow2_lt_inv (a b : Z) : pow2 a < pow2 b -> (a < b)%Z.
Proof. intros Hab. apply (Qpower_lt_compat_l_inv 2); [assumption | reflexivity]. Qed.

Lemma pow2_inject (k : Z) : (0 <= k)%Z -> pow2 k == inject_Z (2 ^ k).
Proof. intros Hk. symmetry. apply (Zpower_Qpower 2 k Hk). Qed.

Lemma pow2_cancel (k : Z) : pow2 (- k) * pow2 k == 1.
Proof. rewrite <- pow2_add. replace (- k + k)%Z with 0%Z by lia. reflexivity. Qed.

Lemma pow2_succ (k : Z) : pow2 (k + 1) == 2 * pow2 k.
Proof. rewrite pow2_add. change (pow2 1) with 2. ring. Qed.

(** [q] as its numerator over its denominator. *)
Lemma Q_num_den (q : Q) : q * inject_Z (Z.pos (Qden q)) == inject_Z (Qnum q).
Proof.
  destruct q as [n d]. unfold Qeq, Qmult, inject_Z. cbn. lia.
Qed.

Lemma inject_Z_pow2_le (x k : Z) : (0 <= k)%Z -> (2 ^ k <= x)%Z -> pow2 k <= inject_Z x.
Proof. intros Hk Hx. rewrite (pow2_inject k Hk). now rewrite <- Zle_Qle. Qed.

Lemma inject_Z_pow2_lt (x k : Z) : (0 <= k)%Z -> (x < 2 ^ k)%Z -> inject_Z x < pow2 k.
Proof. intros Hk Hx. rewrite (pow2_inject k Hk). now rewrite <- Zlt_Qlt. Qed.

Lemma ilog2_spec (q : Q) : 0 < q -> pow2 (ilog2 q) <= q /\ q < pow2 (ilog2 q + 1).
Proof.
  intros Hq. unfold ilog2.
  set (n := Qnum q). set (d := Z.pos (Qden q)).
  assert (Hn : (0 < n)%Z) by (destruct q as [qn qd]; unfold Qlt in Hq; cbn in *; lia).
  assert (Hd : (0 < d)%Z) by (unfold d; lia).
  pose proof (Z.log2_spec n Hn) as [Hnlo Hnhi].
  pose proof (Z.log2_spec d Hd) as [Hdlo Hdhi].
  pose proof (Z.log2_nonneg n) as Ha. pose proof (Z.log2_nonneg d) as Hb.
  set (a := Z.log2 n) in *. set (b := Z.log2 d) in *.
  pose proof (Q_num_den q) as Hqd. fold n d in Hqd.
  assert (Hdq : 0 < inject_Z d) by (change 0 with (inject_Z 0); now rewrite <- Zlt_Qlt).
  assert (Hlo : pow2 b <= inject_Z d) by now apply inject_Z_pow2_le.
  assert (Hhi : inject_Z d < pow2 (b + 1))
    by (apply inject_Z_pow2_lt; [lia | now rewrite Z.add_1_r]).
  assert (Hnlo' : pow2 a <= inject_Z n) by now apply inject_Z_pow2_le.
  assert (Hnhi' : inject_Z n < pow2 (a + 1))
    by (apply inject_Z_pow2_lt; [lia | now rewrite Z.add_1_r]).
  destruct (Qle_bool (pow2 (a - b)) q) eqn:Hcmp.
  - apply Qle_bool_iff in Hcmp. split; [assumption |].
    apply (Qmult_lt_r _ _ (pow2 b)); [apply pow2_pos |].
    rewrite <- pow2_add. replace (a - b + 1 + b)%Z with (a + 1)%Z by lia.
    apply Qle_lt_trans with (q * inject_Z d).
    + apply Qmult_le_l; assumption.
    + now rewrite Hqd.
  - assert (Hlt : q < pow2 (a - b)).
    { apply Qnot_le_lt. intros Hle. apply Qle_bool_iff in Hle. congruence. }
    split.
    + apply Qlt_le_weak.
      apply (Qmult_lt_r _ _ (pow2 (b + 1))); [apply pow2_pos |].
      rewrite <- pow2_add. replace (a - b - 1 + (b + 1))%Z with a by lia.
      apply Qle_lt_trans with (q * inject_Z d).
      * now rewrite Hqd.
      * apply Qmult_lt_l; assumption.
    + now replace (a - b - 1 + 1)%Z with (a - b)%Z by lia.
Qed.

Lemma ilog2_unique (q : Q) (k : Z) : pow2 k <= q -> q < pow2 (k + 1) -> ilog2 q = k.
Proof.
  intros Hlo Hhi.
  assert (Hq : 0 < q) by (apply Qlt_le_trans with (pow2 k); [apply pow2_pos | assumption]).
  destruct (ilog2_spec q Hq) as [Hlo' Hhi'].
  assert (H1 : (ilog2 q < k + 1)%Z)
    by (apply pow2_lt_inv; apply Qle_lt_trans with q; assumption).
  assert (H2 : (k < ilog2 q + 1)%Z)
    by (apply pow2_lt_inv; apply Qle_lt_trans with q; assumption).
  lia.
Qed.

Lemma ilog2_le (q1 q2 : Q) : 0 < q1 -> q1 <= q2 -> (ilog2 q1 <= ilog2 q2)%Z.
Proof.
  intros H1 Hle.
  assert (H2 : 0 < q2) by (apply Qlt_le_trans with q1; assumption).
  destruct (ilog2_spec q1 H1) as [Hlo1 _]. destruct (ilog2_spec q2 H2) as [_ Hhi2].
  assert (Hlt : (ilog2 q1 < ilog2 q2 + 1)%Z).
  { apply pow2_lt_inv. apply Qle_lt_trans with q1; [assumption |].
    apply Qle_lt_trans with q2; assumption. }
  lia.
Qed.

Lemma round_half_even_bounds (q : Q) :
  (Qfloor q <= round_half_even q <= Qfloor q + 1)%Z.
Proof.
  unfold round_half_even.
  destruct (Qcompare (q - inject_Z (Qfloor q)) (1 # 2)); [destruct (Z.even _) | |]; lia.
Qed.

Lemma round_half_even_Z (z : Z) : round_half_even (inject_Z z) = z.
Proof.
  unfold round_half_even. rewrite Qfloor_Z.
  assert (Hlt : inject_Z z - inject_Z z < 1 # 2) by (ring_simplify; reflexivity).
  now rewrite (proj1 (Qlt_alt _ _) Hlt).
Qed.

Lemma round_half_even_le (x y : Q) : x <= y -> (round_half_even x <= round_half_even y)%Z.
Proof.
  intros Hxy.
  pose proof (Qfloor_resp_le x y Hxy) as Hf.
  pose proof (round_half_even_bounds x) as Hx.
  pose proof (round_half_even_bounds y) as Hy.
  destruct (Z.eq_dec (Qfloor x) (Qfloor y)) as [Heq | Hne]; [| lia].
  unfold round_half_even in *. rewrite <- Heq in *.
  destruct (Qcompare (x - inject_Z (Qfloor x)) (1 # 2)) eqn:Hcx;
    destruct (Qcompare (y - inject_Z (Qfloor x)) (1 # 2)) eqn:Hcy;
    try lia; exfalso.
  - apply Qeq_alt in Hcx. apply Qlt_alt in Hcy. lra.
  - apply Qgt_alt in Hcx. apply Qeq_alt in Hcy. lra.
  - apply Qgt_alt in Hcx. apply Qlt_alt in Hcy. lra.
Qed.

Lemma round_half_even_compat (x y : Q) : x == y -> round_half_even x = round_half_even y.
Proof.
  intros Heq. apply Z.le_antisymm; apply round_half_even_le; rewrite Heq; apply Qle_refl.
Qed.

Lemma round_half_even_ge (z : Z) (q : Q) : inject_Z z <= q -> (z <= round_half_even q)%Z.
Proof. intros H. rewrite <- (round_half_even_Z z). now apply round_half_even_le. Qed.

Lemma round_half_even_le_Z (z : Z) (q : Q) : q <= inject_Z z -> (round_half_even q <= z)%Z.
Proof. intros H. rewrite <- (round_half_even_Z z). now apply round_half_even_le. Qed.

(** The scaled value of a positive number lies between 2^52 and 2^53. *)
Lemma scaled_bounds (q : Q) :
  0 < q ->
  pow2 52 <= q * pow2 (- (ilog2 q - 52)) /\ q * pow2 (- (ilog2 q - 52)) < pow2 53.
Proof.
  intros Hq. destruct (ilog2_spec q Hq) as [Hlo Hhi].
  set (k := ilog2 q) in *.
  split.
  - assert (Hrw : (pow2 52) == (pow2 k * pow2 (- (k - 52))))
      by (rewrite <- pow2_add; now replace (k + - (k - 52))%Z with 52%Z by lia).
    rewrite Hrw; clear Hrw.
    apply Qmult_le_compat_r; [assumption | apply Qlt_le_weak, pow2_pos].
  - assert (Hrw : (pow2 53) == (pow2 (k + 1) * pow2 (- (k - 52))))
      by (rewrite <- pow2_add; now replace (k + 1 + - (k - 52))%Z with 53%Z by lia).
    rewrite Hrw; clear Hrw.
    apply Qmult_lt_r; [apply pow2_pos | assumption].
Qed.

Lemma mantissa_bounds (q : Q) :
  0 < q ->
  (2 ^ 52 <= round_half_even (q * pow2 (- (ilog2 q - 52))) <= 2 ^ 53)%Z.
Proof.
  intros Hq. destruct (scaled_bounds q Hq) as [Hlo Hhi]. split.
  - apply round_half_even_ge. now rewrite <- (pow2_inject 52) by lia.
  - apply round_half_even_le_Z. rewrite <- (pow2_inject 53) by lia.
    now apply Qlt_le_weak.
Qed.

Lemma binary64_pos_eq (q : Q) :
  binary64_pos q
  == inject_Z (round_half_even (q * pow2 (- (ilog2 q - 52)))) * pow2 (ilog2 q - 52).
Proof. unfold binary64_pos. apply Qred_correct. Qed.

Lemma binary64_pos_bounds (q : Q) :
  0 < q -> pow2 (ilog2 q) <= binary64_pos q /\ binary64_pos q <= pow2 (ilog2 q + 1).
Proof.
  intros Hq. rewrite binary64_pos_eq.
  destruct (mantissa_bounds q Hq) as [Hlo Hhi].
  set (m := round_half_even _) in *. set (k := ilog2 q).
  split.
  - assert (Hrw : (pow2 k) == (pow2 52 * pow2 (k - 52)))
      by (rewrite <- pow2_add; now replace (52 + (k - 52))%Z with k by lia).
    rewrite Hrw; clear Hrw.
    apply Qmult_le_compat_r; [| apply Qlt_le_weak, pow2_pos].
    rewrite (pow2_inject 52) by lia. now rewrite <- Zle_Qle.
  - assert (Hrw : (pow2 (k + 1)) == (pow2 53 * pow2 (k - 52)))
      by (rewrite <- pow2_add; now replace (53 + (k - 52))%Z with (k + 1)%Z by lia).
    rewrite Hrw; clear Hrw.
    apply Qmult_le_compat_r; [| apply Qlt_le_weak, pow2_pos].
    rewrite (pow2_inject 53) by lia. now rewrite <- Zle_Qle.
Qed.

Lemma binary64_pos_positive (q : Q) : 0 < q -> 0 < binary64_pos q.
Proof.
  intros Hq. apply Qlt_le_trans with (pow2 (ilog2 q)); [apply pow2_pos |].
  now apply binary64_pos_bounds.
Qed.

Lemma binary64_pos_le (q1 q2 : Q) :
  0 < q1 -> q1 <= q2 -> binary64_pos q1 <= binary64_pos q2.
Proof.
  intros H1 Hle.
  assert (H2 : 0 < q2) by (apply Qlt_le_trans with q1; assumption).
  pose proof (ilog2_le q1 q2 H1 Hle) as Hk.
  destruct (Z.eq_dec (ilog2 q1) (ilog2 q2)) as [Heq | Hne].
  - rewrite !binary64_pos_eq, Heq.
    apply Qmult_le_compat_r; [| apply Qlt_le_weak, pow2_pos].
    rewrite <- Zle_Qle. apply round_half_even_le.
    apply Qmult_le_compat_r; [assumption | apply Qlt_le_weak, pow2_pos].
  - apply Qle_trans with (pow2 (ilog2 q1 + 1)); [now apply binary64_pos_bounds |].
    apply Qle_trans with (pow2 (ilog2 q2)); [apply pow2_le; lia |].
    now apply binary64_pos_bounds.
Qed.

Lemma binary64_pos_compat (q1 q2 : Q) :
  0 < q1 -> q1 == q2 -> binary64_pos q1 == binary64_pos q2.
Proof.
  intros H1 Heq.
  assert (H2 : 0 < q2) by now rewrite <- Heq.
  apply Qle_antisym; apply binary64_pos_le; try assumption;
    rewrite Heq; apply Qle_refl.
Qed.

(** A number on the grid of its binade is its own rounding. *)
Lemma binary64_pos_grid (m e : Z) :
  (2 ^ 52 <= m <= 2 ^ 53)%Z ->
  binary64_pos (inject_Z m * pow2 e) == inject_Z m * pow2 e.
Proof.
  intros [Hlo Hhi].
  assert (Hcases : (m < 2 ^ 53 \/ m = 2 ^ 53)%Z) by lia.
  assert (Hm : pow2 52 <= inject_Z m)
    by (rewrite (pow2_inject 52) by lia; now rewrite <- Zle_Qle).
  destruct Hcases as [Hlt | ->].
  - assert (Hk : ilog2 (inject_Z m * pow2 e) = (e + 52)%Z).
    { apply ilog2_unique.
      - rewrite Z.add_comm, pow2_add.
        apply Qmult_le_compat_r; [assumption | apply Qlt_le_weak, pow2_pos].
      - replace (e + 52 + 1)%Z with (53 + e)%Z by lia. rewrite pow2_add.
        apply Qmult_lt_r; [apply pow2_pos |].
        rewrite (pow2_inject 53) by lia. now rewrite <- Zlt_Qlt. }
    rewrite binary64_pos_eq, Hk. replace (e + 52 - 52)%Z with e by lia.
    assert (Hrw : (inject_Z m * pow2 e * pow2 (- e)) == (inject_Z m))
      by (rewrite <- Qmult_assoc, (Qmult_comm (pow2 e)), pow2_cancel; ring).
    now rewrite (round_half_even_compat _ _ Hrw), round_half_even_Z.
  - assert (Hk : ilog2 (inject_Z (2 ^ 53) * pow2 e) = (e + 53)%Z).
    { apply ilog2_unique.
      - rewrite <- (pow2_inject 53) by lia.
        rewrite Z.add_comm, pow2_add. apply Qle_refl.
      - rewrite <- (pow2_inject 53) by lia.
        replace (e + 53 + 1)%Z with (54 + e)%Z by lia. rewrite (pow2_add 54).
        apply Qmult_lt_r; [apply pow2_pos | now apply pow2_lt]. }
    rewrite binary64_pos_eq, Hk. replace (e + 53 - 52)%Z with (e + 1)%Z by lia.
    assert (Hrw : inject_Z (2 ^ 53) * pow2 e * pow2 (- (e + 1)) == inject_Z (2 ^ 52)).
    { rewrite <- !(pow2_inject) by lia.
      rewrite <- Qmult_assoc, <- !pow2_add.
      now replace (53 + (e + - (e + 1)))%Z with 52%Z by lia. }
    rewrite (round_half_even_compat _ _ Hrw), round_half_even_Z, pow2_succ.
    rewrite <- !(pow2_inject) by lia.
    assert (H53 : pow2 53 == 2 * pow2 52)
      by (change 53%Z with (52 + 1)%Z; apply pow2_succ).
    rewrite H53. ring.
Qed.

Lemma binary64_pos_idem (q : Q) :
  0 < q -> binary64_pos (binary64_pos q) == binary64_pos q.
Proof.
  intros Hq.
  rewrite (binary64_pos_compat (binary64_pos q) _
             (binary64_pos_positive q Hq) (binary64_pos_eq q)).
  rewrite binary64_pos_grid by now apply mantissa_bounds.
  symmetry. apply binary64_pos_eq.
Qed.

Lemma binary64_sign (q : Q) :
  (0 < q -> 0 < binary64 q) /\ (q == 0 -> binary64 q == 0) /\ (q < 0 -> binary64 q < 0).
Proof.
  unfold binary64. repeat split; intros Hq.
  - rewrite (proj1 (Qgt_alt _ _) Hq). now apply binary64_pos_positive.
  - now rewrite (proj1 (Qeq_alt _ _) Hq).
  - rewrite (proj1 (Qlt_alt _ _) Hq).
    assert (Hp : 0 < binary64_pos (- q)) by (apply binary64_pos_positive; lra).
    lra.
Qed.

Theorem binary64_le (q1 q2 : Q) : q1 <= q2 -> binary64 q1 <= binary64 q2.
Proof.
  intros Hle.
  destruct (binary64_sign q1) as (Hp1 & Hz1 & Hn1).
  destruct (binary64_sign q2) as (Hp2 & Hz2 & Hn2).
  destruct (Q_dec q1 0) as [[Hneg1 | Hpos1] | Hzero1];
    destruct (Q_dec q2 0) as [[Hneg2 | Hpos2] | Hzero2]; try lra.
  - unfold binary64.
    rewrite (proj1 (Qlt_alt _ _) Hneg1), (proj1 (Qlt_alt _ _) Hneg2).
    assert (Hc : binary64_pos (- q2) <= binary64_pos (- q1))
      by (apply binary64_pos_le; lra).
    lra.
  - unfold binary64.
    rewrite (proj1 (Qgt_alt _ _) Hpos1), (proj1 (Qgt_alt _ _) Hpos2).
    now apply binary64_pos_le.
Qed.

Theorem binary64_idem (q : Q) : binary64 (binary64 q) == binary64 q.
Proof.
  destruct (binary64_sign q) as (Hp & Hz & Hn).
  destruct (Q_dec q 0) as [[Hneg | Hpos] | Hzero].
  - specialize (Hn Hneg). unfold binary64 at 1.
    rewrite (proj1 (Qlt_alt _ _) Hn).
    unfold binary64 in *. rewrite (proj1 (Qlt_alt _ _) Hneg) in *.
    assert (Hq : 0 < - q) by lra.
    rewrite (binary64_pos_compat (- - binary64_pos (- q)) (binary64_pos (- q))).
    + now rewrite binary64_pos_idem.
    + lra.
    + ring.
  - specialize (Hp Hpos). unfold binary64 at 1.
    rewrite (proj1 (Qgt_alt _ _) Hp).
    unfold binary64. rewrite (proj1 (Qgt_alt _ _) Hpos).
    now apply binary64_pos_idem.
  - specialize (Hz Hzero). unfold binary64 at 1.
    now rewrite (proj1 (Qeq_alt _ _) Hz).
Qed.

(** Reading the numbers of a value as doubles commutes with the read of a
    property, and a number read from a parsed value is a double. *)
Lemma lookup_field_to_doubles (k : string) (fs : list (string * json)) :
  lookup_field k (map (fun kv => (fst kv, to_doubles (snd kv))) fs)
  = option_map to_doubles (lookup_field k fs).
Proof.
  induction fs as [| [k' v] rest IH]; [reflexivity |].
  cbn [map lookup_field fst snd]. rewrite IH.
  destruct (lookup_field k rest); [reflexivity |].
  now destruct (String.eqb k k').
Qed.

Lemma field_to_doubles (v : json) (k : string) :
  field (to_doubles v) k = option_map to_doubles (field v k).
Proof.
  destruct v; try reflexivity. cbn [to_doubles field]. apply lookup_field_to_doubles.
Qed.

Lemma JSON_parse_field_double `{Platform} (s : string) (v : json) (k : string) (q : Q) :
  JSON_parse s = Some v -> field v k = Some (JNum q) -> binary64 q == q.
Proof.
  unfold JSON_parse. destruct (JSON_read s) as [v0 |]; [| discriminate].
  cbn [option_map]. intros [= <-]. rewrite field_to_doubles.
  destruct (field v0 k) as [[| b | q0 | s0 | items | fs] |]; cbn; try discriminate.
  intros [= <-]. apply binary64_idem.
Qed.
End Doubles.

(** ** Storage *)

Lemma truthy_string_true (s : string) : s <> "" -> truthy_string s = true.
Proof.
  intros Hne. unfold truthy_string.
  destruct (String.eqb_spec s ""); [contradiction | reflexivity].
Qed.

Lemma both_removed_token (st : Storage) : both_removed st !! "authToken" = None.
Proof.
  unfold both_removed, removeItem.
  rewrite lookup_delete_ne by discriminate. apply lookup_delete_eq.
Qed.

Lemma both_removed_user (st : Storage) : both_removed st !! "user" = None.
Proof. unfold both_removed, removeItem. apply lookup_delete_eq. Qed.

Lemma num_lt_Fin_true (x y : Q) : (x < y)%Q -> num_lt (Fin x) (Fin y) = true.
Proof.
  intros Hlt. unfold num_lt.
  pose proof (proj1 (Qlt_alt x y) Hlt) as Hc. now rewrite Hc.
Qed.

Lemma num_lt_Fin_false (x y : Q) : (y <= x)%Q -> num_lt (Fin x) (Fin y) = false.
Proof.
  intros Hle. unfold num_lt. destruct (Qcompare x y) eqn:Hc; try reflexivity.
  exfalso. exact (Qle_not_lt _ _ Hle (proj2 (Qlt_alt x y) Hc)).
Qed.

Lemma get_prop_field (v : json) (k : string) :
  v <> JNull -> get_prop v k = Return (field v k).
Proof. intros Hv. destruct v; [contradiction | reflexivity ..]. Qed.

Lemma field_Some_not_null (v : json) (k : string) (x : json) :
  field v k = Some x -> v <> JNull.
Proof. intros Hf ->. discriminate. Qed.

(** ** isAuthenticated *)

Section IsAuthenticated.
Context `{Platform}.
Variables (now_ms : Z) (st : Storage) (token : string).
Hypothesis Hstored : getItem "authToken" st = Some token.
Hypothesis Hnonempty : token <> "".

(** The three ways through the function once a token is stored. *)
Lemma isAuthenticated_cases :
  isAuthenticated now_ms st =
    match token_expired token now_ms with
    | Return false => (true, st)
    | _ => (false, both_removed st)
    end.
Proof.
  unfold isAuthenticated. rewrite Hstored, truthy_string_true by assumption.
  simpl. destruct (token_expired token now_ms) as [[|]|]; reflexivity.
Qed.

Lemma token_expired_decoded (decoded : string) (payload : json) :
  atob (index_as_string (split "." token) 1) = Some decoded ->
  JSON_parse decoded = Some payload ->
  token_expired token now_ms =
    (exp <- get_prop payload "exp" ;;
     js_lt exp (Fin (binary64 (now_ms # 1000))))%comp.
Proof.
  intros Ha Hp. unfold token_expired, js_atob, js_JSON_parse.
  rewrite Ha. simpl. rewrite Hp. reflexivity.
Qed.
End IsAuthenticated.

(** C1, as stated, fails at the precision of the clock.  [Date.now() / 1000]
    is a double: at 1700000000001 ms the quotient is rounded down to
    1700000000.000999927520751953125, and a token whose [exp] is that number
    expires strictly before the current time, 1700000000.001 s, yet the test
    [payload.exp < currentTime] compares two equal doubles: the token is
    accepted and the storage is kept. *)
Lemma isAuthenticated_rounded_clock :
  ~ (forall (P : Platform) (now_ms : Z) (st : Storage) (token decoded : string)
            (payload : json) (exp : Q),
        getItem "authToken" st = Some token ->
        token <> "" ->
        atob (index_as_string (split "." token) 1) = Some decoded ->
        JSON_parse decoded = Some payload ->
        field payload "exp" = Some (JNum exp) ->
        (exp < now_ms # 1000)%Q ->
        isAuthenticated now_ms st
        = (false, removeItem "user" (removeItem "authToken" st))).
Proof.
  intros Hclaim.
  pose (exp := (3565158400002097 # 2097152)%Q).
  specialize (Hclaim reference_platform 1700000000001 (stored token_exp_rounded_clock)
                token_exp_rounded_clock
                (default "" (Ref.atob (index_as_string (split "." token_exp_rounded_clock) 1)))
                (JObj [("exp", JNum exp)]) exp).
  assert (Hrun : isAuthenticated 1700000000001 (stored token_exp_rounded_clock)
                 = (true, stored token_exp_rounded_clock)) by (vm_compute; reflexivity).
  rewrite Hrun in Hclaim.
  assert (Hfalse : (true, stored token_exp_rounded_clock)
                   = (false, removeItem "user"
                               (removeItem "authToken" (stored token_exp_rounded_clock)))).
  { apply Hclaim.
    - reflexivity.
    - discriminate.
    - vm_compute. reflexivity.
    - vm_compute. reflexivity.
    - reflexivity.
    - reflexivity. }
  discriminate Hfalse.
Qed.

(** C1, amended. A stored token whose decoded payload carries a numeric
    [exp] strictly smaller than the current time in seconds as the code
    computes it, the double [Date.now() / 1000], makes [isAuthenticated]
    return [false] and remove the two storage keys [authToken] and [user]. *)
Theorem isAuthenticated_expired `{Platform} (now_ms : Z) (st : Storage)
    (token decoded : string) (payload : json) (exp : Q) :
  getItem "authToken" st = Some token ->
  token <> "" ->
  atob (index_as_string (split "." token) 1) = Some decoded ->
  JSON_parse decoded = Some payload ->
  field payload "exp" = Some (JNum exp) ->
  (exp < binary64 (now_ms # 1000))%Q ->
  isAuthenticated now_ms st = (false, removeItem "user" (removeItem "authToken" st))
  /\ snd (isAuthenticated now_ms st) !! "authToken" = None
  /\ snd (isAuthenticated now_ms st) !! "user" = None.
Proof.
  intros Hst Hne Ha Hp Hexp Hlt.
  assert (Hrun : isAuthenticated now_ms st = (false, both_removed st)).
  { rewrite (isAuthenticated_cases now_ms st token Hst Hne).
    rewrite (token_expired_decoded now_ms token decoded payload Ha Hp).
    rewrite (get_prop_field _ _ (field_Some_not_null _ _ _ Hexp)), Hexp.
    cbv [cbind js_lt ToNumber].
    now rewrite (num_lt_Fin_true _ _ Hlt). }
  rewrite Hrun. simpl.
  repeat split; [apply both_removed_token | apply both_removed_user].
Qed.

Lemma isAuthenticated_expired_witness :
  isAuthenticated 1800000000000 (stored token_exp_1700000000) = (false, ∅).
Proof.
  destruct (isAuthenticated_expired 1800000000000 (stored token_exp_1700000000)
              token_exp_1700000000
              (Ref.JSON_stringify (JObj [("exp", JNum 1700000000)]))
              (JObj [("exp", JNum 1700000000)]) 1700000000) as [Hrun _].
  - reflexivity.
  - discriminate.
  - reflexivity.
  - reflexivity.
  - reflexivity.
  - reflexivity.
  - rewrite Hrun. vm_compute. reflexivity.
Defined.

(** C2. A stored token whose payload segment does not decode, because it is
    not base64 text or because the decoded text is not JSON, makes
    [isAuthenticated] return [false] and remove the two storage keys, as for
    an expired token. *)
Theorem isAuthenticated_undecodable `{Platform} (now_ms : Z) (st : Storage)
    (token : string) :
  getItem "authToken" st = Some token ->
  token <> "" ->
  (atob (index_as_string (split "." token) 1) = None
   \/ exists decoded, atob (index_as_string (split "." token) 1) = Some decoded
                     /\ JSON_parse decoded = None) ->
  isAuthenticated now_ms st = (false, removeItem "user" (removeItem "authToken" st))
  /\ snd (isAuthenticated now_ms st) !! "authToken" = None
  /\ snd (isAuthenticated now_ms st) !! "user" = None.
Proof.
  intros Hst Hne Hbad.
  assert (Hrun : isAuthenticated now_ms st = (false, both_removed st)).
  { rewrite (isAuthenticated_cases now_ms st token Hst Hne).
    unfold token_expired, js_atob, js_JSON_parse.
    destruct Hbad as [Ha | (decoded & Ha & Hp)].
    - rewrite Ha. reflexivity.
    - rewrite Ha. simpl. rewrite Hp. reflexivity. }
  rewrite Hrun. simpl.
  repeat split; [apply both_removed_token | apply both_removed_user].
Qed.

Lemma isAuthenticated_undecodable_witness :
  isAuthenticated 1600000000000 (stored token_not_base64) = (false, ∅).
Proof.
  destruct (isAuthenticated_undecodable 1600000000000 (stored token_not_base64)
              token_not_base64) as [Hrun _].
  - reflexivity.
  - discriminate.
  - left. reflexivity.
  - rewrite Hrun. vm_compute. reflexivity.
Defined.

(** An empty string under [authToken] counts as no token at all: the guard
    [if (!token)] returns [false] before anything is decoded, and the storage
    is left as it is. *)
Lemma isAuthenticated_empty_token `{Platform} (now_ms : Z) (st : Storage) :
  getItem "authToken" st = Some "" -> isAuthenticated now_ms st = (false, st).
Proof. intros Hst. unfold isAuthenticated. now rewrite Hst. Qed.

(** C9, as stated, fails: a payload segment that decodes to the JSON value
    [null] is valid JSON without an [exp] field, yet reading [payload.exp]
    throws and the [catch] branch rejects the token and clears the storage. *)
Lemma isAuthenticated_null_payload_rejected :
  ~ (forall (P : Platform) (now_ms : Z) (st : Storage) (token decoded : string)
            (payload : json),
        getItem "authToken" st = Some token ->
        token <> "" ->
        atob (index_as_string (split "." token) 1) = Some decoded ->
        JSON_parse decoded = Some payload ->
        field payload "exp" = undefined ->
        isAuthenticated now_ms st = (true, st)).
Proof.
  intros Hclaim.
  specialize (Hclaim reference_platform 1600000000000 (stored token_null_payload)
                token_null_payload "null" JNull).
  assert (Hrun : isAuthenticated 1600000000000 (stored token_null_payload)
                 = (false, ∅)) by (vm_compute; reflexivity).
  rewrite Hrun in Hclaim.
  assert (Hfalse : (false, (∅ : Storage)) = (true, stored token_null_payload)).
  { apply Hclaim; [reflexivity | discriminate | reflexivity ..]. }
  discriminate Hfalse.
Qed.

(** C9, amended. A stored token whose payload segment decodes to a JSON
    value other than [null] that has no [exp] field, or whose [exp] is a
    number not smaller than the current time in seconds (equality included),
    is accepted: [isAuthenticated] returns [true] and the storage is left as
    it was. *)
Theorem isAuthenticated_accepts `{Platform} (now_ms : Z) (st : Storage)
    (token decoded : string) (payload : json) :
  getItem "authToken" st = Some token ->
  token <> "" ->
  atob (index_as_string (split "." token) 1) = Some decoded ->
  JSON_parse decoded = Some payload ->
  payload <> JNull ->
  (field payload "exp" = undefined
   \/ exists exp, field payload "exp" = Some (JNum exp) /\ (now_ms # 1000 <= exp)%Q) ->
  isAuthenticated now_ms st = (true, st).
Proof.
  intros Hst Hne Ha Hp Hnn Hexp.
  rewrite (isAuthenticated_cases now_ms st token Hst Hne).
  rewrite (token_expired_decoded now_ms token decoded payload Ha Hp).
  rewrite (get_prop_field _ _ Hnn).
  destruct Hexp as [Hnone | (exp & Hsome & Hle)].
  - rewrite Hnone. reflexivity.
  - rewrite Hsome. cbv [cbind js_lt ToNumber].
    apply binary64_le in Hle.
    rewrite (JSON_parse_field_double decoded payload "exp" exp Hp Hsome) in Hle.
    now rewrite (num_lt_Fin_false _ _ Hle).
Qed.

Lemma isAuthenticated_accepts_witness :
  isAuthenticated 1700000000000 (stored token_exp_1700000000)
    = (true, stored token_exp_1700000000)
  /\ isAuthenticated 1800000000000 (stored token_without_exp)
    = (true, stored token_without_exp).
Proof.
  split.
  - apply (isAuthenticated_accepts 1700000000000 (stored token_exp_1700000000)
             token_exp_1700000000
             (Ref.JSON_stringify (JObj [("exp", JNum 1700000000)]))
             (JObj [("exp", JNum 1700000000)])).
    + reflexivity.
    + discriminate.
    + reflexivity.
    + reflexivity.
    + discriminate.
    + right. exists 1700000000%Q. split; [reflexivity | discriminate].
  - apply (isAuthenticated_accepts 1800000000000 (stored token_without_exp)
             token_without_exp
             (Ref.JSON_stringify (JObj [("sub", JStr "u1")]))
             (JObj [("sub", JStr "u1")])).
    + reflexivity.
    + discriminate.
    + reflexivity.
    + reflexivity.
    + discriminate.
    + left. reflexivity.
Defined.

(** ** getUserProfile and registerUser *)

Lemma ok_false (st : Z) (b : string) :
  ~ (200 <= st <= 299) -> ok (mkResponse st b) = false.
Proof.
  intros Hno. unfold ok. simpl.
  destruct (Z.leb_spec 200 st); destruct (Z.leb_spec st 299); simpl; try reflexivity.
  lia.
Qed.

Lemma ok_true (st : Z) (b : string) :
  200 <= st <= 299 -> ok (mkResponse st b) = true.
Proof.
  intros [Hlo Hhi]. unfold ok. simpl.
  apply Z.leb_le in Hlo. apply Z.leb_le in Hhi. now rewrite Hlo, Hhi.
Qed.

(** C10. When [getUserProfile] receives a response whose status is neither
    a success status nor 401, it fails with the generic error
    [Failed to fetch profile] and the storage, both keys included, is left as
    it was. *)
Theorem getUserProfile_generic_failure `{Platform} (PROD : bool)
    (net : request -> network) (w : world) (token : string) (t st : Z) (b : string) :
  getItem "authToken" (storage w) = Some token ->
  token <> "" ->
  net (profile_request PROD token) = Settles t (Response st b) ->
  ~ (200 <= st <= 299) ->
  st <> 401 ->
  fst (getUserProfile PROD net w) = Rejected (Error_ "Failed to fetch profile")
  /\ storage (snd (getUserProfile PROD net w)) = storage w.
Proof.
  intros Hst Hne Hnet Hnok H401.
  unfold getUserProfile, mbind, read_storage.
  rewrite Hst, (truthy_string_true _ Hne).
  unfold fetch. rewrite Hnet, (ok_false _ _ Hnok).
  cbn [negb status]. rewrite (proj2 (Z.eqb_neq st 401) H401).
  split; reflexivity.
Qed.

Lemma getUserProfile_generic_failure_witness :
  fst (getUserProfile false (always 120 500 "oops")
         (mkWorld (stored token_without_exp) [] []))
    = Rejected (Error_ "Failed to fetch profile")
  /\ storage (snd (getUserProfile false (always 120 500 "oops")
                     (mkWorld (stored token_without_exp) [] [])))
     = stored token_without_exp.
Proof.
  apply (getUserProfile_generic_failure false (always 120 500 "oops")
           (mkWorld (stored token_without_exp) [] []) token_without_exp 120 500 "oops").
  - reflexivity.
  - discriminate.
  - reflexivity.
  - lia.
  - lia.
Defined.



(** A response without a truthy token stores nothing. *)
Lemma store_credentials_without_token `{Platform} (data : json) (w : world) :
  truthy (field data "token") = false ->
  storage (snd (store_credentials data w)) = storage w.
Proof.
  intros Hfalsy. unfold store_credentials, mbind.
  destruct data; try reflexivity; cbn [get_prop lift mret]; now rewrite Hfalsy.
Qed.

(** ** initializeAuth *)

Lemma with_storage_id (w : world) : with_storage (storage w) w = w.
Proof. destruct w; reflexivity. Qed.

Lemma isAuthenticated_true `{Platform} (now_ms : Z) (st : Storage) :
  fst (isAuthenticated now_ms st) = true ->
  isAuthenticated now_ms st = (true, st)
  /\ exists token, getItem "authToken" st = Some token /\ token <> "".
Proof.
  unfold isAuthenticated.
  destruct (getItem "authToken" st) as [token|]; [| discriminate].
  unfold truthy_string. destruct (String.eqb_spec token ""); [discriminate |].
  simpl negb. cbv iota.
  destruct (token_expired token now_ms) as [[|]|]; try discriminate.
  intros _. split; [reflexivity | now exists token].
Qed.

(** Every failure of the exchange makes [getUserProfile] reject, and what it
    leaves in the storage is either untouched or without the two keys. *)
Lemma getUserProfile_rejects `{Platform} (PROD : bool) (net : request -> network)
    (w : world) (token : string) (t : Z) (r : fetch_result) :
  getItem "authToken" (storage w) = Some token ->
  token <> "" ->
  net (profile_request PROD token) = Settles t r ->
  verification_fails r ->
  exists e w', getUserProfile PROD net w = (Rejected e, w').
Proof.
  intros Hst Hne Hnet Hfail.
  unfold getUserProfile, mbind, read_storage.
  rewrite Hst, (truthy_string_true _ Hne). unfold fetch. rewrite Hnet.
  destruct r as [st b | e]; [| eauto].
  cbn [negb]. destruct (ok (mkResponse st b)) eqn:Hok.
  - destruct Hfail as [Hno | Hparse].
    + rewrite (ok_false _ _ Hno) in Hok. discriminate.
    + cbn [negb mret]. unfold response_json, js_JSON_parse. cbn beta iota.
      rewrite Hparse. cbn. eauto.
  - cbn [negb status]. destruct (st =? 401); cbn; eauto.
Qed.

(** C3. When [initializeAuth] starts with a stored token that
    [isAuthenticated] accepts and a stored user, and the profile verification
    fails (the fetch is rejected, or the status is not a success status, 401
    included, or the body is not JSON), the run completes with the user set to
    [null] (unauthenticated), [loading] false, and both storage keys
    removed. *)
Theorem initializeAuth_fails_closed `{Platform} (PROD : bool)
    (net : request -> network) (now_ms : Z) (a : auth_state) (w : world)
    (token : string) (storedUser : json) (t : Z) (r : fetch_result) :
  getItem "authToken" (storage w) = Some token ->
  fst (isAuthenticated now_ms (storage w)) = true ->
  getStoredUser (storage w) = Return storedUser ->
  truthy (Some storedUser) = true ->
  net (profile_request PROD token) = Settles t r ->
  verification_fails r ->
  let '(p, a', w') := initializeAuth PROD net now_ms a w in
  p = Fulfilled tt
  /\ user a' = Some JNull
  /\ ctx_isAuthenticated a' = false
  /\ loading a' = false
  /\ storage w' !! "authToken" = None
  /\ storage w' !! "user" = None.
Proof.
  intros Hst Hauth Huser Htruthy Hnet Hfail.
  destruct (isAuthenticated_true _ _ Hauth) as [Hrun (token' & Hst' & Hne)].
  assert (token' = token) by congruence. subst token'.
  destruct (getUserProfile_rejects PROD net w token t r Hst Hne Hnet Hfail)
    as (e & w2 & Hprofile).
  unfold initializeAuth. rewrite Hrun, with_storage_id, Huser, Htruthy, Hprofile.
  cbn. repeat split.
  - apply both_removed_token.
  - apply both_removed_user.
Qed.

(** The verification request is issued only with an accepted token and a
    truthy stored user; otherwise the run ends at once, with no request and
    the user state as it was. *)
Lemma initializeAuth_without_verification `{Platform} (PROD : bool)
    (net : request -> network) (now_ms : Z) (a : auth_state) (w : world) :
  (fst (isAuthenticated now_ms (storage w)) = false
   \/ (exists e, getStoredUser (snd (isAuthenticated now_ms (storage w))) = Throw e)
   \/ (exists u, getStoredUser (snd (isAuthenticated now_ms (storage w))) = Return u
                 /\ truthy (Some u) = false)) ->
  initializeAuth PROD net now_ms a w
  = (Fulfilled tt, setLoading false a,
     with_storage (snd (isAuthenticated now_ms (storage w))) w).
Proof.
  intros Hcase. unfold initializeAuth.
  destruct (isAuthenticated now_ms (storage w)) as [authed st1]. cbn [fst snd] in *.
  destruct Hcase as [-> | [(e & Hthrow) | (u & Hret & Hfalsy)]].
  - reflexivity.
  - rewrite Hthrow. now destruct authed.
  - rewrite Hret, Hfalsy. now destruct authed.
Qed.

Lemma initializeAuth_fails_closed_witness :
  let '(p, a', w') :=
    initializeAuth false (always 200 401 "") 1600000000000 auth_initial
      (mkWorld (stored token_exp_1700000000) [] []) in
  p = Fulfilled tt
  /\ user a' = Some JNull
  /\ ctx_isAuthenticated a' = false
  /\ loading a' = false
  /\ storage w' !! "authToken" = None
  /\ storage w' !! "user" = None.
Proof.
  apply (initializeAuth_fails_closed false (always 200 401 "") 1600000000000
           auth_initial (mkWorld (stored token_exp_1700000000) [] [])
           token_exp_1700000000 sample_user 200 (Response 401 "")).
  - reflexivity.
  - reflexivity.
  - reflexivity.
  - reflexivity.
  - reflexivity.
  - left. lia.
Defined.

(** ** handleSendMessage *)

(** Without a [null] element the filter does not throw, and it is the
    list filter that drops the elements whose property is identical to
    [b]. *)
Lemma filter_prop_neq_spec (k : string) (b : jsval) (prev : list json) :
  Forall (fun x => x <> JNull) prev ->
  filter_prop_neq k (Return b) prev
  = Return (List.filter (fun x => negb (strict_eq (field x k) b)) prev).
Proof.
  induction 1 as [| x rest Hx _ IH]; [reflexivity |].
  cbn [filter_prop_neq List.filter]. rewrite (get_prop_field _ _ Hx), IH.
  cbn [cbind]. now destruct (strict_eq (field x k) b).
Qed.

(** [loadAIMemory] touches the memory and its loading flag only. *)
Lemma loadAIMemory_frame `{Platform} (PROD : bool) (VITE_API_URL : option string)
    (net : request -> network) (m : modal_state) (w : world) :
  messages (fst (loadAIMemory PROD VITE_API_URL net m w)) = messages m
  /\ currentChatId (fst (loadAIMemory PROD VITE_API_URL net m w)) = currentChatId m
  /\ chats (fst (loadAIMemory PROD VITE_API_URL net m w)) = chats m.
Proof.
  unfold loadAIMemory.
  destruct (getAIMemory PROD VITE_API_URL net w) as [[memory | e |] w1]; now repeat split.
Qed.

(** The second half of the handler, for any chat id and any message list
    without a [null] element. *)
Lemma send_in_chat_spec `{Platform} (PROD : bool) (VITE_API_URL : option string)
    (net : request -> network) (chatId : jsval) (text : string) (now_ms : Z)
    (iso : string) (m : modal_state) (w : world) :
  Forall (fun x => x <> JNull) (messages m) ->
  let msg := userMessage text now_ms iso in
  let '(o, m', w') := send_in_chat PROD VITE_API_URL net chatId text now_ms iso m w in
  currentChatId m' = currentChatId m
  /\ chats m' = chats m
  /\ match saveMessage PROD VITE_API_URL net chatId text w with
     | (Fulfilled reply, _) =>
         o = Done tt
         /\ messages m' = if truthy (Some reply) then (messages m ++ [msg; reply])%list
                          else (messages m ++ [msg])%list
     | (Rejected _, _) =>
         o = Done tt
         /\ messages m' =
              List.filter (fun x => negb (strict_eq (field x "id") (field msg "id")))
                (messages m ++ [msg])%list
     | (Pending, _) => o = Suspended /\ messages m' = (messages m ++ [msg])%list
     end.
Proof.
  intros Hmsgs msg. unfold send_in_chat. fold msg.
  destruct (saveMessage PROD VITE_API_URL net chatId text w) as [[reply | e |] w1].
  - destruct (truthy (Some reply)) eqn:Hreply; [| now cbn].
    match goal with
    | |- context [loadAIMemory ?a ?b ?c ?d ?e] =>
        destruct (loadAIMemory_frame a b c d e) as (Hm & Hc & Hch);
        destruct (loadAIMemory a b c d e) as [m4 w2]
    end.
    cbn in Hm, Hc, Hch. rewrite Hm, Hc, Hch, <- app_assoc. now cbn.
  - cbn [messages setMessages setIsNewChat].
    rewrite (get_prop_field msg "id") by discriminate.
    rewrite filter_prop_neq_spec.
    + now cbn.
    + apply Forall_app. split; [assumption |]. constructor; [discriminate | constructor].
  - now cbn.
Qed.



(** The handler after the chat id is known, as its start followed by its
    continuation. *)
Lemma send_in_chat_settled `{Platform} (PROD : bool) (VITE_API_URL : option string)
    (net : request -> network) (chatId : jsval) (text : string) (now_ms : Z)
    (iso : string) (m : modal_state) (w : world) :
  send_in_chat PROD VITE_API_URL net chatId text now_ms iso m w
  = let msg := userMessage text now_ms iso in
    let m2 := setIsNewChat false (setMessages (messages m ++ [msg]) m) in
    let '(saved, w1) := saveMessage PROD VITE_API_URL net chatId text w in
    send_settled PROD VITE_API_URL net msg saved m2 w1.
Proof.
  unfold send_in_chat, send_settled. cbv zeta.
  now destruct (saveMessage PROD VITE_API_URL net chatId text w) as [[reply | e |] w1].
Qed.









(** When the creation of the chat fails, the handler returns without
    touching the message list and without sending the message. *)
Lemma handleSendMessage_creation_fails `{Platform} (PROD : bool)
    (VITE_API_URL : option string) (net : request -> network)
    (text : string) (now_ms : Z) (iso : string)
    (m : modal_state) (w w1 : world) (e : error) :
  truthy (currentChatId m) = false ->
  createNewChat PROD VITE_API_URL net None w = (Rejected e, w1) ->
  handleSendMessage PROD VITE_API_URL net text now_ms iso m w
  = (Done tt, setLoadingMessages false (setLoadingMessages true m), w1).
Proof.
  intros Hnone Hcreate. unfold handleSendMessage, handleCreateNewChat.
  now rewrite Hnone, Hcreate.
Qed.

(** ** Timeouts *)

Section Timeouts.
Variables (net : request -> network) (timer_wins_tie : bool).

(** A request that is late for the timer is aborted, and
    [fetchWithTimeout] turns the AbortError into the timeout error. *)
Lemma fetchWithTimeout_late (rq : request) (timeoutMs : option Z) (w : world) :
  late net (with_signal rq) (default 30000 timeoutMs) ->
  fetchWithTimeout net timer_wins_tie rq timeoutMs w
  = (Rejected (Error_ timeout_message),
     mkWorld (storage w) (issued w ++ [with_signal rq])
       (aborted w ++ [with_signal rq])).
Proof.
  intros Hlate. unfold fetchWithTimeout, try_catch, fetch_with_signal.
  destruct Hlate as [Hnever | [(t & r & Hsettles & Hlt) | (t & st & Hstalls & Hlt)]].
  - rewrite Hnever. reflexivity.
  - rewrite Hsettles.
    replace (t <? default 30000 timeoutMs) with false by (symmetry; apply Z.ltb_ge; lia).
    replace (t =? default 30000 timeoutMs) with false by (symmetry; apply Z.eqb_neq; lia).
    reflexivity.
  - rewrite Hstalls.
    replace (t <? default 30000 timeoutMs) with false by (symmetry; apply Z.ltb_ge; lia).
    replace (t =? default 30000 timeoutMs) with false by (symmetry; apply Z.eqb_neq; lia).
    reflexivity.
Qed.

(** A response that arrives before the timer is delivered, and nothing is
    aborted. *)
Lemma fetchWithTimeout_in_time (rq : request) (timeoutMs : option Z) (w : world)
    (t st : Z) (b : string) :
  net (with_signal rq) = Settles t (Response st b) ->
  t < default 30000 timeoutMs ->
  fetchWithTimeout net timer_wins_tie rq timeoutMs w
  = (Fulfilled (mkResponse st b),
     mkWorld (storage w) (issued w ++ [with_signal rq]) (aborted w)).
Proof.
  intros Hsettles Hlt. unfold fetchWithTimeout, try_catch, fetch_with_signal.
  rewrite Hsettles.
  replace (t <? default 30000 timeoutMs) with true by (symmetry; apply Z.ltb_lt; lia).
  reflexivity.
Qed.
End Timeouts.

(** C5. A [getNewsFeed] request that is not answered within 35000 ms (a
    later answer, or none) is aborted, and the call fails with the timeout
    error, whose message is not the one of the generic failure of the
    operation; whatever the late answer is, the call leaves the storage as it
    was, and what it adds to the world is the request and its abort. *)
Theorem getNewsFeed_times_out `{Platform} (PROD : bool) (VITE_API_URL : option string)
    (net : request -> network) (timer_wins_tie : bool) (w : world) :
  let rq := with_signal (news_feed_request PROD VITE_API_URL (storage w)) in
  late net rq 35000 ->
  getNewsFeed PROD VITE_API_URL net timer_wins_tie w
  = (Rejected (Error_ timeout_message),
     mkWorld (storage w) (issued w ++ [rq]) (aborted w ++ [rq]))
  /\ Error_ timeout_message <> Error_ "Failed to fetch news feed".
Proof.
  intros rq Hlate. split; [| discriminate].
  unfold getNewsFeed, mbind, read_storage.
  now rewrite (fetchWithTimeout_late net timer_wins_tie _ (Some 35000) w Hlate).
Qed.

Lemma getNewsFeed_times_out_witness :
  let rq := with_signal (news_feed_request false None (storage empty_world)) in
  getNewsFeed false None silent true empty_world
  = (Rejected (Error_ timeout_message),
     mkWorld (storage empty_world) (issued empty_world ++ [rq])
       (aborted empty_world ++ [rq]))
  /\ Error_ timeout_message <> Error_ "Failed to fetch news feed".
Proof.
  apply (getNewsFeed_times_out false None silent true empty_world).
  left. reflexivity.
Defined.

(** *** Operations without a timer *)

Create HintDb keeps discriminated.

Lemma keeps_mret {A} (a : A) : keeps_aborted (mret a).
Proof. intros w. reflexivity. Qed.

Lemma keeps_mthrow {A} (e : error) : keeps_aborted (@mthrow A e).
Proof. intros w. reflexivity. Qed.

Lemma keeps_lift {A} (c : completion A) : keeps_aborted (lift c).
Proof. destruct c; intros w; reflexivity. Qed.

Lemma keeps_read_storage : keeps_aborted read_storage.
Proof. intros w. reflexivity. Qed.

Lemma keeps_update_storage (f : Storage -> Storage) : keeps_aborted (update_storage f).
Proof. intros w. reflexivity. Qed.

Lemma keeps_fetch (net : request -> network) (rq : request) :
  keeps_aborted (fetch net rq).
Proof. intros w. unfold fetch. destruct (net rq) as [t [st b | e] | | t st]; reflexivity. Qed.

Lemma keeps_mbind {A B} (m : M A) (k : A -> M B) :
  keeps_aborted m -> (forall a, keeps_aborted (k a)) -> keeps_aborted (mbind m k).
Proof.
  intros Hm Hk w. unfold mbind. specialize (Hm w).
  destruct (m w) as [[a | e |] w1]; cbn in *; [| assumption ..].
  now rewrite Hk.
Qed.

Lemma keeps_if {A} (b : bool) (m1 m2 : M A) :
  keeps_aborted m1 -> keeps_aborted m2 -> keeps_aborted (if b then m1 else m2).
Proof. now destruct b. Qed.

Lemma keeps_response_json `{Platform} (r : response) : keeps_aborted (response_json r).
Proof. destruct r; [apply keeps_lift | intros w; reflexivity]. Qed.

#[local] Hint Resolve keeps_mret keeps_mthrow keeps_lift keeps_read_storage
  keeps_update_storage keeps_fetch keeps_mbind keeps_if keeps_response_json : keeps.

Ltac keeps := unfold json_or_throw, throw_server_error, store_credentials;
              repeat (first [ apply keeps_mbind; [| intros ? ]
                            | apply keeps_if
                            | solve [ auto with keeps ] ]).

Section NoTimer.
Context `{Platform}.
Variables (PROD : bool) (VITE_API_URL : option string) (net : request -> network).

Lemma registerUser_keeps (email password username : string) :
  keeps_aborted (registerUser PROD net email password username).
Proof. unfold registerUser. keeps. Qed.

Lemma loginUser_keeps (email password : string) :
  keeps_aborted (loginUser PROD net email password).
Proof. unfold loginUser. keeps. Qed.

Lemma getUserProfile_keeps : keeps_aborted (getUserProfile PROD net).
Proof.
  unfold getUserProfile. apply keeps_mbind; [auto with keeps |].
  intros st. destruct (getItem "authToken" st) as [token |]; [| auto with keeps].
  keeps.
Qed.

Lemma getAIMemory_keeps : keeps_aborted (getAIMemory PROD VITE_API_URL net).
Proof. unfold getAIMemory. keeps. Qed.

Lemma createNewChat_keeps (title : option string) :
  keeps_aborted (createNewChat PROD VITE_API_URL net title).
Proof. unfold createNewChat. keeps. Qed.

Lemma getAllChats_keeps : keeps_aborted (getAllChats PROD VITE_API_URL net).
Proof. unfold getAllChats. keeps. Qed.

Lemma getChatById_keeps (chatId : jsval) :
  keeps_aborted (getChatById PROD VITE_API_URL net chatId).
Proof. unfold getChatById. keeps. Qed.

Lemma saveMessage_keeps (chatId : jsval) (content : string) :
  keeps_aborted (saveMessage PROD VITE_API_URL net chatId content).
Proof. unfold saveMessage. keeps. Qed.
End NoTimer.

(** C6, as stated, fails: [getUserPreferences] goes through
    [fetchWithTimeout] with its default of 30000 ms, so a request that is
    never answered is aborted by the timer. *)
Lemma getUserPreferences_aborted_by_timer :
  ~ (forall (P : Platform) (PROD : bool) (VITE_API_URL : option string)
            (net : request -> network) (timer_wins_tie : bool) (w : world),
        aborted (snd (getUserPreferences PROD VITE_API_URL net timer_wins_tie w))
        = aborted w).
Proof.
  intros Hclaim.
  specialize (Hclaim reference_platform false None silent true empty_world).
  vm_compute in Hclaim. discriminate Hclaim.
Qed.

(** C6, amended. The auth operations ([registerUser], [loginUser],
    [getUserProfile]) and the chat operations ([getAIMemory],
    [createNewChat], [getAllChats], [getChatById], [saveMessage]) apply no
    client-side timeout: whatever the network does, none of their requests is
    aborted by a timer.  The preferences and monitoring-topic operations
    ([getUserPreferences], [updateUserPreferences], [addMonitoringTopic],
    [removeMonitoringTopic]) go through [fetchWithTimeout] with its default:
    a request not answered within 30000 ms is aborted and the call fails with
    the timeout error. *)
Theorem timers_by_operation `{Platform} (PROD : bool) (VITE_API_URL : option string)
    (net : request -> network) (timer_wins_tie : bool) (w : world) :
  ((forall email password username,
       aborted (snd (registerUser PROD net email password username w)) = aborted w)
   /\ (forall email password,
         aborted (snd (loginUser PROD net email password w)) = aborted w)
   /\ aborted (snd (getUserProfile PROD net w)) = aborted w
   /\ aborted (snd (getAIMemory PROD VITE_API_URL net w)) = aborted w
   /\ (forall title,
         aborted (snd (createNewChat PROD VITE_API_URL net title w)) = aborted w)
   /\ aborted (snd (getAllChats PROD VITE_API_URL net w)) = aborted w
   /\ (forall chatId,
         aborted (snd (getChatById PROD VITE_API_URL net chatId w)) = aborted w)
   /\ (forall chatId content,
         aborted (snd (saveMessage PROD VITE_API_URL net chatId content w)) = aborted w))
  /\ (let rq := with_signal (preferences_request PROD VITE_API_URL (storage w)) in
      late net rq 30000 ->
      timed_out (getUserPreferences PROD VITE_API_URL net timer_wins_tie w) rq w)
  /\ (forall preferences,
        let rq := with_signal (update_preferences_request PROD VITE_API_URL
                                 (storage w) preferences) in
        late net rq 30000 ->
        timed_out (updateUserPreferences PROD VITE_API_URL net timer_wins_tie
                     preferences w) rq w)
  /\ (forall topic,
        let rq := with_signal (add_topic_request PROD VITE_API_URL (storage w) topic) in
        late net rq 30000 ->
        timed_out (addMonitoringTopic PROD VITE_API_URL net timer_wins_tie topic w) rq w)
  /\ (forall topic,
        let rq := with_signal (remove_topic_request PROD VITE_API_URL
                                 (storage w) topic) in
        late net rq 30000 ->
        timed_out (removeMonitoringTopic PROD VITE_API_URL net timer_wins_tie
                     topic w) rq w).
Proof.
  split.
  - repeat split; intros.
    + apply registerUser_keeps.
    + apply loginUser_keeps.
    + apply getUserProfile_keeps.
    + apply getAIMemory_keeps.
    + apply createNewChat_keeps.
    + apply getAllChats_keeps.
    + apply getChatById_keeps.
    + apply saveMessage_keeps.
  - repeat split; intros; unfold timed_out,
      getUserPreferences, updateUserPreferences, addMonitoringTopic,
      removeMonitoringTopic, mbind, read_storage;
      now rewrite (fetchWithTimeout_late net timer_wins_tie _ None w).
Qed.

(** A network that answers the preferences request of an empty storage after
    45 seconds and nothing else: too late for the timer of that request. *)
Lemma timers_by_operation_witness :
  let net := fun rq =>
    if String.eqb (req_url rq) "/api/news/preferences"
    then Settles 45000 (Response 200 "{}") else NeverSettles in
  getUserPreferences false None net true empty_world
  = (Rejected (Error_ timeout_message),
     mkWorld ∅
       [with_signal (preferences_request false None ∅)]
       [with_signal (preferences_request false None ∅)]).
Proof.
  intros net.
  apply (proj1 (proj2 (timers_by_operation false None net true empty_world))).
  right. left. exists 45000, (Response 200 "{}"). split; [reflexivity | lia].
Defined.

(** ** The stored credential is updated as a pair *)

Lemma both_removed_idemp (st : Storage) : both_removed (both_removed st) = both_removed st.
Proof.
  unfold both_removed, removeItem. apply map_eq. intros k.
  rewrite !lookup_delete. repeat case_decide; reflexivity.
Qed.

Lemma kept_or_removed_trans (st1 st2 st3 : Storage) :
  kept_or_removed st1 st2 -> kept_or_removed st2 st3 -> kept_or_removed st1 st3.
Proof.
  intros [-> | ->] [-> | ->]; try (now left); try (now right).
  right. apply both_removed_idemp.
Qed.

Lemma kept_or_written_paired (st st' : Storage) :
  paired st -> kept_or_written st st' -> paired st'.
Proof.
  intros Hp [-> | (t & u & ->)]; [assumption |]. unfold paired, setItem.
  rewrite lookup_insert_ne by discriminate. rewrite !lookup_insert_eq.
  split; eauto.
Qed.

Lemma kept_or_removed_paired (st st' : Storage) :
  paired st -> kept_or_removed st st' -> paired st'.
Proof.
  intros Hp [-> | ->]; [assumption |]. unfold paired.
  change (removeItem "user" (removeItem "authToken" st)) with (both_removed st).
  rewrite (both_removed_token st), (both_removed_user st). tauto.
Qed.

Lemma storage_mret {A} (a : A) : keeps_storage (mret a).
Proof. intros w. reflexivity. Qed.

Lemma storage_mthrow {A} (e : error) : keeps_storage (@mthrow A e).
Proof. intros w. reflexivity. Qed.

Lemma storage_lift {A} (c : completion A) : keeps_storage (lift c).
Proof. destruct c; intros w; reflexivity. Qed.

Lemma storage_read : keeps_storage read_storage.
Proof. intros w. reflexivity. Qed.

Lemma storage_fetch (net : request -> network) (rq : request) :
  keeps_storage (fetch net rq).
Proof. intros w. unfold fetch. destruct (net rq) as [t [st b | e] | | t st]; reflexivity. Qed.

Lemma storage_mbind {A B} (m : M A) (k : A -> M B) :
  keeps_storage m -> (forall a, keeps_storage (k a)) -> keeps_storage (mbind m k).
Proof.
  intros Hm Hk w. unfold mbind. specialize (Hm w).
  destruct (m w) as [[a | e |] w1]; cbn in *; [| assumption ..].
  now rewrite Hk.
Qed.

Lemma storage_if {A} (b : bool) (m1 m2 : M A) :
  keeps_storage m1 -> keeps_storage m2 -> keeps_storage (if b then m1 else m2).
Proof. now destruct b. Qed.

#[local] Hint Resolve storage_mret storage_mthrow storage_lift storage_read
  storage_fetch storage_mbind storage_if : keeps.

Section Changes.
Context {A B : Type} (R : Storage -> Storage -> Prop).
Hypothesis R_refl : forall st, R st st.

Lemma keeps_changes (m : M A) : keeps_storage m -> changes_by R m.
Proof. intros Hm w. rewrite Hm. apply R_refl. Qed.

(** An operation that keeps the storage, followed by a change. *)
Lemma changes_after (m : M A) (k : A -> M B) :
  keeps_storage m -> (forall a, changes_by R (k a)) -> changes_by R (mbind m k).
Proof.
  intros Hm Hk w. unfold mbind. specialize (Hm w).
  destruct (m w) as [[a | e |] w1]; cbn in *;
    [| rewrite Hm; apply R_refl ..].
  rewrite <- Hm. apply Hk.
Qed.

(** A change, followed by an operation that keeps the storage. *)
Lemma changes_before (m : M A) (k : A -> M B) :
  changes_by R m -> (forall a, keeps_storage (k a)) -> changes_by R (mbind m k).
Proof.
  intros Hm Hk w. unfold mbind. specialize (Hm w).
  destruct (m w) as [[a | e |] w1]; cbn in *; [| assumption ..].
  now rewrite Hk.
Qed.
End Changes.

Lemma kept_or_written_refl (st : Storage) : kept_or_written st st.
Proof. now left. Qed.

Lemma kept_or_removed_refl (st : Storage) : kept_or_removed st st.
Proof. now left. Qed.

Section StoredCredential.
Context `{Platform}.
Variables (PROD : bool) (net : request -> network).

Lemma throw_server_error_storage {A} (error : json) (fallback : string) :
  keeps_storage (@throw_server_error _ A error fallback).
Proof.
  unfold throw_server_error.
  repeat (first [ apply storage_mbind; [| intros ? ] | apply storage_if
                | solve [ auto with keeps ] ]).
Qed.

Lemma response_json_storage (r : response) : keeps_storage (response_json r).
Proof. destruct r; [apply storage_lift | intros w; reflexivity]. Qed.

(** The two [setItem] calls happen together or not at all. *)
Lemma store_credentials_pair (data : json) :
  changes_by kept_or_written (store_credentials data).
Proof.
  intros w. unfold store_credentials, mbind.
  assert (Hnull : data = JNull \/ data <> JNull)
    by (destruct data; [now left | right; discriminate ..]).
  destruct Hnull as [-> | Hnn]; [now left |].
  rewrite !(get_prop_field _ _ Hnn). cbn [lift mret].
  destruct (truthy (field data "token")); [| now left].
  destruct (ToString (field data "token")) as [t | e]; [| now left].
  cbn. right. eauto.
Qed.

(** What follows the fetch in [registerUser] and [loginUser]. *)
Lemma credentials_tail_pair (response : response) (fallback : string) :
  changes_by kept_or_written
    ((if negb (ok response) then
        error <- response_json response ;;
        throw_server_error error fallback
      else mret tt) ;;;
     data <- response_json response ;;
     store_credentials data ;;;
     mret data)%M.
Proof.
  apply changes_after; [apply kept_or_written_refl | |].
  { apply storage_if; [| apply storage_mret].
    apply storage_mbind; [apply response_json_storage | intros error].
    apply throw_server_error_storage. }
  intros _. apply changes_after;
    [apply kept_or_written_refl | apply response_json_storage | intros data].
  apply changes_before; [apply store_credentials_pair | intros _; apply storage_mret].
Qed.

Lemma registerUser_pair (email password username : string) :
  changes_by kept_or_written (registerUser PROD net email password username).
Proof.
  unfold registerUser.
  apply changes_after; [apply kept_or_written_refl | apply storage_fetch |].
  intros response. apply credentials_tail_pair.
Qed.

Lemma loginUser_pair (email password : string) :
  changes_by kept_or_written (loginUser PROD net email password).
Proof.
  unfold loginUser.
  apply changes_after; [apply kept_or_written_refl | apply storage_fetch |].
  intros response. apply credentials_tail_pair.
Qed.

(** On a 401 the two [removeItem] calls happen together. *)
Lemma getUserProfile_pair : changes_by kept_or_removed (getUserProfile PROD net).
Proof.
  unfold getUserProfile.
  apply changes_after; [apply kept_or_removed_refl | apply storage_read |].
  intros st.
  destruct (getItem "authToken" st) as [token |];
    [| apply keeps_changes; [apply kept_or_removed_refl | apply storage_mthrow]].
  destruct (negb (truthy_string token));
    [apply keeps_changes; [apply kept_or_removed_refl | apply storage_mthrow] |].
  apply changes_after; [apply kept_or_removed_refl | apply storage_fetch |].
  intros response.
  apply changes_before;
    [| intros _; apply storage_mbind;
                 [apply response_json_storage | intros; apply storage_mret]].
  destruct (negb (ok response));
    [| apply keeps_changes; [apply kept_or_removed_refl | apply storage_mret]].
  destruct (status response =? 401);
    [| apply keeps_changes; [apply kept_or_removed_refl | apply storage_mthrow]].
  intros w. cbn. now right.
Qed.

Lemma isAuthenticated_pair (now_ms : Z) (st : Storage) :
  kept_or_removed st (snd (isAuthenticated now_ms st)).
Proof.
  unfold isAuthenticated.
  destruct (getItem "authToken" st) as [token |]; [| now left].
  destruct (negb (truthy_string token)); [now left |].
  destruct (token_expired token now_ms) as [[|] | e]; cbn;
    first [ now left | now right ].
Qed.

Lemma initializeAuth_pair (now_ms : Z) (a : auth_state) (w : world) :
  kept_or_removed (storage w) (storage (snd (initializeAuth PROD net now_ms a w))).
Proof.
  unfold initializeAuth.
  pose proof (isAuthenticated_pair now_ms (storage w)) as Hauth.
  destruct (isAuthenticated now_ms (storage w)) as [authed st1]. cbn in Hauth.
  destruct authed; [| exact Hauth].
  destruct (getStoredUser st1) as [storedUser | e]; [| exact Hauth].
  destruct (truthy (Some storedUser)); [| exact Hauth].
  pose proof (getUserProfile_pair (with_storage st1 w)) as Hprofile.
  destruct (getUserProfile PROD net (with_storage st1 w)) as [[profile | e |] w2];
    cbn in Hprofile |- *.
  - exact (kept_or_removed_trans _ _ _ Hauth Hprofile).
  - apply (kept_or_removed_trans _ _ _ Hauth).
    apply (kept_or_removed_trans _ _ _ Hprofile). now right.
  - exact (kept_or_removed_trans _ _ _ Hauth Hprofile).
Qed.

Lemma run_op_pair (op : storage_op) (w : world) :
  match op with
  | OpRegister _ _ _ | OpLogin _ _ =>
      kept_or_written (storage w) (storage (run_op PROD net op w))
  | _ => kept_or_removed (storage w) (storage (run_op PROD net op w))
  end.
Proof.
  destruct op; cbn [run_op].
  - apply registerUser_pair.
  - apply loginUser_pair.
  - apply getUserProfile_pair.
  - now right.
  - apply isAuthenticated_pair.
  - apply initializeAuth_pair.
Qed.
End StoredCredential.

(** Two computations that agree step by step agree. *)
Lemma mbind_ext {A B} (m m' : M A) (k k' : A -> M B) (w : world) :
  (forall w0, m w0 = m' w0) -> (forall a w0, k a w0 = k' a w0) ->
  mbind m k w = mbind m' k' w.
Proof.
  intros Hm Hk. unfold mbind. rewrite Hm.
  destruct (m' w) as [[a | e |] w1]; [apply Hk | reflexivity ..].
Qed.

Section Accepted.
Context `{Platform}.
Variable accepts : string -> string -> Storage -> bool.
Hypothesis accepted : forall k v st, accepts k v st = true.
Variables (PROD : bool) (net : request -> network).

(** On a storage that accepts every write, the operations are the ones
    defined with [update_storage]. *)
Lemma setItem_accepted (k v : string) (w : world) :
  Quota.setItem accepts k v w = update_storage (setItem k v) w.
Proof. unfold Quota.setItem. now rewrite accepted. Qed.

Lemma store_credentials_accepted (data : json) (w : world) :
  Quota.store_credentials accepts data w = store_credentials data w.
Proof.
  unfold Quota.store_credentials, store_credentials.
  apply mbind_ext; [reflexivity | intros token w1].
  destruct (truthy token); [| reflexivity].
  apply mbind_ext; [reflexivity | intros t w2].
  apply mbind_ext; [apply setItem_accepted | intros _ w3].
  apply mbind_ext; [reflexivity | intros u w4].
  apply setItem_accepted.
Qed.

Lemma registerUser_accepted (email password username : string) (w : world) :
  Quota.registerUser accepts PROD net email password username w
  = registerUser PROD net email password username w.
Proof.
  unfold Quota.registerUser, registerUser.
  apply mbind_ext; [reflexivity | intros response w1].
  apply mbind_ext; [reflexivity | intros _ w2].
  apply mbind_ext; [reflexivity | intros data w3].
  apply mbind_ext; [apply store_credentials_accepted | reflexivity].
Qed.

Lemma loginUser_accepted (email password : string) (w : world) :
  Quota.loginUser accepts PROD net email password w
  = loginUser PROD net email password w.
Proof.
  unfold Quota.loginUser, loginUser.
  apply mbind_ext; [reflexivity | intros response w1].
  apply mbind_ext; [reflexivity | intros _ w2].
  apply mbind_ext; [reflexivity | intros data w3].
  apply mbind_ext; [apply store_credentials_accepted | reflexivity].
Qed.

Lemma run_op_accepted (op : storage_op) (w : world) :
  run_op_quota accepts PROD net op w = run_op PROD net op w.
Proof.
  destruct op; cbn [run_op_quota run_op]; try reflexivity.
  - now rewrite registerUser_accepted.
  - now rewrite loginUser_accepted.
Qed.
End Accepted.

(** C7, as stated, fails: the two [setItem] calls of [registerUser] are two
    statements, and the second can throw.  Against a browser that has room
    for the token and none for the user, a registration from an empty storage
    ends with [authToken] present and [user] absent. *)
Lemma registerUser_second_write_refused :
  ~ (forall (P : Platform) (accepts : string -> string -> Storage -> bool)
            (PROD : bool) (net : request -> network) (op : storage_op) (w : world),
        paired (storage w) -> paired (storage (run_op_quota accepts PROD net op w))).
Proof.
  intros Hclaim.
  specialize (Hclaim reference_platform accepts_token_only false
                (always 80 201 (register_body token_without_exp))
                (OpRegister "a@b.com" "secret" "ann") empty_world).
  assert (Hrun : storage (run_op_quota accepts_token_only false
                            (always 80 201 (register_body token_without_exp))
                            (OpRegister "a@b.com" "secret" "ann") empty_world)
                 = <["authToken" := token_without_exp]> ∅)
    by (vm_compute; reflexivity).
  rewrite Hrun in Hclaim.
  assert (Hempty : paired (storage empty_world))
    by (unfold paired; cbn; rewrite !lookup_empty; tauto).
  destruct (Hclaim Hempty) as [Huser _].
  rewrite lookup_insert_eq, lookup_insert_ne, lookup_empty in Huser by discriminate.
  destruct Huser as [u Hu]; [eauto | discriminate Hu].
Qed.

(** C7, amended. On a storage that accepts every write, the stored
    credential is never updated in part.  [registerUser] and [loginUser]
    leave the storage as it was or write both keys [authToken] and [user];
    [getUserProfile] (on a 401), [logoutUser], [isAuthenticated] (on an
    expired or undecodable token) and [initializeAuth] leave it as it was or
    remove both keys.  Hence, from a storage where the two keys are both
    present or both absent, every sequence of these operations, against any
    network, ends in such a storage. *)
Theorem stored_credential_paired `{Platform}
    (accepts : string -> string -> Storage -> bool) :
  (forall k v st, accepts k v st = true) ->
  (forall (PROD : bool) (net : request -> network) (op : storage_op) (w : world),
      match op with
      | OpRegister _ _ _ | OpLogin _ _ =>
          kept_or_written (storage w) (storage (run_op_quota accepts PROD net op w))
      | _ => kept_or_removed (storage w) (storage (run_op_quota accepts PROD net op w))
      end)
  /\ (forall (w0 w : world),
        paired (storage w0) -> reachable_quota accepts w0 w -> paired (storage w)).
Proof.
  intros Haccepts.
  assert (Hstep : forall PROD net op w,
             match op with
             | OpRegister _ _ _ | OpLogin _ _ =>
                 kept_or_written (storage w) (storage (run_op_quota accepts PROD net op w))
             | _ =>
                 kept_or_removed (storage w) (storage (run_op_quota accepts PROD net op w))
             end).
  { intros PROD net op w. rewrite (run_op_accepted accepts Haccepts).
    apply run_op_pair. }
  split; [exact Hstep |].
  intros w0 w Hp Hreach. induction Hreach as [| PROD net op w Hreach IH].
  - exact Hp.
  - specialize (Hstep PROD net op w).
    destruct op;
      first [ exact (kept_or_written_paired _ _ IH Hstep)
            | exact (kept_or_removed_paired _ _ IH Hstep) ].
Qed.

Lemma stored_credential_paired_witness :
  paired (storage
            (run_op_quota (fun _ _ _ => true) false silent OpLogout
               (run_op_quota (fun _ _ _ => true) false
                  (always 80 201 (register_body token_without_exp))
                  (OpRegister "a@b.com" "secret" "ann") empty_world))).
Proof.
  apply (proj2 (@stored_credential_paired reference_platform (fun _ _ _ => true)
                  (fun _ _ _ => eq_refl)) empty_world).
  - unfold paired. cbn. rewrite !lookup_empty. tauto.
  - apply reach_quota_step, reach_quota_step, reach_quota_refl.
Defined.


(** * Further properties of the code *)

(** ** auth-service.js *)

Section Credentials.
Context `{Platform}.
Variables (PROD : bool) (net : request -> network).

(** What [registerUser] and [loginUser] do once the response is there. *)
Lemma credentials_tail_success (st0 : Z) (b0 : string) (fallback : string)
    (data : json) (token : string) (w : world) :
  ok (mkResponse st0 b0) = true ->
  JSON_parse b0 = Some data ->
  field data "token" = Some (JStr token) ->
  token <> "" ->
  ((if negb (ok (mkResponse st0 b0)) then
      error <- response_json (mkResponse st0 b0) ;;
      throw_server_error error fallback
    else mret tt) ;;;
   data <- response_json (mkResponse st0 b0) ;;
   store_credentials data ;;;
   mret data)%M w
  = (Fulfilled data,
     mkWorld (setItem "user" (js_JSON_stringify (field data "user"))
                (setItem "authToken" token (storage w)))
       (issued w) (aborted w)).
Proof.
  intros Hok Hp Htok Hne.
  pose proof (field_Some_not_null _ _ _ Htok) as Hnn.
  assert (Htruthy : truthy (Some (JStr token)) = true)
    by (simpl; apply (truthy_string_true _ Hne)).
  unfold mbind, response_json, js_JSON_parse, store_credentials, mbind.
  rewrite Hok, Hp. cbn [negb mret lift].
  rewrite !(get_prop_field _ _ Hnn), Htok. cbn [mret lift].
  rewrite Htruthy. reflexivity.
Qed.

Lemma credentials_tail_failure (st0 : Z) (b0 : string) (fallback : string) (w : world) :
  ok (mkResponse st0 b0) = false ->
  ((if negb (ok (mkResponse st0 b0)) then
      error <- response_json (mkResponse st0 b0) ;;
      throw_server_error error fallback
    else mret tt) ;;;
   data <- response_json (mkResponse st0 b0) ;;
   store_credentials data ;;;
   mret data)%M w
  = match JSON_parse b0 with
    | None => (Rejected (SyntaxError_ "Unexpected token in JSON"), w)
    | Some JNull => (Rejected (TypeError_ "Cannot read properties of null"), w)
    | Some error =>
        if truthy (field error "error") then
          match ToString (field error "error") with
          | Return msg => (Rejected (Error_ msg), w)
          | Throw e => (Rejected e, w)
          end
        else (Rejected (Error_ fallback), w)
    end.
Proof.
  intros Hok. unfold mbind, response_json, js_JSON_parse, throw_server_error, mbind.
  rewrite Hok. cbn [negb].
  destruct (JSON_parse b0) as [error |]; [| reflexivity].
  destruct error; cbn [lift mret mthrow get_prop]; try reflexivity;
    match goal with
    | |- context [truthy ?v] => destruct (truthy v); cbn [lift mret mthrow]
    end;
    try reflexivity;
    match goal with
    | |- context [ToString ?v] => destruct (ToString v); reflexivity
    end.
Qed.

Lemma registerUser_on_failure (email password username : string) (w : world)
    (t st : Z) (b : string) :
  net (register_request PROD email password username) = Settles t (Response st b) ->
  ~ (200 <= st <= 299) ->
  registerUser PROD net email password username w
  = failure_result "Registration failed" b
      (mkWorld (storage w)
         (issued w ++ [register_request PROD email password username]) (aborted w)).
Proof.
  intros Hnet Hnok. unfold registerUser. unfold mbind at 1. unfold fetch.
  rewrite Hnet.
  exact (credentials_tail_failure st b _ _ (ok_false _ _ Hnok)).
Qed.

Lemma loginUser_on_failure (email password : string) (w : world)
    (t st : Z) (b : string) :
  net (login_request PROD email password) = Settles t (Response st b) ->
  ~ (200 <= st <= 299) ->
  loginUser PROD net email password w
  = failure_result "Login failed" b
      (mkWorld (storage w) (issued w ++ [login_request PROD email password])
         (aborted w)).
Proof.
  intros Hnet Hnok. unfold loginUser. unfold mbind at 1. unfold fetch.
  rewrite Hnet.
  exact (credentials_tail_failure st b _ _ (ok_false _ _ Hnok)).
Qed.

Lemma failure_result_object (fallback b : string) (w : world)
    (fields : list (string * json)) :
  JSON_parse b = Some (JObj fields) ->
  storage (snd (failure_result fallback b w)) = storage w
  /\ (forall msg, lookup_field "error" fields = Some (JStr msg) -> msg <> "" ->
        fst (failure_result fallback b w) = Rejected (Error_ msg))
  /\ (truthy (lookup_field "error" fields) = false ->
        fst (failure_result fallback b w) = Rejected (Error_ fallback)).
Proof.
  intros Hp. unfold failure_result. rewrite Hp. cbn [field]. repeat split.
  - destruct (truthy (lookup_field "error" fields)); [| reflexivity].
    destruct (ToString (lookup_field "error" fields)); reflexivity.
  - intros msg Hmsg Hne.
    assert (Ht : truthy (Some (JStr msg)) = true)
      by (simpl; apply (truthy_string_true _ Hne)).
    now rewrite Hmsg, Ht.
  - intros Hfalsy. now rewrite Hfalsy.
Qed.
End Credentials.



(** X2. When the response to [registerUser] or [loginUser] has a failure
    status and a body that parses to an object, the call is rejected with the
    server's message when the [error] field is a non-empty string, and with
    the fallback message of the operation when the field is absent or falsy;
    the storage is left as it was. *)
Theorem credentials_failure_message `{Platform} (PROD : bool)
    (net : request -> network) (w : world) (email password username : string)
    (t st : Z) (b : string) (fields : list (string * json)) :
  ~ (200 <= st <= 299) ->
  JSON_parse b = Some (JObj fields) ->
  (net (register_request PROD email password username) = Settles t (Response st b) ->
   storage (snd (registerUser PROD net email password username w)) = storage w
   /\ (forall msg, lookup_field "error" fields = Some (JStr msg) -> msg <> "" ->
         fst (registerUser PROD net email password username w) = Rejected (Error_ msg))
   /\ (truthy (lookup_field "error" fields) = false ->
         fst (registerUser PROD net email password username w)
         = Rejected (Error_ "Registration failed")))
  /\ (net (login_request PROD email password) = Settles t (Response st b) ->
      storage (snd (loginUser PROD net email password w)) = storage w
      /\ (forall msg, lookup_field "error" fields = Some (JStr msg) -> msg <> "" ->
            fst (loginUser PROD net email password w) = Rejected (Error_ msg))
      /\ (truthy (lookup_field "error" fields) = false ->
            fst (loginUser PROD net email password w) = Rejected (Error_ "Login failed"))).
Proof.
  intros Hnok Hp. split; intros Hnet.
  - rewrite (registerUser_on_failure PROD net _ _ _ w t st b Hnet Hnok).
    pose proof (failure_result_object "Registration failed" b
      (mkWorld (storage w)
         (issued w ++ [register_request PROD email password username]) (aborted w))
      fields Hp) as Hres.
    exact Hres.
  - rewrite (loginUser_on_failure PROD net _ _ w t st b Hnet Hnok).
    exact (failure_result_object "Login failed" b
      (mkWorld (storage w) (issued w ++ [login_request PROD email password]) (aborted w))
      fields Hp).
Qed.

Lemma credentials_failure_message_witness :
  let b := Ref.JSON_stringify (JObj [("error", JStr "Email already registered")]) in
  fst (registerUser false (always 60 409 b) "a@b.com" "secret" "ann" empty_world)
    = Rejected (Error_ "Email already registered")
  /\ fst (loginUser false (always 60 401 "{}") "a@b.com" "secret" empty_world)
     = Rejected (Error_ "Login failed").
Proof.
  split.
  - destruct (credentials_failure_message false
                (always 60 409 (Ref.JSON_stringify
                                  (JObj [("error", JStr "Email already registered")])))
                empty_world "a@b.com" "secret" "ann" 60 409
                (Ref.JSON_stringify (JObj [("error", JStr "Email already registered")]))
                [("error", JStr "Email already registered")])
      as [Hreg _]; [lia | reflexivity |].
    destruct (Hreg eq_refl) as (_ & Hmsg & _).
    apply Hmsg; [reflexivity | discriminate].
  - destruct (credentials_failure_message false (always 60 401 "{}")
                empty_world "a@b.com" "secret" "ann" 60 401 "{}" [])
      as [_ Hlog]; [lia | reflexivity |].
    destruct (Hlog eq_refl) as (_ & _ & Hfallback).
    apply Hfallback. reflexivity.
Defined.

(** X3. When the body of a failure response is not JSON (an HTML error page,
    an empty body), [registerUser] and [loginUser] are rejected by the parse
    error, not by the fallback message of the operation, and the storage is
    left as it was. *)
Theorem credentials_failure_unparsable `{Platform} (PROD : bool)
    (net : request -> network) (w : world) (email password username : string)
    (t st : Z) (b : string) :
  ~ (200 <= st <= 299) ->
  JSON_parse b = None ->
  (net (register_request PROD email password username) = Settles t (Response st b) ->
   exists e w',
     registerUser PROD net email password username w = (Rejected e, w')
     /\ err_name e = "SyntaxError" /\ e <> Error_ "Registration failed"
     /\ storage w' = storage w)
  /\ (net (login_request PROD email password) = Settles t (Response st b) ->
      exists e w',
        loginUser PROD net email password w = (Rejected e, w')
        /\ err_name e = "SyntaxError" /\ e <> Error_ "Login failed"
        /\ storage w' = storage w).
Proof.
  intros Hnok Hp. split; intros Hnet.
  - rewrite (registerUser_on_failure PROD net _ _ _ w t st b Hnet Hnok).
    unfold failure_result. rewrite Hp. eexists _, _.
    split; [reflexivity |]. repeat split. discriminate.
  - rewrite (loginUser_on_failure PROD net _ _ w t st b Hnet Hnok).
    unfold failure_result. rewrite Hp. eexists _, _.
    split; [reflexivity |]. repeat split. discriminate.
Qed.

Lemma credentials_failure_unparsable_witness :
  exists e w',
    loginUser false (always 60 502 "<html>Bad Gateway</html>") "a@b.com" "secret"
      empty_world = (Rejected e, w')
    /\ err_name e = "SyntaxError" /\ e <> Error_ "Login failed"
    /\ storage w' = storage empty_world.
Proof.
  destruct (credentials_failure_unparsable false
              (always 60 502 "<html>Bad Gateway</html>") empty_world
              "a@b.com" "secret" "ann" 60 502 "<html>Bad Gateway</html>")
    as [_ Hlog]; [lia | reflexivity |].
  exact (Hlog eq_refl).
Defined.

(** X4. On a 401 response [getUserProfile] is rejected with
    [Session expired], removes the two keys [authToken] and [user], and
    leaves every other key of the storage as it was. *)
Theorem getUserProfile_session_expired `{Platform} (PROD : bool)
    (net : request -> network) (w : world) (token : string) (t : Z) (b : string) :
  getItem "authToken" (storage w) = Some token ->
  token <> "" ->
  net (profile_request PROD token) = Settles t (Response 401 b) ->
  fst (getUserProfile PROD net w) = Rejected (Error_ "Session expired")
  /\ storage (snd (getUserProfile PROD net w)) !! "authToken" = None
  /\ storage (snd (getUserProfile PROD net w)) !! "user" = None
  /\ (forall k, k <> "authToken" -> k <> "user" ->
        storage (snd (getUserProfile PROD net w)) !! k = storage w !! k).
Proof.
  intros Hst Hne Hnet.
  assert (Hrun : getUserProfile PROD net w
          = (Rejected (Error_ "Session expired"),
             mkWorld (both_removed (storage w))
               (issued w ++ [profile_request PROD token]) (aborted w))).
  { unfold getUserProfile, mbind, read_storage.
    rewrite Hst, (truthy_string_true _ Hne). unfold fetch. rewrite Hnet.
    reflexivity. }
  rewrite Hrun. cbn [fst snd storage]. repeat split.
  - apply both_removed_token.
  - apply both_removed_user.
  - intros k Ht Hu. unfold both_removed, removeItem.
    rewrite !lookup_delete_ne by congruence. reflexivity.
Qed.

Lemma getUserProfile_session_expired_witness :
  fst (getUserProfile false (always 90 401 "")
         (mkWorld (stored token_exp_1700000000) [] []))
    = Rejected (Error_ "Session expired")
  /\ storage (snd (getUserProfile false (always 90 401 "")
                     (mkWorld (stored token_exp_1700000000) [] []))) = ∅.
Proof.
  destruct (getUserProfile_session_expired false (always 90 401 "")
              (mkWorld (stored token_exp_1700000000) [] [])
              token_exp_1700000000 90 "") as (Hres & _);
    [reflexivity | discriminate | reflexivity |].
  split; [exact Hres | vm_compute; reflexivity].
Defined.

(** Without a token in the storage (no [authToken] key, or an empty
    string under it) [getUserProfile] is rejected with
    [No authentication token] before any request is issued: the world is left
    exactly as it was. *)
Theorem getUserProfile_without_token `{Platform} (PROD : bool)
    (net : request -> network) (w : world) :
  (getItem "authToken" (storage w) = None
   \/ getItem "authToken" (storage w) = Some "") ->
  getUserProfile PROD net w = (Rejected (Error_ "No authentication token"), w).
Proof.
  intros [Hnone | Hempty]; unfold getUserProfile, mbind, read_storage.
  - now rewrite Hnone.
  - now rewrite Hempty.
Qed.

Lemma getUserProfile_without_token_witness :
  getUserProfile false (always 90 200 "{}") empty_world
  = (Rejected (Error_ "No authentication token"), empty_world).
Proof.
  apply (getUserProfile_without_token false (always 90 200 "{}") empty_world).
  left. reflexivity.
Defined.

Lemma isAuthenticated_after_removal `{Platform} (now_ms : Z) (st : Storage) :
  isAuthenticated now_ms (removeItem "user" (removeItem "authToken" st))
  = (false, removeItem "user" (removeItem "authToken" st)).
Proof.
  unfold isAuthenticated, getItem.
  change (removeItem "user" (removeItem "authToken" st)) with (both_removed st).
  now rewrite (both_removed_token st).
Qed.

(** X5. [isAuthenticated] is idempotent: a second call at the same instant
    returns what the first call returned and changes nothing more. *)
Theorem isAuthenticated_idempotent `{Platform} (now_ms : Z) (st : Storage) :
  isAuthenticated now_ms (snd (isAuthenticated now_ms st)) = isAuthenticated now_ms st.
Proof.
  unfold isAuthenticated at 2 3.
  destruct (getItem "authToken" st) as [token |] eqn:Hst.
  - destruct (negb (truthy_string token)) eqn:Hfalsy.
    + cbn [snd]. unfold isAuthenticated. now rewrite Hst, Hfalsy.
    + destruct (token_expired token now_ms) as [[|] | e] eqn:Hexp; cbn [snd].
      * apply isAuthenticated_after_removal.
      * unfold isAuthenticated. now rewrite Hst, Hfalsy, Hexp.
      * apply isAuthenticated_after_removal.
  - cbn [snd]. unfold isAuthenticated. now rewrite Hst.
Qed.

(** The clock of the code, [Date.now() / 1000] as a double, does not go
    back: rounding is monotone. *)
Lemma num_lt_later (x : jsnum) (t1 t2 : Z) :
  t1 <= t2 ->
  num_lt x (Fin (binary64 (t1 # 1000))) = true ->
  num_lt x (Fin (binary64 (t2 # 1000))) = true.
Proof.
  intros Hle. destruct x as [| q | |]; cbn [num_lt]; try easy.
  destruct (Qcompare q (binary64 (t1 # 1000))) eqn:Hc; try discriminate. intros _.
  assert (Hlt : (q < binary64 (t2 # 1000))%Q).
  { apply Qlt_le_trans with (binary64 (t1 # 1000)); [now apply Qlt_alt |].
    apply binary64_le. unfold Qle. cbn. lia. }
  now rewrite (proj1 (Qlt_alt _ _) Hlt).
Qed.

Lemma token_expired_later `{Platform} (token : string) (t1 t2 : Z) :
  t1 <= t2 ->
  token_expired token t1 <> Return false ->
  token_expired token t2 <> Return false.
Proof.
  intros Hle. unfold token_expired.
  destruct (js_atob (index_as_string (split "." token) 1)) as [decoded | e];
    [| easy].
  cbn [cbind]. destruct (js_JSON_parse decoded) as [payload | e]; [| easy].
  cbn [cbind]. destruct (get_prop payload "exp") as [exp | e]; [| easy].
  cbn [cbind]. unfold js_lt. destruct (ToNumber exp) as [x | e]; [| easy].
  cbn [cbind]. intros H1.
  destruct (num_lt x (Fin (binary64 (t1 # 1000)))) eqn:Hlt; [| congruence].
  now rewrite (num_lt_later x t1 t2 Hle Hlt).
Qed.

(** X6. A rejection does not depend on waiting: when [isAuthenticated]
    returns [false] at some instant, it returns [false] at every later
    instant on the same storage. *)
Theorem isAuthenticated_rejection_is_final `{Platform} (t1 t2 : Z) (st : Storage) :
  t1 <= t2 ->
  fst (isAuthenticated t1 st) = false ->
  fst (isAuthenticated t2 st) = false.
Proof.
  intros Hle. unfold isAuthenticated.
  destruct (getItem "authToken" st) as [token |]; [| easy].
  destruct (negb (truthy_string token)); [easy |].
  pose proof (token_expired_later token t1 t2 Hle) as Hlater.
  destruct (token_expired token t1) as [[|] | e];
    destruct (token_expired token t2) as [[|] | e']; cbn; try easy;
    intros _; exfalso; apply Hlater; easy.
Qed.

Lemma isAuthenticated_rejection_is_final_witness :
  fst (isAuthenticated 1900000000000 (stored token_exp_1700000000)) = false.
Proof.
  apply (isAuthenticated_rejection_is_final 1800000000000 1900000000000
           (stored token_exp_1700000000)).
  - lia.
  - reflexivity.
Defined.

(** X7. The operations on the credential touch the keys [authToken] and
    [user] only: every other key of the storage is left as it was by
    [registerUser], [loginUser], [getUserProfile], [logoutUser],
    [isAuthenticated] and [initializeAuth]. *)
Theorem other_keys_untouched `{Platform} (PROD : bool) (net : request -> network)
    (op : storage_op) (w : world) (k : string) :
  k <> "authToken" ->
  k <> "user" ->
  storage (run_op PROD net op w) !! k = storage w !! k.
Proof.
  intros Ht Hu. pose proof (run_op_pair PROD net op w) as Hstep.
  assert (Hw : forall st', kept_or_written (storage w) st' -> st' !! k = storage w !! k).
  { intros st' [-> | (t & u & ->)]; [reflexivity |]. unfold setItem.
    rewrite !lookup_insert_ne by congruence. reflexivity. }
  assert (Hr : forall st', kept_or_removed (storage w) st' -> st' !! k = storage w !! k).
  { intros st' [-> | ->]; [reflexivity |]. unfold removeItem.
    rewrite !lookup_delete_ne by congruence. reflexivity. }
  destruct op; auto.
Qed.

Lemma other_keys_untouched_witness :
  storage (run_op false (always 90 401 "") OpGetUserProfile
             (mkWorld (<["theme" := "dark"]> (stored token_exp_1700000000)) [] []))
    !! "theme" = Some "dark".
Proof.
  rewrite (other_keys_untouched false (always 90 401 "") OpGetUserProfile
             (mkWorld (<["theme" := "dark"]> (stored token_exp_1700000000)) [] [])
             "theme").
  - reflexivity.
  - discriminate.
  - discriminate.
Defined.

(** ** AuthContext.jsx and App.jsx *)

(** X8. [logout] followed by [initializeAuth] ends unauthenticated without
    any request being issued: the user is [null], [loading] is false, the
    login page is rendered, and the two keys are absent. *)
Theorem logout_then_initializeAuth `{Platform} (PROD : bool)
    (net : request -> network) (now_ms : Z) (a : auth_state) (w : world) :
  let '(a1, w1) := logout a w in
  initializeAuth PROD net now_ms a1 w1 = (Fulfilled tt, mkAuth (Some JNull) false, w1)
  /\ issued w1 = issued w
  /\ AppContent (mkAuth (Some JNull) false) = LoginPage
  /\ storage w1 !! "authToken" = None
  /\ storage w1 !! "user" = None.
Proof.
  unfold logout. repeat split.
  - unfold initializeAuth. cbn [storage with_storage]. unfold logoutUser.
    rewrite isAuthenticated_after_removal. reflexivity.
  - apply both_removed_token.
  - apply both_removed_user.
Qed.

(** [getUserProfile] with a token in the storage, by what the network does. *)
Lemma getUserProfile_with_token `{Platform} (PROD : bool) (net : request -> network)
    (w : world) (token : string) :
  getItem "authToken" (storage w) = Some token ->
  token <> "" ->
  let w1 := mkWorld (storage w) (issued w ++ [profile_request PROD token]) (aborted w) in
  getUserProfile PROD net w =
    match net (profile_request PROD token) with
    | NeverSettles => (Pending, w1)
    | Settles _ (NetworkError e) => (Rejected e, w1)
    | Settles _ (Response st b) =>
        if ok (mkResponse st b) then
          match JSON_parse b with
          | Some data => (Fulfilled data, w1)
          | None => (Rejected (SyntaxError_ "Unexpected token in JSON"), w1)
          end
        else if st =? 401 then
          (Rejected (Error_ "Session expired"),
           mkWorld (both_removed (storage w)) (issued w1) (aborted w1))
        else (Rejected (Error_ "Failed to fetch profile"), w1)
    | Stalls _ st =>
        if ok (mkStalled st) then (Pending, w1)
        else if st =? 401 then
          (Rejected (Error_ "Session expired"),
           mkWorld (both_removed (storage w)) (issued w1) (aborted w1))
        else (Rejected (Error_ "Failed to fetch profile"), w1)
    end.
Proof.
  intros Hst Hne w1. unfold getUserProfile, mbind, read_storage.
  rewrite Hst, (truthy_string_true _ Hne). unfold fetch.
  destruct (net (profile_request PROD token)) as [t [st b | e] | | t st];
    try reflexivity.
  - destruct (ok (mkResponse st b)); cbn [negb status].
    + unfold response_json, js_JSON_parse. cbn [mret].
      destruct (JSON_parse b); reflexivity.
    + destruct (st =? 401); reflexivity.
  - destruct (ok (mkStalled st)); cbn [negb status].
    + reflexivity.
    + destruct (st =? 401); reflexivity.
Qed.

(** X9. When the token is accepted, a user is stored and the verification
    succeeds, [initializeAuth] completes with the profile of the response as
    the user (not the stored one), [loading] false, the storage as it was and
    the profile request as the only request; the main screen is rendered
    exactly when that profile is truthy. *)
Theorem initializeAuth_verified `{Platform} (PROD : bool)
    (net : request -> network) (now_ms : Z) (a : auth_state) (w : world)
    (token : string) (storedUser profile : json) (t st : Z) (b : string) :
  getItem "authToken" (storage w) = Some token ->
  fst (isAuthenticated now_ms (storage w)) = true ->
  getStoredUser (storage w) = Return storedUser ->
  truthy (Some storedUser) = true ->
  net (profile_request PROD token) = Settles t (Response st b) ->
  200 <= st <= 299 ->
  JSON_parse b = Some profile ->
  initializeAuth PROD net now_ms a w
  = (Fulfilled tt, mkAuth (Some profile) false,
     mkWorld (storage w) (issued w ++ [profile_request PROD token]) (aborted w))
  /\ (AppContent (mkAuth (Some profile) false) = MainChatArea
      <-> truthy (Some profile) = true).
Proof.
  intros Hst Hauth Huser Htruthy Hnet Hok Hp.
  destruct (isAuthenticated_true _ _ Hauth) as [Hrun (token' & Hst' & Hne)].
  assert (token' = token) by congruence. subst token'.
  split.
  - unfold initializeAuth. rewrite Hrun, with_storage_id, Huser, Htruthy.
    rewrite (getUserProfile_with_token PROD net w token Hst Hne), Hnet.
    rewrite (ok_true _ _ Hok), Hp. reflexivity.
  - unfold AppContent, ctx_isAuthenticated. cbn [loading user].
    destruct (truthy (Some profile)); cbn; split; congruence.
Qed.

Lemma initializeAuth_verified_witness :
  initializeAuth false (always 70 200 (Ref.JSON_stringify sample_user)) 1600000000000
    auth_initial (mkWorld (stored token_exp_1700000000) [] [])
  = (Fulfilled tt, mkAuth (Some sample_user) false,
     mkWorld (stored token_exp_1700000000)
       [profile_request false token_exp_1700000000] []).
Proof.
  apply (initializeAuth_verified false (always 70 200 (Ref.JSON_stringify sample_user))
           1600000000000 auth_initial (mkWorld (stored token_exp_1700000000) [] [])
           token_exp_1700000000 sample_user sample_user 70 200
           (Ref.JSON_stringify sample_user)).
  - reflexivity.
  - reflexivity.
  - reflexivity.
  - reflexivity.
  - reflexivity.
  - lia.
  - reflexivity.
Defined.


(** [initializeAuth] issues at most one request, and that request is
    the profile request carrying the stored token; it never aborts a
    request. *)
Theorem initializeAuth_requests `{Platform} (PROD : bool)
    (net : request -> network) (now_ms : Z) (a : auth_state) (w : world) :
  let w' := snd (initializeAuth PROD net now_ms a w) in
  aborted w' = aborted w
  /\ (issued w' = issued w
      \/ exists token, getItem "authToken" (storage w) = Some token
                       /\ issued w' = (issued w ++ [profile_request PROD token])%list).
Proof.
  unfold initializeAuth.
  destruct (isAuthenticated now_ms (storage w)) as [authed st1] eqn:Hauth.
  destruct authed; [| now split; [| left]].
  assert (Hfst : fst (isAuthenticated now_ms (storage w)) = true) by now rewrite Hauth.
  destruct (isAuthenticated_true _ _ Hfst) as [Hrun (token & Hst & Hne)].
  assert (st1 = storage w) by congruence. subst st1.
  rewrite with_storage_id.
  destruct (getStoredUser (storage w)) as [storedUser | e]; [| now split; [| left]].
  destruct (truthy (Some storedUser)); [| now split; [| left]].
  rewrite (getUserProfile_with_token PROD net w token Hst Hne).
  destruct (net (profile_request PROD token)) as [t [st b | e] | | t st].
  - destruct (ok (mkResponse st b)).
    + destruct (JSON_parse b); cbn; split; eauto.
    + destruct (st =? 401); cbn; split; eauto.
  - cbn; split; eauto.
  - cbn; split; eauto.
  - destruct (ok (mkStalled st)); [| destruct (st =? 401)]; cbn; split; eauto.
Qed.


(** ** LoginPage.jsx *)

Lemma settles_mret {A} (a : A) : settles (mret a).
Proof. intros w. discriminate. Qed.

Lemma settles_mthrow {A} (e : error) : settles (@mthrow A e).
Proof. intros w. discriminate. Qed.

Lemma settles_lift {A} (c : completion A) : settles (lift c).
Proof. destruct c; intros w; discriminate. Qed.

Lemma settles_update_storage (f : Storage -> Storage) : settles (update_storage f).
Proof. intros w. discriminate. Qed.

Lemma settles_mbind {A B} (m : M A) (k : A -> M B) :
  settles m -> (forall a, settles (k a)) -> settles (mbind m k).
Proof.
  intros Hm Hk w. unfold mbind. specialize (Hm w).
  destruct (m w) as [[a | e |] w1]; cbn in *; [apply Hk | discriminate | congruence].
Qed.

Lemma settles_if {A} (b : bool) (m1 m2 : M A) :
  settles m1 -> settles m2 -> settles (if b then m1 else m2).
Proof. now destruct b. Qed.

(** Once the body is there, reading it settles. *)
Lemma settles_response_json `{Platform} (st : Z) (b : string) :
  settles (response_json (mkResponse st b)).
Proof. apply settles_lift. Qed.

Create HintDb settles discriminated.

#[local] Hint Resolve settles_mret settles_mthrow settles_lift settles_update_storage
  settles_mbind settles_if settles_response_json : settles.

Ltac settles :=
  unfold json_or_throw, throw_server_error, store_credentials;
  repeat (first [ apply settles_mbind; [| intros ? ]
                | apply settles_if
                | solve [ auto with settles ] ]).

Section Submit.
Context `{Platform}.
Variables (PROD : bool) (net : request -> network).


(** Both branches read the body, so a body that never arrives suspends the
    call whatever the status is. *)
Lemma credentials_tail_stalled (st0 : Z) (fallback : string) (w : world) :
  ((if negb (ok (mkStalled st0)) then
      error <- response_json (mkStalled st0) ;;
      throw_server_error error fallback
    else mret tt) ;;;
   data <- response_json (mkStalled st0) ;;
   store_credentials data ;;;
   mret data)%M w
  = (Pending, w).
Proof. unfold mbind. now destruct (ok (mkStalled st0)). Qed.

Lemma credentials_tail_no_token (st0 : Z) (b0 : string) (fallback : string)
    (data : json) (w : world) :
  ok (mkResponse st0 b0) = true ->
  JSON_parse b0 = Some data ->
  data <> JNull ->
  truthy (field data "token") = false ->
  ((if negb (ok (mkResponse st0 b0)) then
      error <- response_json (mkResponse st0 b0) ;;
      throw_server_error error fallback
    else mret tt) ;;;
   data <- response_json (mkResponse st0 b0) ;;
   store_credentials data ;;;
   mret data)%M w
  = (Fulfilled data, w).
Proof.
  intros Hok Hp Hnn Hfalsy.
  unfold mbind, response_json, js_JSON_parse, store_credentials, mbind.
  rewrite Hok, Hp. cbn [negb mret lift].
  rewrite (get_prop_field _ _ Hnn). cbn [mret lift]. now rewrite Hfalsy.
Qed.

(** The call of [handleSubmit], by what the network does. *)
Lemma submit_call (p : login_page) (w : world) :
  (if isLoginView p
   then loginUser PROD net (form_email (formData p)) (form_password (formData p))
   else registerUser PROD net (form_email (formData p)) (form_password (formData p))
          (form_username (formData p))) w
  = let w1 := mkWorld (storage w) (issued w ++ [submit_request PROD p]) (aborted w) in
    match net (submit_request PROD p) with
    | NeverSettles => (Pending, w1)
    | Settles _ (NetworkError e) => (Rejected e, w1)
    | Settles _ (Response st b) =>
        ((if negb (ok (mkResponse st b)) then
            error <- response_json (mkResponse st b) ;;
            throw_server_error error
              (if isLoginView p then "Login failed" else "Registration failed")
          else mret tt) ;;;
         data <- response_json (mkResponse st b) ;;
         store_credentials data ;;;
         mret data)%M w1
    | Stalls _ st => (Pending, w1)
    end.
Proof.
  unfold submit_request. destruct (isLoginView p).
  - unfold loginUser. unfold mbind at 1. unfold fetch.
    destruct (net _) as [t [st b | e] | | t st]; try reflexivity.
    apply credentials_tail_stalled.
  - unfold registerUser. unfold mbind at 1. unfold fetch.
    destruct (net _) as [t [st b | e] | | t st]; try reflexivity.
    apply credentials_tail_stalled.
Qed.
End Submit.

Lemma failure_result_rejects `{Platform} (fallback b : string) (w : world) :
  exists err, failure_result fallback b w = (Rejected err, w).
Proof.
  unfold failure_result. destruct (JSON_parse b) as [error |]; [| eauto].
  destruct error; eauto;
    match goal with
    | |- context [truthy ?v] => destruct (truthy v); eauto
    end;
    match goal with
    | |- context [ToString ?v] => destruct (ToString v); eauto
    end.
Qed.



(** X12. A submission that fails (the fetch is rejected, or the status is
    not a success status) changes neither the user of the context nor the
    storage; it ends with [loading] false and shows the message of the error,
    or [Something went wrong.] when that message is empty.  For a rejected
    fetch the error is the one of the fetch. *)
Theorem handleSubmit_failure `{Platform} (PROD : bool) (net : request -> network)
    (p : login_page) (a : auth_state) (w : world) (t : Z) (r : fetch_result) :
  net (submit_request PROD p) = Settles t r ->
  (forall st b, r = Response st b -> ~ (200 <= st <= 299)) ->
  exists err,
    handleSubmit PROD net p a w
    = (Done tt,
       mkLoginPage (isLoginView p) (formData p) false
         (message_or err "Something went wrong."),
       a,
       mkWorld (storage w) (issued w ++ [submit_request PROD p]) (aborted w))
    /\ (forall e, r = NetworkError e -> err = e).
Proof.
  intros Hnet Hfail.
  unfold handleSubmit. rewrite (submit_call PROD net p w). cbv zeta. rewrite Hnet.
  destruct r as [st b | e].
  - rewrite (credentials_tail_failure st b _ _
               (ok_false _ _ (Hfail st b eq_refl))).
    destruct (failure_result_rejects
                (if isLoginView p then "Login failed" else "Registration failed") b
                (mkWorld (storage w) (issued w ++ [submit_request PROD p]) (aborted w)))
      as (err & Herr).
    unfold failure_result in Herr. rewrite Herr.
    exists err. split; [reflexivity | discriminate].
  - exists e. split; [reflexivity | congruence].
Qed.

Lemma handleSubmit_failure_witness :
  handleSubmit false (fun _ => Settles 30 (NetworkError (TypeError_ "Failed to fetch")))
    (mkLoginPage false (mkFormData "a@b.com" "secret" "ann") false "")
    auth_initial empty_world
  = (Done tt,
     mkLoginPage false (mkFormData "a@b.com" "secret" "ann") false "Failed to fetch",
     auth_initial,
     mkWorld ∅ [register_request false "a@b.com" "secret" "ann"] []).
Proof.
  destruct (handleSubmit_failure false
              (fun _ => Settles 30 (NetworkError (TypeError_ "Failed to fetch")))
              (mkLoginPage false (mkFormData "a@b.com" "secret" "ann") false "")
              auth_initial empty_world 30 (NetworkError (TypeError_ "Failed to fetch")))
    as (err & Hrun & Herr).
  - reflexivity.
  - discriminate.
  - rewrite Hrun, (Herr _ eq_refl). reflexivity.
Defined.

(** X13. A success response without a token (the field is absent or falsy)
    stores nothing, yet [handleSubmit] still hands the response to [login]:
    the user of the context becomes the [user] field of the response while the
    storage, [authToken] included, is as it was. *)
Theorem handleSubmit_without_token `{Platform} (PROD : bool)
    (net : request -> network) (p : login_page) (a : auth_state) (w : world)
    (t st : Z) (b : string) (data : json) :
  net (submit_request PROD p) = Settles t (Response st b) ->
  200 <= st <= 299 ->
  JSON_parse b = Some data ->
  data <> JNull ->
  truthy (field data "token") = false ->
  handleSubmit PROD net p a w
  = (Done tt,
     mkLoginPage (isLoginView p) (formData p) false (page_error p),
     setUser (field data "user") a,
     mkWorld (storage w) (issued w ++ [submit_request PROD p]) (aborted w)).
Proof.
  intros Hnet Hok Hp Hnn Hfalsy.
  unfold handleSubmit. rewrite (submit_call PROD net p w). cbv zeta. rewrite Hnet.
  rewrite (credentials_tail_no_token st b _ data _
             (ok_true _ _ Hok) Hp Hnn Hfalsy).
  unfold login. rewrite (get_prop_field _ _ Hnn). reflexivity.
Qed.

Lemma handleSubmit_without_token_witness :
  let b := Ref.JSON_stringify (JObj [("user", sample_user)]) in
  let '(o, p', a', w') :=
    handleSubmit false (always 80 200 b) login_page_initial auth_initial empty_world in
  user a' = Some sample_user /\ getAuthToken (storage w') = None.
Proof.
  cbv zeta.
  rewrite (handleSubmit_without_token false
             (always 80 200 (Ref.JSON_stringify (JObj [("user", sample_user)])))
             login_page_initial auth_initial empty_world 80 200
             (Ref.JSON_stringify (JObj [("user", sample_user)]))
             (JObj [("user", sample_user)])).
  - split; reflexivity.
  - reflexivity.
  - lia.
  - reflexivity.
  - discriminate.
  - reflexivity.
Defined.



(** ** The API client issues one request per call *)

Lemma quiet_mret {A} (a : A) : quiet (mret a).
Proof. intros w. now split. Qed.

Lemma quiet_mthrow {A} (e : error) : quiet (@mthrow A e).
Proof. intros w. now split. Qed.

Lemma quiet_lift {A} (c : completion A) : quiet (lift c).
Proof. destruct c; intros w; now split. Qed.

Lemma quiet_read_storage : quiet read_storage.
Proof. intros w. now split. Qed.

Lemma quiet_update_storage (f : Storage -> Storage) : quiet (update_storage f).
Proof. intros w. now split. Qed.

Lemma quiet_mbind {A B} (m : M A) (k : A -> M B) :
  quiet m -> (forall a, quiet (k a)) -> quiet (mbind m k).
Proof.
  intros Hm Hk w. unfold mbind. specialize (Hm w).
  destruct (m w) as [[a | e |] w1]; cbn in *; [| assumption ..].
  destruct Hm as [<- <-]. apply Hk.
Qed.

Lemma quiet_if {A} (b : bool) (m1 m2 : M A) :
  quiet m1 -> quiet m2 -> quiet (if b then m1 else m2).
Proof. now destruct b. Qed.

Lemma quiet_single {A} (m : M A) : quiet m -> single_request m.
Proof. intros Hm w. left. apply Hm. Qed.

Lemma single_fetch (net : request -> network) (rq : request) :
  single_request (fetch net rq).
Proof.
  intros w. right. exists rq. unfold fetch.
  destruct (net rq) as [t [st b | e] | | t st]; cbn; auto.
Qed.

Lemma single_fetchWithTimeout (net : request -> network) (tie : bool)
    (rq : request) (timeoutMs : option Z) :
  single_request (fetchWithTimeout net tie rq timeoutMs).
Proof.
  intros w. right. exists (with_signal rq).
  unfold fetchWithTimeout, try_catch, fetch_with_signal.
  destruct (net (with_signal rq)) as [t [st b | e] | | t st];
    repeat match goal with
           | |- context [if ?c then _ else _] => destruct c
           end; cbn; auto.
Qed.

(** Steps without a request, then one that issues at most one. *)
Lemma single_after {A B} (m : M A) (k : A -> M B) :
  quiet m -> (forall a, single_request (k a)) -> single_request (mbind m k).
Proof.
  intros Hm Hk w. unfold mbind. specialize (Hm w).
  destruct (m w) as [[a | e |] w1]; cbn in *; [| now left ..].
  destruct Hm as [<- <-]. apply Hk.
Qed.

(** One step that issues at most one request, then steps without one. *)
Lemma single_before {A B} (m : M A) (k : A -> M B) :
  single_request m -> (forall a, quiet (k a)) -> single_request (mbind m k).
Proof.
  intros Hm Hk w. unfold mbind. specialize (Hm w).
  destruct (m w) as [[a | e |] w1]; cbn in *; [| assumption ..].
  destruct (Hk a w1) as [-> ->]. exact Hm.
Qed.

Lemma quiet_response_json `{Platform} (r : response) : quiet (response_json r).
Proof. destruct r; [apply quiet_lift | intros w; now split]. Qed.

Create HintDb quiet discriminated.

#[local] Hint Resolve quiet_mret quiet_mthrow quiet_lift quiet_read_storage
  quiet_update_storage quiet_mbind quiet_if quiet_response_json : quiet.

Ltac quiet :=
  unfold json_or_throw, throw_server_error, store_credentials;
  repeat (first [ apply quiet_mbind; [| intros ? ]
                | apply quiet_if
                | solve [ auto with quiet ] ]).

Section SingleRequest.
Context `{Platform}.
Variables (PROD : bool) (VITE_API_URL : option string).
Variables (net : request -> network) (tie : bool).

Lemma json_or_throw_quiet (r : response) (msg : string) : quiet (json_or_throw r msg).
Proof. quiet. Qed.

Lemma credentials_tail_quiet (response : response) (fallback : string) :
  quiet
    ((if negb (ok response) then
        error <- response_json response ;;
        throw_server_error error fallback
      else mret tt) ;;;
     data <- response_json response ;;
     store_credentials data ;;;
     mret data)%M.
Proof. quiet. Qed.

Lemma registerUser_single (email password username : string) :
  single_request (registerUser PROD net email password username).
Proof.
  unfold registerUser. apply single_before; [apply single_fetch |].
  intros response. apply credentials_tail_quiet.
Qed.

Lemma loginUser_single (email password : string) :
  single_request (loginUser PROD net email password).
Proof.
  unfold loginUser. apply single_before; [apply single_fetch |].
  intros response. apply credentials_tail_quiet.
Qed.

Lemma getUserProfile_single : single_request (getUserProfile PROD net).
Proof.
  unfold getUserProfile. apply single_after; [apply quiet_read_storage |].
  intros st. destruct (getItem "authToken" st) as [token |];
    [| apply quiet_single, quiet_mthrow].
  destruct (negb (truthy_string token)); [apply quiet_single, quiet_mthrow |].
  apply single_before; [apply single_fetch | intros response]. quiet.
Qed.

(** The shape shared by the news and chat operations. *)
Lemma read_then_fetch_single (k : Storage -> M response) (msg : string) :
  (forall st, single_request (k st)) ->
  single_request (st <- read_storage ;; response <- k st ;; json_or_throw response msg)%M.
Proof.
  intros Hk. apply single_after; [apply quiet_read_storage | intros st].
  apply single_before; [apply Hk | intros response; apply json_or_throw_quiet].
Qed.
End SingleRequest.

(** X15. No operation of the API client retries: each call of the fourteen
    operations issues at most one request, and a request is aborted only by
    the call that issued it, and only when it was given a signal. *)
Theorem api_single_request `{Platform} (PROD : bool) (VITE_API_URL : option string)
    (net : request -> network) (tie : bool) :
  (forall email password username,
      single_request (registerUser PROD net email password username))
  /\ (forall email password, single_request (loginUser PROD net email password))
  /\ single_request (getUserProfile PROD net)
  /\ single_request (getNewsFeed PROD VITE_API_URL net tie)
  /\ single_request (getUrgentNews PROD VITE_API_URL net tie)
  /\ single_request (getUserPreferences PROD VITE_API_URL net tie)
  /\ (forall preferences,
        single_request (updateUserPreferences PROD VITE_API_URL net tie preferences))
  /\ (forall topic, single_request (addMonitoringTopic PROD VITE_API_URL net tie topic))
  /\ (forall topic,
        single_request (removeMonitoringTopic PROD VITE_API_URL net tie topic))
  /\ single_request (getAIMemory PROD VITE_API_URL net)
  /\ (forall title, single_request (createNewChat PROD VITE_API_URL net title))
  /\ single_request (getAllChats PROD VITE_API_URL net)
  /\ (forall chatId, single_request (getChatById PROD VITE_API_URL net chatId))
  /\ (forall chatId content,
        single_request (saveMessage PROD VITE_API_URL net chatId content)).
Proof.
  repeat split; intros.
  - apply registerUser_single.
  - apply loginUser_single.
  - apply getUserProfile_single.
  - apply read_then_fetch_single. intros st. apply single_fetchWithTimeout.
  - apply read_then_fetch_single. intros st. apply single_fetchWithTimeout.
  - apply read_then_fetch_single. intros st. apply single_fetchWithTimeout.
  - apply read_then_fetch_single. intros st. apply single_fetchWithTimeout.
  - apply read_then_fetch_single. intros st. apply single_fetchWithTimeout.
  - apply read_then_fetch_single. intros st. apply single_fetchWithTimeout.
  - apply read_then_fetch_single. intros st. apply single_fetch.
  - apply read_then_fetch_single. intros st. apply single_fetch.
  - apply read_then_fetch_single. intros st. apply single_fetch.
  - unfold getChatById. apply single_after; [apply quiet_lift | intros id].
    apply read_then_fetch_single. intros st. apply single_fetch.
  - unfold saveMessage. apply single_after; [apply quiet_lift | intros id].
    apply read_then_fetch_single. intros st. apply single_fetch.
Qed.

(** ** news-api.js *)

(** A [getUrgentNews] request that is not answered within 35000 ms is
    aborted and the call fails with the timeout error, whatever the late
    answer is; the storage is left as it was. *)
Theorem getUrgentNews_times_out `{Platform} (PROD : bool) (VITE_API_URL : option string)
    (net : request -> network) (timer_wins_tie : bool) (w : world) :
  let rq := with_signal (urgent_news_request PROD VITE_API_URL (storage w)) in
  late net rq 35000 ->
  getUrgentNews PROD VITE_API_URL net timer_wins_tie w
  = (Rejected (Error_ timeout_message),
     mkWorld (storage w) (issued w ++ [rq]) (aborted w ++ [rq])).
Proof.
  intros rq Hlate. unfold getUrgentNews, mbind, read_storage.
  fold (urgent_news_request PROD VITE_API_URL (storage w)).
  now rewrite (fetchWithTimeout_late net timer_wins_tie _ (Some 35000) w Hlate).
Qed.

Lemma getUrgentNews_times_out_witness :
  let rq := with_signal (urgent_news_request false None (storage empty_world)) in
  getUrgentNews false None (always 40000 200 "[]") false empty_world
  = (Rejected (Error_ timeout_message),
     mkWorld (storage empty_world) (issued empty_world ++ [rq])
       (aborted empty_world ++ [rq])).
Proof.
  apply (getUrgentNews_times_out false None (always 40000 200 "[]") false empty_world).
  right. left. exists 40000, (Response 200 "[]"). split; [reflexivity | lia].
Defined.

(** A [getNewsFeed] request answered before the 35000 ms limit is not
    aborted: a success status gives the parsed body (or the parse error when
    the body is not JSON), and any other status gives the error
    [Failed to fetch news feed], whatever the body says. *)
Theorem getNewsFeed_in_time `{Platform} (PROD : bool) (VITE_API_URL : option string)
    (net : request -> network) (timer_wins_tie : bool) (w : world)
    (t st : Z) (b : string) :
  let rq := with_signal (news_feed_request PROD VITE_API_URL (storage w)) in
  net rq = Settles t (Response st b) ->
  t < 35000 ->
  snd (getNewsFeed PROD VITE_API_URL net timer_wins_tie w)
  = mkWorld (storage w) (issued w ++ [rq]) (aborted w)
  /\ (200 <= st <= 299 ->
      fst (getNewsFeed PROD VITE_API_URL net timer_wins_tie w)
      = match JSON_parse b with
        | Some data => Fulfilled data
        | None => Rejected (SyntaxError_ "Unexpected token in JSON")
        end)
  /\ (~ (200 <= st <= 299) ->
      fst (getNewsFeed PROD VITE_API_URL net timer_wins_tie w)
      = Rejected (Error_ "Failed to fetch news feed")).
Proof.
  intros rq Hnet Hlt. unfold getNewsFeed, mbind, read_storage.
  rewrite (fetchWithTimeout_in_time net timer_wins_tie _ (Some 35000) w t st b Hnet Hlt).
  unfold json_or_throw, mbind, response_json, js_JSON_parse. cbn beta iota.
  repeat split.
  - destruct (ok (mkResponse st b)); [| reflexivity].
    cbn [negb]. destruct (JSON_parse b); reflexivity.
  - intros Hok. rewrite (ok_true _ _ Hok). cbn [negb].
    destruct (JSON_parse b); reflexivity.
  - intros Hnok. now rewrite (ok_false _ _ Hnok).
Qed.

Lemma getNewsFeed_in_time_witness :
  fst (getNewsFeed false None (always 1200 503 "{}") true empty_world)
  = Rejected (Error_ "Failed to fetch news feed")
  /\ fst (getNewsFeed false None (always 1200 200 "[]") true empty_world)
     = Fulfilled (JArr []).
Proof.
  split.
  - destruct (getNewsFeed_in_time false None (always 1200 503 "{}") true empty_world
                1200 503 "{}") as (_ & _ & Hfail); [reflexivity | lia |].
    apply Hfail. lia.
  - destruct (getNewsFeed_in_time false None (always 1200 200 "[]") true empty_world
                1200 200 "[]") as (_ & Hok & _); [reflexivity | lia |].
    rewrite Hok by lia. reflexivity.
Defined.

(** X16. When the fetch of [getNewsFeed] is rejected before the limit, the
    error is passed on as it is and nothing is aborted; the one exception is
    an error named [AbortError], which is reported as a timeout although no
    timer fired. *)
Theorem getNewsFeed_network_error `{Platform} (PROD : bool)
    (VITE_API_URL : option string) (net : request -> network)
    (timer_wins_tie : bool) (w : world) (t : Z) (e : error) :
  let rq := with_signal (news_feed_request PROD VITE_API_URL (storage w)) in
  net rq = Settles t (NetworkError e) ->
  t < 35000 ->
  getNewsFeed PROD VITE_API_URL net timer_wins_tie w
  = (Rejected (if String.eqb (err_name e) "AbortError"
               then Error_ timeout_message else e),
     mkWorld (storage w) (issued w ++ [rq]) (aborted w)).
Proof.
  intros rq Hnet Hlt.
  unfold getNewsFeed, mbind, read_storage, fetchWithTimeout, try_catch,
    fetch_with_signal.
  fold rq. rewrite Hnet. change (default 30000 (Some 35000)) with 35000.
  replace (t <? 35000) with true by (symmetry; apply Z.ltb_lt; lia).
  cbn [orb]. destruct (String.eqb (err_name e) "AbortError"); reflexivity.
Qed.

Lemma getNewsFeed_network_error_witness :
  fst (getNewsFeed false None
         (fun _ => Settles 15 (NetworkError (TypeError_ "Failed to fetch")))
         true empty_world)
  = Rejected (TypeError_ "Failed to fetch").
Proof.
  rewrite (getNewsFeed_network_error false None
             (fun _ => Settles 15 (NetworkError (TypeError_ "Failed to fetch")))
             true empty_world 15 (TypeError_ "Failed to fetch")).
  - reflexivity.
  - reflexivity.
  - lia.
Defined.

Lemma registerUser_on_success `{Platform} (PROD : bool) (net : request -> network)
    (w : world) (email password username : string)
    (t st : Z) (b : string) (data : json) (token : string) :
  net (register_request PROD email password username) = Settles t (Response st b) ->
  200 <= st <= 299 ->
  JSON_parse b = Some data ->
  field data "token" = Some (JStr token) ->
  token <> "" ->
  registerUser PROD net email password username w
  = (Fulfilled data,
     mkWorld (setItem "user" (js_JSON_stringify (field data "user"))
                (setItem "authToken" token (storage w)))
       (issued w ++ [register_request PROD email password username]) (aborted w)).
Proof.
  intros Hnet Hok Hp Htok Hne.
  unfold registerUser. unfold mbind at 1. unfold fetch. rewrite Hnet.
  exact (credentials_tail_success st b "Registration failed" data token _
           (ok_true _ _ Hok) Hp Htok Hne).
Qed.

(** Whatever the network does, a [getNewsFeed] call issues exactly one
    request: the feed request built from the storage as it is at the call. *)
Lemma getNewsFeed_issues `{Platform} (PROD : bool) (VITE_API_URL : option string)
    (net : request -> network) (tie : bool) (w : world) :
  issued (snd (getNewsFeed PROD VITE_API_URL net tie w))
  = (issued w ++ [with_signal (news_feed_request PROD VITE_API_URL (storage w))])%list.
Proof.
  unfold getNewsFeed, mbind, read_storage, fetchWithTimeout, try_catch,
    fetch_with_signal.
  destruct (net _) as [t [st b | e] | | t st];
    repeat match goal with
           | |- context [if ?c then _ else _] => destruct c; cbn
           end; try reflexivity;
    match goal with
    | |- context [json_or_throw ?r ?msg ?w0] =>
        pose proof (proj1 (json_or_throw_quiet r msg w0)) as Hq; exact Hq
    end.
Qed.

(** X17. The news client reads the token when it is called.  After a
    registration that stored a token, the request that a [getNewsFeed] call
    issues, against any network, carries the header
    [Authorization: Bearer token]; called after [logoutUser], it issues a
    request without an [Authorization] header. *)
Theorem news_request_carries_token `{Platform} (PROD : bool)
    (VITE_API_URL : option string) (net net' : request -> network) (tie : bool)
    (w : world) (email password username : string)
    (t st : Z) (b : string) (data : json) (token : string) :
  net (register_request PROD email password username) = Settles t (Response st b) ->
  200 <= st <= 299 ->
  JSON_parse b = Some data ->
  field data "token" = Some (JStr token) ->
  token <> "" ->
  let w1 := snd (registerUser PROD net email password username w) in
  let w2 := with_storage (logoutUser (storage w1)) w1 in
  (exists rq,
      issued (snd (getNewsFeed PROD VITE_API_URL net' tie w1)) = (issued w1 ++ [rq])%list
      /\ req_headers rq
         = [("Content-Type", "application/json");
            ("Authorization", "Bearer " +:+ token)])
  /\ (exists rq,
        issued (snd (getNewsFeed PROD VITE_API_URL net' tie w2))
        = (issued w2 ++ [rq])%list
        /\ req_headers rq = [("Content-Type", "application/json")]).
Proof.
  intros Hnet Hok Hp Htok Hne w1 w2.
  assert (Hget : getItem "authToken" (storage w1) = Some token).
  { unfold w1.
    rewrite (registerUser_on_success PROD net w email password username
               t st b data token Hnet Hok Hp Htok Hne).
    cbn [snd storage]. unfold getItem, setItem.
    rewrite lookup_insert_ne by discriminate. apply lookup_insert_eq. }
  split; eexists; (split; [apply getNewsFeed_issues |]).
  - unfold news_feed_request, getAuthHeaders. cbn [req_headers with_signal].
    now rewrite Hget, (truthy_string_true _ Hne).
  - unfold news_feed_request, getAuthHeaders, getItem. cbn [req_headers with_signal].
    unfold w2. cbn [storage with_storage].
    change (logoutUser (storage w1)) with (both_removed (storage w1)).
    now rewrite (both_removed_token (storage w1)).
Qed.

Lemma news_request_carries_token_witness :
  let w1 := snd (registerUser false (always 80 201 (register_body token_without_exp))
                   "a@b.com" "secret" "ann" empty_world) in
  exists rq,
    issued (snd (getNewsFeed false None silent true w1)) = (issued w1 ++ [rq])%list
    /\ req_headers rq
       = [("Content-Type", "application/json");
          ("Authorization", "Bearer " +:+ token_without_exp)].
Proof.
  intros w1.
  destruct (news_request_carries_token false None
              (always 80 201 (register_body token_without_exp)) silent true empty_world
              "a@b.com" "secret" "ann" 80 201 (register_body token_without_exp)
              (JObj [("token", JStr token_without_exp); ("user", sample_user)])
              token_without_exp) as [Hbearer _].
  - reflexivity.
  - lia.
  - reflexivity.
  - reflexivity.
  - discriminate.
  - exact Hbearer.
Defined.

(** ** NewsFeed.jsx *)

Lemma settles_read_storage : settles read_storage.
Proof. intros w. discriminate. Qed.

Lemma in_time_spec (t limit : Z) (tie : bool) :
  (t <? limit) || ((t =? limit) && negb tie) = true
  <-> t < limit \/ (t = limit /\ tie = false).
Proof.
  rewrite orb_true_iff, andb_true_iff, negb_true_iff, Z.ltb_lt, Z.eqb_eq. tauto.
Qed.

(** A call made of [fetchWithTimeout] and [json_or_throw] stays pending
    exactly when the body of a success response that came in time never
    arrives: the timer was cleared when [fetch] resolved. *)
Lemma timed_call_pending `{Platform} (net : request -> network) (tie : bool)
    (rq : request) (limit : Z) (msg : string) (w : world) :
  fst ((response <- fetchWithTimeout net tie rq (Some limit) ;;
        json_or_throw response msg)%M w) = Pending
  <-> body_stalls net tie (with_signal rq) limit.
Proof.
  unfold body_stalls, mbind, fetchWithTimeout, try_catch, fetch_with_signal.
  change (default 30000 (Some limit)) with limit.
  pose proof (in_time_spec) as Hin.
  destruct (net (with_signal rq)) as [t [st b | e] | | t st].
  - split.
    + destruct ((t <? limit) || ((t =? limit) && negb tie)); cbn.
      * unfold json_or_throw, mbind, response_json.
        destruct (negb (ok (mkResponse st b))); cbn; [discriminate |].
        destruct (js_JSON_parse b); cbn; discriminate.
      * discriminate.
    + intros (t' & st' & Heq & _). discriminate Heq.
  - split.
    + destruct ((t <? limit) || ((t =? limit) && negb tie)); cbn;
        [destruct (String.eqb (err_name e) "AbortError") |]; cbn; discriminate.
    + intros (t' & st' & Heq & _). discriminate Heq.
  - split; [cbn; discriminate | intros (t' & st' & Heq & _); discriminate Heq].
  - specialize (Hin t limit tie).
    destruct ((t <? limit) || ((t =? limit) && negb tie)) eqn:Htime; cbn.
    + unfold json_or_throw, mbind, ok. cbn [status response_json never].
      destruct (Z.leb_spec 200 st); destruct (Z.leb_spec st 299); cbn; split;
        try discriminate; try (intros _; reflexivity);
        try (intros (t' & st' & Heq & Hok & _); injection Heq as <- <-; lia).
      intros _. exists t, st. repeat split; try lia. now apply Hin.
    + split; [discriminate |].
      intros (t' & st' & Heq & _ & Ht). injection Heq as <- <-.
      apply Hin in Ht. discriminate Ht.
Qed.

Section FeedRequests.
Context `{Platform}.
Variables (PROD : bool) (VITE_API_URL : option string).
Variables (net : request -> network) (tie : bool).

Lemma getNewsFeed_pending (w : world) :
  fst (getNewsFeed PROD VITE_API_URL net tie w) = Pending
  <-> body_stalls net tie
        (with_signal (news_feed_request PROD VITE_API_URL (storage w))) 35000.
Proof.
  unfold getNewsFeed. unfold mbind at 1. unfold read_storage.
  apply timed_call_pending.
Qed.

Lemma getUrgentNews_pending (w : world) :
  fst (getUrgentNews PROD VITE_API_URL net tie w) = Pending
  <-> body_stalls net tie
        (with_signal (urgent_news_request PROD VITE_API_URL (storage w))) 35000.
Proof.
  unfold getUrgentNews. unfold mbind at 1. unfold read_storage.
  apply (timed_call_pending net tie
           (urgent_news_request PROD VITE_API_URL (storage w)) 35000).
Qed.

(** A success answer that arrives in time. *)
Lemma getNewsFeed_data (w : world) (t st : Z) (b : string) (data : json) :
  net (with_signal (news_feed_request PROD VITE_API_URL (storage w)))
    = Settles t (Response st b) ->
  t < 35000 -> 200 <= st <= 299 -> JSON_parse b = Some data ->
  getNewsFeed PROD VITE_API_URL net tie w
  = (Fulfilled data,
     mkWorld (storage w)
       (issued w ++ [with_signal (news_feed_request PROD VITE_API_URL (storage w))])
       (aborted w)).
Proof.
  intros Hnet Hlt Hok Hp. unfold getNewsFeed, mbind, read_storage.
  rewrite (fetchWithTimeout_in_time net tie _ (Some 35000) w t st b Hnet Hlt).
  unfold json_or_throw, mbind, response_json, js_JSON_parse. cbn beta iota.
  now rewrite (ok_true _ _ Hok), Hp.
Qed.

Lemma getUrgentNews_data (w : world) (t st : Z) (b : string) (data : json) :
  net (with_signal (urgent_news_request PROD VITE_API_URL (storage w)))
    = Settles t (Response st b) ->
  t < 35000 -> 200 <= st <= 299 -> JSON_parse b = Some data ->
  getUrgentNews PROD VITE_API_URL net tie w
  = (Fulfilled data,
     mkWorld (storage w)
       (issued w ++ [with_signal (urgent_news_request PROD VITE_API_URL (storage w))])
       (aborted w)).
Proof.
  intros Hnet Hlt Hok Hp. unfold getUrgentNews, mbind, read_storage.
  fold (urgent_news_request PROD VITE_API_URL (storage w)).
  rewrite (fetchWithTimeout_in_time net tie _ (Some 35000) w t st b Hnet Hlt).
  unfold json_or_throw, mbind, response_json, js_JSON_parse. cbn beta iota.
  now rewrite (ok_true _ _ Hok), Hp.
Qed.
End FeedRequests.

(** X18. The timer of a feed request covers the wait for the response, not
    the reading of its body.  Each of the three handlers of the news feed
    completes, with its progress flag cleared ([loading] for [loadArticles]
    and [handleFilterChange], [refreshing] for [handleRefresh]), unless the
    head of a success response arrives before the 35000 ms limit and its body
    never does: in that one case the handler stays suspended for ever with
    the flag set.  In particular a request that is never answered does not
    suspend a handler.  [handleFilterChange] selects the chosen filter in both
    cases. *)
Theorem feed_handlers_complete `{Platform} (PROD : bool) (VITE_API_URL : option string)
    (net : request -> network) (tie : bool) (f : feed_state) (w : world) :
  let feed := with_signal (news_feed_request PROD VITE_API_URL (storage w)) in
  let urgent := with_signal (urgent_news_request PROD VITE_API_URL (storage w)) in
  (let '(o, f', _) := loadArticles PROD VITE_API_URL net tie f w in
   (o = Done tt /\ feed_loading f' = false /\ ~ body_stalls net tie feed 35000)
   \/ (o = Suspended /\ feed_loading f' = true /\ body_stalls net tie feed 35000))
  /\ (let '(o, f', _) := handleRefresh PROD VITE_API_URL net tie f w in
      (o = Done tt /\ refreshing f' = false /\ ~ body_stalls net tie feed 35000)
      \/ (o = Suspended /\ refreshing f' = true /\ body_stalls net tie feed 35000))
  /\ (forall value,
        let rq := if String.eqb value "urgent" then urgent else feed in
        let '(o, f', _) := handleFilterChange PROD VITE_API_URL net tie value f w in
        feed_filter f' = value
        /\ ((o = Done tt /\ feed_loading f' = false /\ ~ body_stalls net tie rq 35000)
            \/ (o = Suspended /\ feed_loading f' = true
                /\ body_stalls net tie rq 35000))).
Proof.
  intros feed urgent.
  pose proof (getNewsFeed_pending PROD VITE_API_URL net tie w) as Hfeed.
  pose proof (getUrgentNews_pending PROD VITE_API_URL net tie w) as Hurgent.
  fold feed in Hfeed. fold urgent in Hurgent.
  assert (Hno : forall A (x : promise A) (P : Prop),
             (x = Pending <-> P) -> x <> Pending -> ~ P)
    by (intros A x P Hiff Hx HP; apply Hx, Hiff, HP).
  split; [| split].
  - unfold loadArticles.
    destruct (getNewsFeed PROD VITE_API_URL net tie w) as [[data | e |] w1];
      cbn [fst] in Hfeed.
    + left. repeat split. apply (Hno _ _ _ Hfeed). discriminate.
    + left. repeat split. apply (Hno _ _ _ Hfeed). discriminate.
    + right. repeat split. now apply Hfeed.
  - unfold handleRefresh.
    destruct (getNewsFeed PROD VITE_API_URL net tie w) as [[data | e |] w1];
      cbn [fst] in Hfeed.
    + left. repeat split. apply (Hno _ _ _ Hfeed). discriminate.
    + left. repeat split. apply (Hno _ _ _ Hfeed). discriminate.
    + right. repeat split. now apply Hfeed.
  - intros value rq. subst rq. unfold handleFilterChange, loadArticles.
    destruct (String.eqb value "urgent").
    + destruct (getUrgentNews PROD VITE_API_URL net tie w) as [[data | e |] w1];
        cbn [fst] in Hurgent; (split; [reflexivity |]).
      * left. repeat split. apply (Hno _ _ _ Hurgent). discriminate.
      * left. repeat split. apply (Hno _ _ _ Hurgent). discriminate.
      * right. repeat split. now apply Hurgent.
    + destruct (getNewsFeed PROD VITE_API_URL net tie w) as [[data | e |] w1];
        cbn [fst] in Hfeed; (split; [reflexivity |]).
      * left. repeat split. apply (Hno _ _ _ Hfeed). discriminate.
      * left. repeat split. apply (Hno _ _ _ Hfeed). discriminate.
      * right. repeat split. now apply Hfeed.
Qed.

(** The head of a success response after 1.2 s, and no body: the timer was
    cleared, and [loadArticles] stays suspended with [loading] set; a network
    that does not answer at all lets it complete. *)
Lemma feed_handlers_complete_witness :
  (let '(o, f', _) := loadArticles false None (stalling 1200 200) true feed_initial
                        empty_world in
   o = Suspended /\ feed_loading f' = true)
  /\ (let '(o, f', _) := loadArticles false None silent true feed_initial empty_world in
      o = Done tt /\ feed_loading f' = false).
Proof.
  split.
  - destruct (feed_handlers_complete false None (stalling 1200 200) true feed_initial
                empty_world) as [Hload _].
    destruct (loadArticles false None (stalling 1200 200) true feed_initial empty_world)
      as [[o f'] w'] eqn:Hrun.
    vm_compute in Hrun. injection Hrun as <- <- <-.
    destruct Hload as [(Ho & _) | (Ho & Hloading & _)]; [discriminate Ho |].
    split; [reflexivity | exact Hloading].
  - destruct (feed_handlers_complete false None silent true feed_initial empty_world)
      as [Hload _].
    destruct (loadArticles false None silent true feed_initial empty_world)
      as [[o f'] w'] eqn:Hrun.
    vm_compute in Hrun. injection Hrun as <- <- <-.
    destruct Hload as [(Ho & Hloading & _) | (Ho & _)]; [| discriminate Ho].
    split; [reflexivity | exact Hloading].
Defined.

(** X19. A feed request that times out is shown like any other failure:
    [loadArticles] sets the error to [Failed to load news.], not to the text
    of the timeout error, keeps the articles it had and ends with [loading]
    false. *)
Theorem loadArticles_timeout `{Platform} (PROD : bool) (VITE_API_URL : option string)
    (net : request -> network) (tie : bool) (f : feed_state) (w : world) :
  let rq := with_signal (news_feed_request PROD VITE_API_URL (storage w)) in
  late net rq 35000 ->
  loadArticles PROD VITE_API_URL net tie f w
  = (Done tt,
     mkFeed (articles f) false (feed_filter f) (refreshing f)
       (Some "Failed to load news."),
     mkWorld (storage w) (issued w ++ [rq]) (aborted w ++ [rq]))
  /\ "Failed to load news." <> timeout_message.
Proof.
  intros rq Hlate. split; [| discriminate]. unfold loadArticles.
  assert (Hrun : getNewsFeed PROD VITE_API_URL net tie w
          = (Rejected (Error_ timeout_message),
             mkWorld (storage w) (issued w ++ [rq]) (aborted w ++ [rq]))).
  { unfold getNewsFeed, mbind, read_storage.
    now rewrite (fetchWithTimeout_late net tie _ (Some 35000) w Hlate). }
  now rewrite Hrun.
Qed.

Lemma loadArticles_timeout_witness :
  let '(o, f', w') := loadArticles false None silent true feed_initial empty_world in
  feed_error f' = Some "Failed to load news." /\ articles f' = JArr [].
Proof.
  destruct (loadArticles_timeout false None silent true feed_initial empty_world)
    as [Hrun _]; [left; reflexivity |].
  rewrite Hrun. split; reflexivity.
Defined.

(** X20. Only [loadArticles] clears the error.  When the request succeeds,
    [loadArticles] stores the articles and ends with no error, while
    [handleRefresh] and the [urgent] branch of [handleFilterChange] store the
    articles and keep the error of an earlier failure. *)
Theorem feed_error_is_sticky `{Platform} (PROD : bool) (VITE_API_URL : option string)
    (net : request -> network) (tie : bool) (f : feed_state) (w : world)
    (t st : Z) (b : string) (data : json) :
  t < 35000 -> 200 <= st <= 299 -> JSON_parse b = Some data ->
  (net (with_signal (news_feed_request PROD VITE_API_URL (storage w)))
     = Settles t (Response st b) ->
   (let '(_, f', _) := loadArticles PROD VITE_API_URL net tie f w in
    articles f' = data /\ feed_error f' = None)
   /\ (let '(_, f', _) := handleRefresh PROD VITE_API_URL net tie f w in
       articles f' = data /\ feed_error f' = feed_error f))
  /\ (net (with_signal (urgent_news_request PROD VITE_API_URL (storage w)))
        = Settles t (Response st b) ->
      let '(_, f', _) := handleFilterChange PROD VITE_API_URL net tie "urgent" f w in
      articles f' = data /\ feed_error f' = feed_error f).
Proof.
  intros Hlt Hok Hp. split; intros Hnet.
  - unfold loadArticles, handleRefresh.
    rewrite (getNewsFeed_data PROD VITE_API_URL net tie w t st b data Hnet Hlt Hok Hp).
    now repeat split.
  - unfold handleFilterChange. cbn [String.eqb Ascii.eqb Bool.eqb].
    rewrite (getUrgentNews_data PROD VITE_API_URL net tie w t st b data Hnet Hlt Hok Hp).
    now split.
Qed.

Lemma feed_error_is_sticky_witness :
  let f := mkFeed (JArr []) false "all" false (Some "Failed to load news.") in
  let '(_, f', _) := handleRefresh false None (always 900 200 "[]") true f empty_world in
  articles f' = JArr [] /\ feed_error f' = Some "Failed to load news.".
Proof.
  destruct (feed_error_is_sticky false None (always 900 200 "[]") true
              (mkFeed (JArr []) false "all" false (Some "Failed to load news."))
              empty_world 900 200 "[]" (JArr [])) as [Hfeed _];
    [lia | lia | reflexivity |].
  destruct (Hfeed eq_refl) as [_ Hrefresh]. exact Hrefresh.
Defined.

Section Filtered.
Context `{Platform}.
Variables (toLowerCase trim : string -> string).

Lemma filter_articles_spec (filter : string) (keep : json -> bool) (items : list json) :
  Forall (fun x => matches_filter toLowerCase trim filter x = Return (keep x)) items ->
  filter_articles toLowerCase trim filter items = Return (List.filter keep items).
Proof.
  induction 1 as [| x rest Hx _ IH]; [reflexivity |].
  cbn [filter_articles List.filter]. rewrite Hx, IH. cbn [cbind].
  now destruct (keep x).
Qed.

Lemma num_ge_80 (q : Q) : num_ge (Fin q) (Fin 80) = Qle_bool 80 q.
Proof.
  unfold num_ge, num_lt. destruct (Qcompare q 80) eqn:Hc; cbn [negb].
  - symmetry. apply Qle_bool_iff. apply Qle_lteq. right.
    symmetry. exact (proj2 (Qeq_alt q 80) Hc).
  - destruct (Qle_bool 80 q) eqn:Hle; [| reflexivity].
    apply Qle_bool_iff in Hle.
    exfalso. exact (Qle_not_lt _ _ Hle (proj2 (Qlt_alt q 80) Hc)).
  - symmetry. apply Qle_bool_iff.
    exact (Qlt_le_weak _ _ (proj2 (Qgt_alt q 80) Hc)).
Qed.
End Filtered.

Lemma filtered_all_items `{Platform} (toLowerCase trim : string -> string)
    (f : feed_state) (items : list json) :
  articles f = JArr items -> feed_filter f = "all" ->
  filtered toLowerCase trim f = Return items.
Proof.
  intros Ha Hf. unfold filtered. rewrite Ha, Hf. cbn [as_array cbind]. clear Ha Hf.
  induction items as [| x rest IH]; [reflexivity |].
  cbn [filter_articles matches_filter String.eqb Ascii.eqb Bool.eqb cbind].
  cbn [matches_filter String.eqb Ascii.eqb Bool.eqb] in IH. now rewrite IH.
Qed.

(** X21. With the filter [all] every article is shown, [null] entries
    included; with the filter [urgent] the articles shown are exactly those
    whose [urgency] is the string [high], in the order of the feed; and when
    the stored articles are not an array the computation throws. *)
Theorem filtered_all_and_urgent `{Platform} (toLowerCase trim : string -> string)
    (f : feed_state) :
  (forall items, articles f = JArr items -> feed_filter f = "all" ->
     filtered toLowerCase trim f = Return items)
  /\ (forall items, articles f = JArr items -> feed_filter f = "urgent" ->
       Forall (fun x => x <> JNull) items ->
       filtered toLowerCase trim f
       = Return (List.filter
                   (fun x => strict_eq (field x "urgency") (Some (JStr "high"))) items))
  /\ ((forall items, articles f <> JArr items) ->
      exists e, filtered toLowerCase trim f = Throw e).
Proof.
  repeat split.
  - intros items Ha Hf. unfold filtered. rewrite Ha, Hf. cbn [as_array cbind].
    rewrite (filter_articles_spec toLowerCase trim "all" (fun _ => true)).
    + f_equal. clear Ha Hf.
      induction items as [| x rest IH]; cbn; [reflexivity | now rewrite IH].
    + apply Forall_forall. intros x _. reflexivity.
  - intros items Ha Hf Hnn. unfold filtered. rewrite Ha, Hf. cbn [as_array cbind].
    apply filter_articles_spec.
    eapply Forall_impl; [exact Hnn |]. intros x Hx. cbn beta.
    unfold matches_filter. cbn [String.eqb Ascii.eqb Bool.eqb].
    now rewrite (get_prop_field _ _ Hx).
  - intros Hna. unfold filtered.
    destruct (articles f) eqn:Ha; cbn [as_array cbind]; eauto.
    now elim (Hna items).
Qed.

Lemma filtered_all_and_urgent_witness :
  filtered toLowerCase_ref trim_ref (mkFeed (JArr sample_articles) false "urgent" false None)
  = Return [article "a1" "Tech" "high" 90; article "a4" "Science" "high" 40].
Proof.
  destruct (filtered_all_and_urgent toLowerCase_ref trim_ref
              (mkFeed (JArr sample_articles) false "urgent" false None))
    as (_ & Hurgent & _).
  rewrite (Hurgent sample_articles); [reflexivity | reflexivity | reflexivity |].
  repeat constructor; discriminate.
Defined.

(** X22. With the filter [relevant], on articles whose [relevanceScore] is a
    number or is absent, the articles shown are exactly those with a score of
    at least 80 (80 included); an article without a score is never shown. *)
Theorem filtered_relevant `{Platform} (toLowerCase trim : string -> string)
    (f : feed_state) (items : list json) :
  articles f = JArr items ->
  feed_filter f = "relevant" ->
  Forall (fun x => x <> JNull
                   /\ (field x "relevanceScore" = undefined
                       \/ exists q, field x "relevanceScore" = Some (JNum q))) items ->
  filtered toLowerCase trim f = Return (List.filter score_at_least_80 items).
Proof.
  intros Ha Hf Hitems. unfold filtered. rewrite Ha, Hf. cbn [as_array cbind].
  apply filter_articles_spec.
  eapply Forall_impl; [exact Hitems |]. intros x [Hx Hscore]. cbn beta.
  unfold matches_filter. cbn [String.eqb Ascii.eqb Bool.eqb].
  rewrite (get_prop_field _ _ Hx). cbn [cbind]. unfold score_at_least_80, js_ge.
  destruct Hscore as [-> | (q & ->)]; cbn [ToNumber cbind].
  - reflexivity.
  - now rewrite num_ge_80.
Qed.

Lemma filtered_relevant_witness :
  filtered toLowerCase_ref trim_ref
    (mkFeed (JArr sample_articles) false "relevant" false None)
  = Return [article "a1" "Tech" "high" 90; article "a3" "Tech" "low" 80;
            article "a5" "Business" "medium" 85].
Proof.
  rewrite (filtered_relevant toLowerCase_ref trim_ref
             (mkFeed (JArr sample_articles) false "relevant" false None)
             sample_articles).
  - reflexivity.
  - reflexivity.
  - reflexivity.
  - repeat (apply List.Forall_cons;
            [split; [discriminate | right; eexists; reflexivity] |]).
    apply List.Forall_nil.
Defined.

Lemma filter_articles_keeps `{Platform} (toLowerCase trim : string -> string)
    (filter : string) (items l : list json) (x : json) :
  filter_articles toLowerCase trim filter items = Return l ->
  x ∈ items ->
  matches_filter toLowerCase trim filter x = Return true ->
  x ∈ l.
Proof.
  revert l. induction items as [| y rest IH]; intros l Hrun Hin Hx.
  - now apply elem_of_nil in Hin.
  - cbn [filter_articles] in Hrun.
    destruct (matches_filter toLowerCase trim filter y) as [keep | e] eqn:Hy;
      [| discriminate].
    cbn [cbind] in Hrun.
    destruct (filter_articles toLowerCase trim filter rest) as [rest' | e];
      [| discriminate].
    cbn [cbind] in Hrun. injection Hrun as <-.
    apply elem_of_cons in Hin as [-> | Hin].
    + rewrite Hx in Hy. injection Hy as <-. apply elem_of_cons. now left.
    + specialize (IH rest' eq_refl Hin Hx).
      destruct keep; [apply elem_of_cons; now right | exact IH].
Qed.

(** X23. The filter made from a category shows the articles of that
    category: with the filter value [toLowerCase c] selected (and different
    from the three fixed values), every article whose category is [c] is among
    the articles shown, provided lowering [c] again and trimming it change
    nothing (the category has no surrounding white space). *)
Theorem category_filter_shows_article `{Platform} (toLowerCase trim : string -> string)
    (f : feed_state) (items l : list json) (x : json) (c : string) :
  articles f = JArr items ->
  feed_filter f = toLowerCase c ->
  toLowerCase c <> "all" ->
  toLowerCase c <> "urgent" ->
  toLowerCase c <> "relevant" ->
  toLowerCase (toLowerCase c) = toLowerCase c ->
  trim (toLowerCase c) = toLowerCase c ->
  x ∈ items ->
  field x "category" = Some (JStr c) ->
  filtered toLowerCase trim f = Return l ->
  x ∈ l.
Proof.
  intros Ha Hf Hall Hurgent Hrelevant Hidem Htrim Hin Hcat Hrun.
  unfold filtered in Hrun. rewrite Ha, Hf in Hrun. cbn [as_array cbind] in Hrun.
  apply (filter_articles_keeps toLowerCase trim (toLowerCase c) items l x Hrun Hin).
  unfold matches_filter.
  rewrite (proj2 (String.eqb_neq _ _) Hall), (proj2 (String.eqb_neq _ _) Hurgent),
    (proj2 (String.eqb_neq _ _) Hrelevant).
  rewrite (get_prop_field _ _ (field_Some_not_null _ _ _ Hcat)), Hcat.
  cbn [cbind truthy].
  destruct (String.eqb_spec c "") as [-> | Hne]; cbn [negb js_toLowerCase cbind];
    now rewrite Htrim, Hidem, String.eqb_refl.
Qed.

Lemma category_filter_shows_article_witness :
  exists l,
    filtered toLowerCase_ref trim_ref
      (mkFeed (JArr sample_articles) false "tech" false None) = Return l
    /\ article "a3" "Tech" "low" 80 ∈ l.
Proof.
  exists [article "a1" "Tech" "high" 90; article "a3" "Tech" "low" 80].
  split; [reflexivity |].
  apply (category_filter_shows_article toLowerCase_ref trim_ref
           (mkFeed (JArr sample_articles) false "tech" false None)
           sample_articles _ (article "a3" "Tech" "low" 80) "Tech").
  - reflexivity.
  - reflexivity.
  - discriminate.
  - discriminate.
  - discriminate.
  - reflexivity.
  - reflexivity.
  - apply list_elem_of_In. cbn. tauto.
  - reflexivity.
  - reflexivity.
Defined.

(** ** The groups of four *)

Lemma group_loop_items (fuel i : nat) (l : list json) :
  (length l - i <= fuel)%nat ->
  concat (map group_items (group_loop fuel i l)) = drop i l
  /\ Forall (fun g => is_Some (hero g) /\ (length (compact g) <= 3)%nat)
       (group_loop fuel i l)
  /\ length (group_loop fuel i l) = ((length l - i + 3) / 4)%nat.
Proof.
  revert i. induction fuel as [| fuel IH]; intros i Hfuel.
  - cbn [group_loop map concat]. rewrite drop_ge by lia.
    repeat split; [constructor |].
    replace (length l - i)%nat with 0%nat by lia. reflexivity.
  - cbn [group_loop]. destruct (Nat.ltb_spec i (length l)) as [Hlt | Hge].
    + destruct (IH (i + 4)%nat ltac:(lia)) as (Hitems & Hsizes & Hcount).
      destruct (lookup_lt_is_Some_2 l i Hlt) as [x Hx].
      repeat split.
      * cbn [map concat]. rewrite Hitems. unfold group_items, slice.
        cbn [hero compact]. rewrite Hx.
        replace (i + 4 - (i + 1))%nat with 3%nat by lia.
        rewrite (drop_S l x i Hx). cbn [app]. f_equal.
        replace (i + 1)%nat with (S i) by lia.
        replace (i + 4)%nat with (S i + 3)%nat by lia.
        rewrite <- (drop_drop l 3 (S i)). apply take_drop.
      * constructor; [| exact Hsizes]. cbn [hero compact]. split; [eauto |].
        unfold slice. rewrite length_take. lia.
      * cbn [length]. rewrite Hcount.
        destruct (le_lt_dec 4 (length l - i)) as [Hbig | Hsmall].
        -- replace (length l - i + 3)%nat
             with ((length l - (i + 4) + 3) + 1 * 4)%nat by lia.
           rewrite Nat.div_add by lia. lia.
        -- replace (length l - (i + 4))%nat with 0%nat by lia.
           assert (Hn : (length l - i = 1 \/ length l - i = 2 \/ length l - i = 3)%nat)
             by lia.
           destruct Hn as [-> | [-> | ->]]; reflexivity.
    + cbn [map concat]. rewrite drop_ge by lia.
      repeat split; [constructor |].
      replace (length l - i)%nat with 0%nat by lia. reflexivity.
Qed.

(** X24. The groups of [groupedArticles] cut the list of the articles shown
    into consecutive blocks: laying out each group as its hero followed by its
    compact articles and concatenating the groups gives back the list; every
    group has a hero and at most three compact articles; and a list of [n]
    articles gives [ceil (n / 4)] groups. *)
Theorem groupedArticles_partition (filtered : list json) :
  concat (map group_items (groupedArticles filtered)) = filtered
  /\ Forall (fun g => is_Some (hero g) /\ (length (compact g) <= 3)%nat)
       (groupedArticles filtered)
  /\ length (groupedArticles filtered) = ((length filtered + 3) / 4)%nat.
Proof.
  unfold groupedArticles.
  destruct (group_loop_items (length filtered) 0 filtered ltac:(lia))
    as (Hitems & Hsizes & Hcount).
  rewrite Nat.sub_0_r in Hcount. now rewrite drop_0 in Hitems.
Qed.

(** ** The filters made from the categories *)

Lemma ltb_string_le (a b : string) : String.ltb a b = true -> string_le a b.
Proof.
  unfold String.ltb, string_le, String.leb.
  destruct (String.compare a b); intros Hlt; first [reflexivity | discriminate].
Qed.

Lemma not_ltb_string_le (a b : string) : String.ltb a b = false -> string_le b a.
Proof.
  unfold String.ltb, string_le, String.leb. rewrite (String.compare_antisym a b).
  destruct (String.compare b a); cbn [CompOpp]; intros Hlt;
    first [reflexivity | discriminate].
Qed.

Lemma existsb_strict_eq_string (c : string) (seen : list string) :
  existsb (strict_eq (Some (JStr c))) (map (fun s => Some (JStr s)) seen) = true
  <-> c ∈ seen.
Proof.
  rewrite existsb_exists. split.
  - intros (v & Hin & Heq). apply in_map_iff in Hin as (s & <- & Hs).
    cbn in Heq. apply String.eqb_eq in Heq as ->. now apply list_elem_of_In.
  - intros Hin. exists (Some (JStr c)). split.
    + apply in_map_iff. exists c. split; [reflexivity | now apply list_elem_of_In].
    + cbn. apply String.eqb_refl.
Qed.

(** The set of a list of strings: no duplicate, and the same strings. *)
Lemma set_of_strings (cs seen : list string) :
  exists ds,
    set_of (map (fun s => Some (JStr s)) seen) (map (fun s => Some (JStr s)) cs)
    = map (fun s => Some (JStr s)) ds
    /\ NoDup ds
    /\ (forall c, c ∈ ds <-> c ∈ cs /\ c ∉ seen).
Proof.
  revert seen. induction cs as [| c cs IH]; intros seen.
  - exists []. split; [reflexivity |]. split; [apply NoDup_nil_2 |].
    intros c. split.
    + intros Hin. now apply elem_of_nil in Hin.
    + intros [Hin _]. now apply elem_of_nil in Hin.
  - cbn [map set_of].
    destruct (existsb (strict_eq (Some (JStr c)))
                (map (fun s => Some (JStr s)) seen)) eqn:Hseen.
    + apply existsb_strict_eq_string in Hseen.
      destruct (IH seen) as (ds & Heq & Hnd & Hmem).
      exists ds. split; [exact Heq |]. split; [exact Hnd |].
      intros c0. split.
      * intros Hin. apply Hmem in Hin as [Hin Hout].
        split; [apply elem_of_cons; now right | exact Hout].
      * intros [Hin Hout]. apply Hmem. split; [| exact Hout].
        apply elem_of_cons in Hin as [-> | Hin]; [contradiction | exact Hin].
    + assert (Hfresh : c ∉ seen).
      { intros Hin. apply existsb_strict_eq_string in Hin. congruence. }
      destruct (IH (c :: seen)) as (ds & Heq & Hnd & Hmem).
      exists (c :: ds). split; [cbn [map] in Heq; now rewrite Heq |].
      split.
      { apply NoDup_cons. split; [| exact Hnd].
        intros Hin. apply Hmem in Hin as [_ Hout]. apply Hout.
        apply elem_of_cons. now left. }
      intros c0. split.
      * intros Hin. apply elem_of_cons in Hin as [-> | Hin].
        -- split; [apply elem_of_cons; now left | exact Hfresh].
        -- apply Hmem in Hin as [Hin Hout].
           split; [apply elem_of_cons; now right |].
           intros Hs. apply Hout. apply elem_of_cons. now right.
      * intros [Hin Hout]. apply elem_of_cons in Hin as [-> | Hin].
        -- apply elem_of_cons. now left.
        -- destruct (decide (c0 = c)) as [-> | Hne].
           ++ apply elem_of_cons. now left.
           ++ apply elem_of_cons. right. apply Hmem. split; [exact Hin |].
              intros Hs. apply elem_of_cons in Hs as [-> | Hs]; contradiction.
Qed.

Lemma insert_by_key_strings (s : string) (es : list string) :
  exists es',
    insert_by_key s (JStr s) (map (fun c => (c, JStr c)) es)
    = map (fun c => (c, JStr c)) es'
    /\ Permutation es' (s :: es)
    /\ (forall a, string_le a s -> HdRel string_le a es -> HdRel string_le a es')
    /\ (Sorted string_le es -> Sorted string_le es').
Proof.
  induction es as [| e es (es' & Heq & Hperm & Hhd & Hsorted)].
  - exists [s]. repeat split; auto.
  - cbn [map insert_by_key]. destruct (String.ltb s e) eqn:Hlt.
    + exists (s :: e :: es). repeat split; auto.
      intros Hs. constructor; [exact Hs |]. constructor. now apply ltb_string_le.
    + exists (e :: es'). repeat split.
      * now rewrite Heq.
      * rewrite Hperm. apply perm_swap.
      * intros a _ Ha. inversion Ha; subst. now constructor.
      * intros Hs. apply Sorted_inv in Hs as [Hs Hhe].
        constructor; [now apply Hsorted |].
        apply Hhd; [now apply not_ltb_string_le | exact Hhe].
Qed.

Lemma sort_by_key_strings (ds acc : list string) :
  Sorted string_le acc ->
  exists es,
    fold_left (fun a kv => insert_by_key (fst kv) (snd kv) a)
      (map (fun c => (c, JStr c)) ds) (map (fun c => (c, JStr c)) acc)
    = map (fun c => (c, JStr c)) es
    /\ Permutation es (ds ++ acc)
    /\ Sorted string_le es.
Proof.
  revert acc. induction ds as [| d ds IH]; intros acc Hacc.
  - exists acc. auto.
  - cbn [map fold_left fst snd].
    destruct (insert_by_key_strings d acc) as (acc' & Heq & Hperm & _ & Hsorted).
    rewrite Heq. destruct (IH acc' (Hsorted Hacc)) as (es & Hes & Hp & Hs).
    exists es. repeat split; [exact Hes | | exact Hs].
    rewrite Hp, Hperm. cbn [app]. symmetry. apply Permutation_middle.
Qed.

Section AvailableFilters.
Context `{Platform}.
Variable toLowerCase : string -> string.

Lemma js_sort_strings (ds : list string) :
  exists es,
    js_sort (map (fun s => Some (JStr s)) ds) = Return (map (fun s => Some (JStr s)) es)
    /\ Permutation es ds
    /\ Sorted string_le es.
Proof.
  unfold js_sort.
  assert (Hdefined : omap id (map (fun s => Some (JStr s)) ds) = map JStr ds).
  { induction ds as [| d ds IH]; [reflexivity |]. cbn. f_equal. exact IH. }
  assert (Hundef : List.filter (fun v : jsval => negb (bool_decide (is_Some v)))
                     (map (fun s => Some (JStr s)) ds) = []).
  { clear Hdefined. induction ds as [| d ds IH]; [reflexivity |]. cbn. exact IH. }
  assert (Hkeys : cmapM (fun v => (k <- ToString (Some v) ;; Return (k, v))%comp)
                    (map JStr ds) = Return (map (fun c => (c, JStr c)) ds)).
  { clear Hdefined Hundef. induction ds as [| d ds IH]; [reflexivity |].
    cbn [map cmapM]. rewrite IH. reflexivity. }
  rewrite Hdefined, Hundef.
  destruct (sort_by_key_strings ds [] (Sorted_nil _)) as (es & Hes & Hperm & Hsorted).
  rewrite app_nil_r in Hperm.
  destruct ds as [| d1 [| d2 ds]].
  - exists []. split; [reflexivity |]. split; [reflexivity | constructor].
  - exists [d1]. split; [reflexivity |]. split; [reflexivity |].
    constructor; constructor.
  - exists es. split; [| split; assumption].
    change (map JStr (d1 :: d2 :: ds)) with (JStr d1 :: JStr d2 :: map JStr ds) at 1.
    cbv iota. rewrite Hkeys. cbn [cbind]. unfold sort_by_key.
    change (@nil (string * json)) with (map (fun c : string => (c, JStr c)) []) at 1.
    rewrite Hes, app_nil_r. f_equal.
    rewrite map_map. reflexivity.
Qed.

Lemma categories_of_articles (items : list json) :
  Forall (fun x => x <> JNull /\ exists c, field x "category" = Some (JStr c)) items ->
  exists cs,
    cmapM (fun article => get_prop article "category") items
    = Return (map (fun s => Some (JStr s)) cs)
    /\ (forall c, c ∈ cs <-> exists x, x ∈ items /\ field x "category" = Some (JStr c)).
Proof.
  induction 1 as [| x rest [Hx (c & Hc)] _ (cs & Hrun & Hmem)].
  - exists []. split; [reflexivity |]. intros c. split.
    + intros Hin. now apply elem_of_nil in Hin.
    + intros (x & Hin & _). now apply elem_of_nil in Hin.
  - exists (c :: cs). split.
    + cbn [cmapM map]. rewrite (get_prop_field _ _ Hx), Hc, Hrun. reflexivity.
    + intros c0. split.
      * intros Hin. apply elem_of_cons in Hin as [-> | Hin].
        -- exists x. split; [apply elem_of_cons; now left | exact Hc].
        -- apply Hmem in Hin as (y & Hy & Hcat).
           exists y. split; [apply elem_of_cons; now right | exact Hcat].
      * intros (y & Hy & Hcat). apply elem_of_cons in Hy as [-> | Hy].
        -- rewrite Hc in Hcat. injection Hcat as ->. apply elem_of_cons. now left.
        -- apply elem_of_cons. right. apply Hmem. eauto.
Qed.

Lemma category_filters_of_strings (es : list string) :
  cmapM (category_filter toLowerCase) (map (fun s => Some (JStr s)) es)
  = Return (map (fun c => mkFilterOption c (toLowerCase c)) es).
Proof.
  induction es as [| e es IH]; [reflexivity |].
  cbn [map cmapM category_filter js_toLowerCase cbind]. now rewrite IH.
Qed.
End AvailableFilters.

(** X25. When every article of the feed has a string category,
    [getAvailableFilters] returns the three fixed filters followed by one
    filter per category: the labels are the categories of the articles, each
    once, in ascending order of the default sort, and the value of a filter is
    its label in lower case. *)
Theorem getAvailableFilters_sorted `{Platform} (toLowerCase : string -> string)
    (f : feed_state) (items : list json) :
  articles f = JArr items ->
  Forall (fun x => x <> JNull /\ exists c, field x "category" = Some (JStr c)) items ->
  exists cats,
    getAvailableFilters toLowerCase f
    = Return (baseFilters ++ map (fun c => mkFilterOption c (toLowerCase c)) cats)%list
    /\ Sorted string_le cats
    /\ NoDup cats
    /\ (forall c, c ∈ cats <-> exists x, x ∈ items /\ field x "category" = Some (JStr c)).
Proof.
  intros Ha Hitems.
  destruct (categories_of_articles items Hitems) as (cs & Hall & Hmem).
  destruct (set_of_strings cs []) as (ds & Hset & Hnd & Hds).
  destruct (js_sort_strings ds) as (es & Hsort & Hperm & Hsorted).
  exists es. split; [| split; [exact Hsorted | split]].
  - unfold getAvailableFilters. rewrite Ha. cbn [as_array cbind].
    rewrite Hall. cbn [cbind].
    change (@nil jsval) with (map (fun s : string => Some (JStr s)) []) at 1.
    rewrite Hset, Hsort. cbn [cbind].
    now rewrite (category_filters_of_strings toLowerCase es).
  - now rewrite Hperm.
  - intros c. rewrite Hperm, Hds, <- Hmem. split; [tauto |].
    intros Hin. split; [exact Hin |]. intros Hnil. now apply elem_of_nil in Hnil.
Qed.

Lemma getAvailableFilters_sorted_witness :
  getAvailableFilters toLowerCase_ref
    (mkFeed (JArr sample_articles) false "all" false None)
  = Return (baseFilters ++ [mkFilterOption "Business" "business";
                            mkFilterOption "Science" "science";
                            mkFilterOption "Tech" "tech"])%list.
Proof.
  destruct (getAvailableFilters_sorted toLowerCase_ref
              (mkFeed (JArr sample_articles) false "all" false None) sample_articles)
    as (cats & Hrun & _).
  - reflexivity.
  - repeat (apply List.Forall_cons; [split; [discriminate | eexists; reflexivity] |]).
    apply List.Forall_nil.
  - vm_compute. reflexivity.
Defined.

Lemma cmapM_throws {A B} (f : A -> completion B) (l : list A) (x : A) (e : error) :
  x ∈ l -> f x = Throw e -> exists e', cmapM f l = Throw e'.
Proof.
  intros Hin Hx. induction l as [| y rest IH]; [now apply elem_of_nil in Hin |].
  cbn [cmapM]. apply elem_of_cons in Hin as [<- | Hin].
  - rewrite Hx. eauto.
  - destruct (f y); [| eauto]. cbn [cbind].
    destruct (IH Hin) as (e' & ->). eauto.
Qed.

Lemma cmapM_get_prop (k : string) (items : list json) (all : list jsval) :
  cmapM (fun x => get_prop x k) items = Return all ->
  all = map (fun x => field x k) items.
Proof.
  revert all. induction items as [| x rest IH]; intros all Hrun.
  - now injection Hrun as <-.
  - cbn [cmapM] in Hrun. destruct x; cbn [get_prop cbind] in Hrun;
      try discriminate;
      (destruct (cmapM (fun x => get_prop x k) rest) as [ys | e]; [| discriminate];
       cbn [cbind] in Hrun; injection Hrun as <-;
       cbn [map]; f_equal; now apply IH).
Qed.

Lemma cmapM_keyed {A} (g : A -> completion string) (l : list A)
    (keyed : list (string * A)) :
  cmapM (fun v => (k <- g v ;; Return (k, v))%comp) l = Return keyed ->
  map snd keyed = l.
Proof.
  revert keyed. induction l as [| x rest IH]; intros keyed Hrun.
  - now injection Hrun as <-.
  - cbn [cmapM] in Hrun. destruct (g x) as [k | e]; [| discriminate].
    cbn [cbind] in Hrun.
    destruct (cmapM (fun v => (k <- g v ;; Return (k, v))%comp) rest) as [ys | e];
      [| discriminate].
    cbn [cbind] in Hrun. injection Hrun as <-. cbn [map snd]. f_equal. now apply IH.
Qed.

Lemma insert_by_key_perm (k : string) (v : json) (l : list (string * json)) :
  Permutation (insert_by_key k v l) ((k, v) :: l).
Proof.
  induction l as [| [k' v'] rest IH]; [reflexivity |].
  cbn [insert_by_key]. destruct (String.ltb k k'); [reflexivity |].
  rewrite IH. apply perm_swap.
Qed.

Lemma sort_by_key_perm (l : list (string * json)) : Permutation (sort_by_key l) l.
Proof.
  unfold sort_by_key.
  assert (Hgen : forall acc,
             Permutation (fold_left (fun a kv => insert_by_key (fst kv) (snd kv) a) l acc)
               (l ++ acc)).
  { induction l as [| [k v] rest IH]; intros acc; [reflexivity |].
    cbn [fold_left fst snd]. rewrite IH, insert_by_key_perm. cbn [app].
    symmetry. apply Permutation_middle. }
  rewrite Hgen. now rewrite app_nil_r.
Qed.

Lemma strict_eq_non_string (v w : jsval) :
  strict_eq v w = true -> non_string v -> non_string w.
Proof.
  intros Heq Hv s ->. destruct v as [[| | | s' | |] |]; try discriminate.
  now apply (Hv s').
Qed.

Lemma set_of_keeps_non_string (values seen : list jsval) (v : jsval) :
  v ∈ values -> non_string v ->
  (exists w, w ∈ set_of seen values /\ non_string w)
  \/ (exists w, w ∈ seen /\ non_string w).
Proof.
  revert seen. induction values as [| u rest IH]; intros seen Hin Hv.
  - now apply elem_of_nil in Hin.
  - cbn [set_of]. destruct (existsb (strict_eq u) seen) eqn:Hseen.
    + apply elem_of_cons in Hin as [-> | Hin]; [| now apply IH].
      apply existsb_exists in Hseen as (w & Hw & Heq). right.
      exists w. split; [now apply list_elem_of_In |].
      exact (strict_eq_non_string _ _ Heq Hv).
    + apply elem_of_cons in Hin as [-> | Hin].
      * left. exists u. split; [apply elem_of_cons; now left | exact Hv].
      * destruct (IH (u :: seen) Hin Hv) as [(w & Hw & Hns) | (w & Hw & Hns)].
        -- left. exists w. split; [apply elem_of_cons; now right | exact Hns].
        -- apply elem_of_cons in Hw as [-> | Hw].
           ++ left. exists u. split; [apply elem_of_cons; now left | exact Hns].
           ++ right. eauto.
Qed.

Lemma js_sort_keeps `{Platform} (values l : list jsval) (v : jsval) :
  js_sort values = Return l -> v ∈ values -> v ∈ l.
Proof.
  unfold js_sort. intros Hrun Hin.
  assert (Hsplit : match v with
                   | Some j => j ∈ (omap id values : list json)
                   | None => v ∈ List.filter
                               (fun v : jsval => negb (bool_decide (is_Some v))) values
                   end).
  { clear Hrun. induction values as [| u rest IH]; [now apply elem_of_nil in Hin |].
    apply elem_of_cons in Hin as [-> | Hin].
    - destruct u as [j |]; cbn; apply elem_of_cons; now left.
    - specialize (IH Hin). destruct v as [j |].
      + destruct u as [j' |]; cbn; [apply elem_of_cons; now right | exact IH].
      + destruct u as [j' |]; cbn; [exact IH | apply elem_of_cons; now right]. }
  set (defined := (omap id values : list json)) in *.
  set (undefineds :=
         List.filter (fun v : jsval => negb (bool_decide (is_Some v))) values) in *.
  assert (Hsimple : v ∈ (map Some defined ++ undefineds)%list).
  { apply elem_of_app. destruct v as [j |]; [left | now right].
    apply list_elem_of_fmap. eauto. }
  destruct defined as [| d1 [| d2 rest]] eqn:Hdef.
  - injection Hrun as <-. exact Hsimple.
  - injection Hrun as <-. exact Hsimple.
  - destruct (cmapM _ (d1 :: d2 :: rest)) as [keyed | e] eqn:Hkeyed; [| discriminate].
    cbn [cbind] in Hrun. injection Hrun as <-.
    apply elem_of_app. destruct v as [j |]; [left | now right].
    apply cmapM_keyed in Hkeyed.
    assert (Hj : j ∈ map snd (sort_by_key keyed)).
    { rewrite (sort_by_key_perm keyed), Hkeyed. exact Hsplit. }
    apply list_elem_of_fmap in Hj as (kv & -> & Hkv).
    apply list_elem_of_fmap. eauto.
Qed.

(** X26. An article without a string category (no category, [null], a
    number, ...; the article may also be [null]) makes [getAvailableFilters]
    throw, whatever the other articles are, although the list of the articles
    shown under the filter [all] can still be computed. *)
Theorem getAvailableFilters_needs_categories `{Platform}
    (toLowerCase trim : string -> string) (f : feed_state) (items : list json)
    (x : json) :
  articles f = JArr items ->
  x ∈ items ->
  (forall s, field x "category" <> Some (JStr s)) ->
  (exists e, getAvailableFilters toLowerCase f = Throw e)
  /\ (feed_filter f = "all" -> filtered toLowerCase trim f = Return items).
Proof.
  intros Ha Hin Hcat. split.
  - unfold getAvailableFilters. rewrite Ha. cbn [as_array cbind].
    destruct (cmapM (fun article => get_prop article "category") items)
      as [all | e] eqn:Hall; [| eauto].
    cbn [cbind]. apply cmapM_get_prop in Hall.
    assert (Hv : field x "category" ∈ all).
    { rewrite Hall. apply list_elem_of_fmap. eauto. }
    destruct (set_of_keeps_non_string all [] _ Hv Hcat)
      as [(w & Hw & Hns) | (w & Hw & _)]; [| now apply elem_of_nil in Hw].
    destruct (js_sort (set_of [] all)) as [categories | e] eqn:Hsort; [| eauto].
    cbn [cbind]. pose proof (js_sort_keeps _ _ _ Hsort Hw) as Hsorted.
    assert (Hthrow : exists e, category_filter toLowerCase w = Throw e).
    { unfold category_filter.
      destruct w as [[| | | s | |] |]; cbn; eauto. now elim (Hns s). }
    destruct Hthrow as (e & Hthrow).
    destruct (cmapM_throws (category_filter toLowerCase) categories w e Hsorted Hthrow)
      as (e' & ->).
    eauto.
  - intros Hf. now apply filtered_all_items.
Qed.

Lemma getAvailableFilters_needs_categories_witness :
  let items := [article "a1" "Tech" "high" 90; JObj [("id", JStr "a9")]] in
  (exists e, getAvailableFilters toLowerCase_ref
               (mkFeed (JArr items) false "all" false None) = Throw e)
  /\ filtered toLowerCase_ref trim_ref (mkFeed (JArr items) false "all" false None)
     = Return items.
Proof.
  intros items.
  destruct (getAvailableFilters_needs_categories toLowerCase_ref trim_ref
              (mkFeed (JArr items) false "all" false None) items
              (JObj [("id", JStr "a9")])) as [Hthrow Hall].
  - reflexivity.
  - apply list_elem_of_In. cbn. tauto.
  - intros s. discriminate.
  - split; [exact Hthrow | now apply Hall].
Defined.

(** ** AIModal.jsx *)

(** X27. With a chat selected, [handleSendMessage] creates no chat: the
    message is saved in the current chat, in the world as it is.  The chat
    list and the current chat are left as they were; a reply is appended after
    the optimistic message, nothing is appended for a falsy reply, and while
    the request is not answered the handler stays suspended with the
    optimistic message in the list. *)
Theorem handleSendMessage_in_current_chat `{Platform} (PROD : bool)
    (VITE_API_URL : option string) (net : request -> network)
    (text : string) (now_ms : Z) (iso : string) (m : modal_state) (w : world) :
  truthy (currentChatId m) = true ->
  Forall (fun x => x <> JNull) (messages m) ->
  let msg := userMessage text now_ms iso in
  let '(o, m', w') := handleSendMessage PROD VITE_API_URL net text now_ms iso m w in
  currentChatId m' = currentChatId m
  /\ chats m' = chats m
  /\ match saveMessage PROD VITE_API_URL net (currentChatId m) text w with
     | (Fulfilled reply, _) =>
         o = Done tt
         /\ messages m' = if truthy (Some reply) then (messages m ++ [msg; reply])%list
                          else (messages m ++ [msg])%list
     | (Rejected _, _) =>
         o = Done tt
         /\ messages m' =
              List.filter (fun x => negb (strict_eq (field x "id") (field msg "id")))
                (messages m ++ [msg])%list
     | (Pending, _) => o = Suspended /\ messages m' = (messages m ++ [msg])%list
     end.
Proof.
  intros Hselected Hmsgs msg. unfold handleSendMessage. rewrite Hselected.
  cbn [negb]. exact (send_in_chat_spec PROD VITE_API_URL net (currentChatId m)
                       text now_ms iso m w Hmsgs).
Qed.

Lemma handleSendMessage_in_current_chat_witness :
  let m := setCurrentChatId (Some (JStr "c1")) modal_initial in
  let '(o, m', w') :=
    handleSendMessage false None (chat_net (Response 200 reply_body)) "Hello"
      1700000000123 "2023-11-14T22:13:20.123Z" m empty_world in
  o = Done tt /\ length (messages m') = 2%nat /\ chats m' = [].
Proof.
  intros m.
  pose proof (handleSendMessage_in_current_chat false None
                (chat_net (Response 200 reply_body)) "Hello" 1700000000123
                "2023-11-14T22:13:20.123Z" m empty_world eq_refl (List.Forall_nil _))
    as Hthm.
  cbv zeta in Hthm.
  destruct (handleSendMessage false None (chat_net (Response 200 reply_body)) "Hello"
              1700000000123 "2023-11-14T22:13:20.123Z" m empty_world)
    as [[o m'] w'].
  destruct Hthm as (_ & Hchats & Hsave).
  remember (saveMessage false None (chat_net (Response 200 reply_body))
              (currentChatId m) "Hello" empty_world) as r eqn:Hr in Hsave.
  vm_compute in Hr. subst r. destruct Hsave as [Ho Hm].
  split; [exact Ho |]. split; [rewrite Hm; reflexivity | exact Hchats].
Defined.

Lemma filter_none {A} (p : A -> bool) (l : list A) :
  Forall (fun x => p x = true) l -> List.filter p l = l.
Proof.
  induction 1 as [| x rest Hx _ IH]; [reflexivity |].
  cbn [List.filter]. now rewrite Hx, IH.
Qed.

Lemma filter_app_last {A} (p : A -> bool) (l : list A) (x : A) :
  p x = false -> List.filter p (l ++ [x]) = List.filter p l.
Proof.
  intros Hx. rewrite List.filter_app. cbn [List.filter]. rewrite Hx.
  apply app_nil_r.
Qed.

(** X28. A failed send is rolled back by id.  The optimistic message is
    removed, and the list is exactly the one before the send when no earlier
    message carries the id [Date.now().toString()] of the new one; an earlier
    message with that id (a message sent in the same millisecond) is removed
    with it.  The flag [isNewChat], set to false before the request, is not
    restored. *)
Theorem handleSendMessage_rollback `{Platform} (PROD : bool)
    (VITE_API_URL : option string) (net : request -> network)
    (text : string) (now_ms : Z) (iso : string) (m : modal_state) (w w1 : world)
    (e : error) :
  truthy (currentChatId m) = true ->
  Forall (fun x => x <> JNull) (messages m) ->
  saveMessage PROD VITE_API_URL net (currentChatId m) text w = (Rejected e, w1) ->
  let '(o, m', w') := handleSendMessage PROD VITE_API_URL net text now_ms iso m w in
  o = Done tt
  /\ w' = w1
  /\ isNewChat m' = false
  /\ messages m' =
       List.filter
         (fun x => negb (strict_eq (field x "id") (Some (JStr (pretty now_ms)))))
         (messages m)
  /\ (Forall (fun x => field x "id" <> Some (JStr (pretty now_ms))) (messages m) ->
      messages m' = messages m).
Proof.
  intros Hselected Hmsgs Hsave. unfold handleSendMessage, send_in_chat.
  rewrite Hselected, Hsave. cbn [negb messages setMessages setIsNewChat].
  rewrite (get_prop_field (userMessage text now_ms iso) "id") by discriminate.
  rewrite filter_prop_neq_spec
    by (apply Forall_app; split; [assumption |];
        constructor; [discriminate | constructor]).
  assert (Hfilter :
    List.filter
      (fun x => negb (strict_eq (field x "id") (field (userMessage text now_ms iso) "id")))
      (messages m ++ [userMessage text now_ms iso])
    = List.filter
        (fun x => negb (strict_eq (field x "id") (Some (JStr (pretty now_ms)))))
        (messages m)).
  { apply filter_app_last. cbn [userMessage field lookup_field String.eqb Ascii.eqb
      Bool.eqb strict_eq]. now rewrite String.eqb_refl. }
  rewrite Hfilter. cbn [messages setMessages isNewChat].
  repeat split.
  intros Hfresh. apply filter_none.
  eapply Forall_impl; [exact Hfresh |]. intros x Hx. cbn beta in Hx |- *.
  destruct (field x "id") as [[| | | s | |] |]; try reflexivity.
  cbn [strict_eq]. destruct (String.eqb_spec s (pretty now_ms)) as [-> | Hne];
    [now elim Hx | reflexivity].
Qed.

Lemma handleSendMessage_rollback_witness :
  let older := userMessage "First" 1700000000123 "2023-11-14T22:13:20.123Z" in
  let m := setMessages [older] (setCurrentChatId (Some (JStr "c1")) modal_initial) in
  let '(o, m', w') :=
    handleSendMessage false None (chat_net (Response 500 "")) "Second"
      1700000000123 "2023-11-14T22:13:20.123Z" m empty_world in
  messages m' = [].
Proof.
  intros older m.
  pose proof (handleSendMessage_rollback false None (chat_net (Response 500 ""))
                "Second" 1700000000123 "2023-11-14T22:13:20.123Z" m empty_world
                (snd (saveMessage false None (chat_net (Response 500 ""))
                        (Some (JStr "c1")) "Second" empty_world))
                (Error_ "Failed to save message or get AI response")) as Hthm.
  destruct (handleSendMessage false None (chat_net (Response 500 "")) "Second"
              1700000000123 "2023-11-14T22:13:20.123Z" m empty_world)
    as [[o m'] w'].
  destruct Hthm as (_ & _ & _ & Hm & _).
  - reflexivity.
  - constructor; [discriminate | constructor].
  - vm_compute. reflexivity.
  - rewrite Hm. reflexivity.
Defined.

(** X29. When the creation succeeds and the new chat has a string id,
    [handleCreateNewChat] returns that id, makes the chat current, empties the
    message list, and puts the new chat first in the chat list, after removing
    from the list every chat with the same id: the id occurs once.  When the
    creation fails it returns [null] and changes nothing but the loading
    flag. *)
Theorem handleCreateNewChat_result `{Platform} (PROD : bool)
    (VITE_API_URL : option string) (net : request -> network)
    (m : modal_state) (w w1 : world) :
  Forall (fun c => c <> JNull) (chats m) ->
  (forall newChat id,
      createNewChat PROD VITE_API_URL net None w = (Fulfilled newChat, w1) ->
      field newChat "chatId" = Some (JStr id) ->
      let '(o, m', w') := handleCreateNewChat PROD VITE_API_URL net m w in
      o = Done (Some (JStr id))
      /\ currentChatId m' = Some (JStr id)
      /\ messages m' = []
      /\ loading_messages m' = false
      /\ chats m' = newChat ::
           List.filter (fun c => negb (strict_eq (field c "chatId") (Some (JStr id))))
             (chats m)
      /\ Forall (fun c => field c "chatId" <> Some (JStr id)) (tail (chats m')))
  /\ (forall e,
        createNewChat PROD VITE_API_URL net None w = (Rejected e, w1) ->
        handleCreateNewChat PROD VITE_API_URL net m w
        = (Done (Some JNull), setLoadingMessages false (setLoadingMessages true m), w1)).
Proof.
  intros Hchats. split.
  - intros newChat id Hcreate Hid. unfold handleCreateNewChat. rewrite Hcreate.
    cbn [chats setLoadingMessages].
    rewrite (get_prop_field _ _ (field_Some_not_null _ _ _ Hid)), Hid.
    rewrite (filter_prop_neq_spec _ _ _ Hchats). cbn. repeat split.
    apply Forall_forall. intros c Hin Hc.
    apply list_elem_of_In, filter_In in Hin as [_ Hkeep].
    rewrite Hc in Hkeep. cbn in Hkeep. now rewrite String.eqb_refl in Hkeep.
  - intros e Hcreate. unfold handleCreateNewChat. now rewrite Hcreate.
Qed.

Lemma handleCreateNewChat_result_witness :
  let newChat := JObj [("chatId", JStr "c1"); ("title", JStr "New Chat")] in
  let m := setChats [JObj [("chatId", JStr "c0")]; JObj [("chatId", JStr "c1")]]
             modal_initial in
  let '(o, m', w') :=
    handleCreateNewChat false None (chat_net (Response 200 "null")) m empty_world in
  o = Done (Some (JStr "c1"))
  /\ chats m' = [newChat; JObj [("chatId", JStr "c0")]].
Proof.
  intros newChat m.
  destruct (handleCreateNewChat_result false None (chat_net (Response 200 "null")) m
              empty_world
              (snd (createNewChat false None (chat_net (Response 200 "null")) None
                      empty_world))) as [Hok _].
  - repeat (apply List.Forall_cons; [discriminate |]). apply List.Forall_nil.
  - specialize (Hok newChat "c1").
    destruct (handleCreateNewChat false None (chat_net (Response 200 "null")) m
                empty_world) as [[o m'] w'].
    destruct Hok as (Ho & _ & _ & _ & Hchats & _).
    + vm_compute. reflexivity.
    + reflexivity.
    + split; [exact Ho | rewrite Hchats; reflexivity].
Defined.

(** X30. When no chat is selected and the chat cannot be created (the
    creation fails, or the created chat has no usable id), [handleSendMessage]
    drops the message: it completes without an optimistic message in the list
    and without a save request, the world being the one left by the creation
    request. *)
Theorem handleSendMessage_drops_message `{Platform} (PROD : bool)
    (VITE_API_URL : option string) (net : request -> network)
    (text : string) (now_ms : Z) (iso : string) (m : modal_state) (w w1 : world) :
  truthy (currentChatId m) = false ->
  Forall (fun c => c <> JNull) (chats m) ->
  ((exists e, createNewChat PROD VITE_API_URL net None w = (Rejected e, w1))
   \/ (exists newChat,
         createNewChat PROD VITE_API_URL net None w = (Fulfilled newChat, w1)
         /\ newChat <> JNull /\ truthy (field newChat "chatId") = false)) ->
  let '(o, m', w') := handleSendMessage PROD VITE_API_URL net text now_ms iso m w in
  o = Done tt
  /\ w' = w1
  /\ (messages m' = messages m \/ messages m' = []).
Proof.
  intros Hnone Hchats [(e & Hcreate) | (newChat & Hcreate & Hnn & Hid)];
    unfold handleSendMessage, handleCreateNewChat; rewrite Hnone, Hcreate;
    cbn [negb chats setLoadingMessages].
  - cbn. auto.
  - rewrite (get_prop_field _ _ Hnn), (filter_prop_neq_spec _ _ _ Hchats), Hid.
    cbn. auto.
Qed.

Lemma handleSendMessage_drops_message_witness :
  let '(o, m', w') :=
    handleSendMessage false None (always 40 500 "") "Hello" 1700000000123
      "2023-11-14T22:13:20.123Z" modal_initial empty_world in
  o = Done tt /\ messages m' = [] /\ length (issued w') = 1%nat.
Proof.
  pose proof (handleSendMessage_drops_message false None (always 40 500 "") "Hello"
                1700000000123 "2023-11-14T22:13:20.123Z" modal_initial empty_world
                (snd (createNewChat false None (always 40 500 "") None empty_world))
                eq_refl (List.Forall_nil _)) as Hthm.
  destruct (handleSendMessage false None (always 40 500 "") "Hello" 1700000000123
              "2023-11-14T22:13:20.123Z" modal_initial empty_world) as [[o m'] w'].
  destruct Hthm as (Ho & Hw & Hm).
  - left. eexists. vm_compute. reflexivity.
  - split; [exact Ho |]. split; [| rewrite Hw; reflexivity].
    destruct Hm as [Hm | Hm]; exact Hm.
Defined.
